(** * Simulation progress monitor: a shallow embedding of
      [src/utils/job_monitor.py] and of the submission wrapper in
      [src/model_builder/job.py].

    Conventions of the embedding.
    - A Python [str] is a [string]; its characters are code points below 256.
    - A Python [int] is a [Z]; a Python [float] is an IEEE-754 binary64 value,
      represented by [spec_float] and compared with [SFltb] (the comparison
      that specifies hardware floats, NaN included).
    - The status file is observed once per poll: a session is driven by the
      list of what [open]/[readlines] produced at each poll, [None] standing
      for [FileNotFoundError].
    - Calls to the logger are collected in a trace, one entry per iteration of
      the line loop, so that what was emitted and for which line index is
      visible in the result; the calls of [time.sleep] are entries of the
      trace too. *)

From Stdlib Require Import ZArith List String Ascii Bool Lia Sorted.
From Stdlib Require Import SpecFloat.
Import ListNotations.

Local Open Scope string_scope.
Local Open Scope list_scope.
Local Open Scope Z_scope.

(** ** Python string primitives used by the monitor *)

Module Py.

(** [str.isspace] on one character (code points below 256). *)
Definition isspace (c : ascii) : bool :=
  let n := Z.of_nat (nat_of_ascii c) in
  ((9 <=? n) && (n <=? 13)) || ((28 <=? n) && (n <=? 32))
  || (n =? 133) || (n =? 160).

(** [str.isdigit] on one character (code points below 256): the ten decimal
    digits and the superscripts 1, 2 and 3. *)
Definition isdigit (c : ascii) : bool :=
  let n := Z.of_nat (nat_of_ascii c) in
  ((48 <=? n) && (n <=? 57)) || (n =? 178) || (n =? 179) || (n =? 185).

Fixpoint lstrip (s : string) : string :=
  match s with
  | EmptyString => EmptyString
  | String c s' => if isspace c then lstrip s' else s
  end.

Fixpoint rstrip (s : string) : string :=
  match s with
  | EmptyString => EmptyString
  | String c s' =>
      match rstrip s' with
      | EmptyString => if isspace c then EmptyString else String c EmptyString
      | r => String c r
      end
  end.

(** [s.strip()] *)
Definition strip (s : string) : string := rstrip (lstrip s).

(** [s.startswith(p)] *)
Definition startswith (s p : string) : bool := prefix p s.

(** [sub in s] *)
Fixpoint contains (sub s : string) : bool :=
  prefix sub s ||
  match s with
  | EmptyString => false
  | String _ s' => contains sub s'
  end.

(** [s.split()]: the maximal runs of non-whitespace characters. [cur] is the
    run being read, if any. *)
Fixpoint split_from (cur : option string) (s : string) : list string :=
  match s with
  | EmptyString => match cur with Some w => [w] | None => [] end
  | String c s' =>
      if isspace c then
        match cur with
        | Some w => w :: split_from None s'
        | None => split_from None s'
        end
      else
        split_from
          (Some (String.append
                   (match cur with Some w => w | None => EmptyString end)
                   (String c EmptyString))) s'
  end.

Definition split (s : string) : list string := split_from None s.

(** [len(xs)] *)
Definition len {A} (xs : list A) : Z := Z.of_nat (List.length xs).

(** Truthiness of a string: non-empty. *)
Definition truthy (s : string) : bool :=
  match s with EmptyString => false | _ => true end.

End Py.

(** ** Floats, builtins and exceptions *)

(** A Python [float]. *)
Definition float : Type := spec_float.

(** [x < y] and [x > y] on floats. *)
Definition flt (x y : float) : bool := SFltb x y.
Definition fgt (x y : float) : bool :=
  match SFcompare x y with Some Gt => true | _ => false end.

(** The two conversions the monitor calls, [int(s)] and [float(s)]; [None]
    stands for the [ValueError] they raise on a malformed token. They are
    builtins of the language, not code of the monitor, so the monitor is
    embedded over any implementation of them. *)
Class Builtins : Type := {
  py_int : string -> option Z;
  py_float : string -> option float
}.

(** The exceptions that can arise while a line is parsed. *)
Inductive exn : Type := ValueError | IndexError.

Inductive result (A : Type) : Type :=
| Ok (a : A)
| Raise (e : exn).
Arguments Ok {A} a.
Arguments Raise {A} e.

Definition bind {A B} (r : result A) (k : A -> result B) : result B :=
  match r with
  | Ok a => k a
  | Raise e => Raise e
  end.

Notation "x <- r ;; k" := (bind r (fun x => k))
  (at level 61, r at next level, right associativity).

(** [values[k]] *)
Definition item (values : list string) (k : nat) : result string :=
  match nth_error values k with
  | Some v => Ok v
  | None => Raise IndexError
  end.

Definition int_of {B : Builtins} (s : string) : result Z :=
  match py_int s with Some z => Ok z | None => Raise ValueError end.

Definition float_of {B : Builtins} (s : string) : result float :=
  match py_float s with Some x => Ok x | None => Raise ValueError end.

(** ** Data model *)

(** The dictionary built by [_parse_increment_data]. *)
Record increment_data : Type := {
  increment : Z;
  step_time : float;
  total_time : float;
  wall_time : string;
  stable_inc : float;
  kinetic_energy : float;
  total_energy : float
}.

(** What the monitor hands to the logger. Formatting of numbers into text is
    not modelled: an entry keeps the values that are formatted. *)
Inductive emission : Type :=
| LogLine (line : string)                 (* log_func(line) *)
| LogHeader                               (* _print_header() *)
| LogIncrement (data : increment_data)    (* _print_increment_data(data) *)
| LogKeIncreasing (min_ke current : float)
| LogStopping
| LogCompleted                            (* "Job completed successfully." *)
| LogNotCompleted                         (* "Job did not complete successfully." *)
| LogWaiting.                             (* "Status file not found ..." *)

(** The kinetic-energy locals of [monitor_job]. *)
Record ke_state : Type := {
  previous_ke : option float;
  min_ke : option float;
  ke_increasing_count : Z
}.

(** The locals of [monitor_job]. *)
Record monitor_state : Type := {
  last_printed_line_index : Z;
  header_printed : bool;
  ke : ke_state
}.

(** ** Line classification *)

Fixpoint find_from (i : Z) (lines : list string) : Z :=
  match lines with
  | [] => -1
  | line :: rest =>
      if Py.contains "SOLUTION PROGRESS" line then i else find_from (i + 1) rest
  end.

Definition _find_solution_progress_section (lines : list string) : Z :=
  find_from 0 lines.

Definition _is_header_line (line : string) : bool :=
  (Py.startswith line "STEP" && Py.contains "ORIGIN" line)
  || (Py.startswith line "STEP" && Py.contains "TOTAL" line
      && Py.contains "WALL" line)
  || (Py.startswith line "INCREMENT" && Py.contains "TIME" line).

Definition _is_increment_data_line (line : string) : bool :=
  match line with
  | EmptyString => false
  | String c _ =>
      Py.isdigit c && Py.contains "E+" line && Py.contains "E-" line
  end.

Definition _should_skip_line (line : string) : bool :=
  Py.startswith line "INSTANCE WITH CRITICAL"
  || Py.startswith line "Output Field Frame".

Definition _parse_increment_data {B : Builtins} (values : list string)
  : result increment_data :=
  v0 <- item values 0 ;; inc <- int_of v0 ;;
  v1 <- item values 1 ;; st <- float_of v1 ;;
  v2 <- item values 2 ;; tt <- float_of v2 ;;
  v3 <- item values 3 ;;
  v4 <- item values 4 ;; si <- float_of v4 ;;
  v6 <- item values 6 ;; k <- float_of v6 ;;
  v7 <- item values 7 ;; te <- float_of v7 ;;
  Ok {| increment := inc; step_time := st; total_time := tt;
        wall_time := v3; stable_inc := si; kinetic_energy := k;
        total_energy := te |}.

(** Returns what was logged and the tuple
    [(updated min_ke, updated ke_increasing_count, should_exit)]. *)
Definition _check_ke_minimum (kinetic_energy : float)
  (previous_ke min_ke : option float) (ke_increasing_count : Z)
  : list emission * (option float * Z * bool) :=
  match previous_ke with
  | None => ([], (min_ke, ke_increasing_count, false))
  | Some prev =>
      match min_ke with
      | None => ([], (Some kinetic_energy, 0, false))
      | Some m =>
          if flt kinetic_energy m then ([], (Some kinetic_energy, 0, false))
          else if fgt kinetic_energy prev then
            let count := ke_increasing_count + 1 in
            if 3 <=? count then
              ([LogKeIncreasing m kinetic_energy; LogStopping],
               (min_ke, count, true))
            else ([], (min_ke, count, false))
          else ([], (min_ke, 0, false))
      end
  end.

(** Returns what was logged and the tuple [(has_status, success)]. *)
Definition _check_completion_status (line : string)
  : list emission * (bool * bool) :=
  if Py.contains "THE ANALYSIS HAS COMPLETED SUCCESSFULLY" line then
    ([LogCompleted], (true, true))
  else if Py.contains "ANALYSIS ABORTED" line
          || Py.contains "ANALYSIS TERMINATED" line then
    ([LogNotCompleted], (true, false))
  else ([], (false, false)).

(** ** The monitor *)

Definition initial_ke : ke_state :=
  {| previous_ke := None; min_ke := None; ke_increasing_count := 0 |}.

Definition initial_state : monitor_state :=
  {| last_printed_line_index := -1; header_printed := false;
     ke := initial_ke |}.

(** The kinetic-energy check of [monitor_job]: the call of
    [_check_ke_minimum], the assignment of its first two results, and, unless
    it asks to exit, the assignment [previous_ke = data["kinetic_energy"]].
    The boolean is [should_exit]. *)
Definition track_ke (k : ke_state) (x : float)
  : list emission * ke_state * bool :=
  let '(out, (m, c, should_exit)) :=
    _check_ke_minimum x (previous_ke k) (min_ke k) (ke_increasing_count k) in
  if should_exit then
    (out, {| previous_ke := previous_ke k; min_ke := m;
             ke_increasing_count := c |}, true)
  else
    (out, {| previous_ke := Some x; min_ke := m;
             ke_increasing_count := c |}, false).

Definition consumed (st : monitor_state) (i : Z) : monitor_state :=
  {| last_printed_line_index := i; header_printed := header_printed st;
     ke := ke st |}.

(** The body of the [for] loop at index [i], [raw] being [lines[i]]: what it
    logs, and either the locals after the iteration or the value returned by
    [monitor_job]. *)
Definition process_line {B : Builtins} (st : monitor_state) (i : Z)
  (raw : string) : list emission * (monitor_state + bool) :=
  let line := Py.strip raw in
  let '(out, (has_status, success)) := _check_completion_status line in
  if has_status then (out, inr success)
  else if _is_header_line line then ([], inl (consumed st i))
  else if _is_increment_data_line line then
    let values := Py.split line in
    if 7 <=? Py.len values then
      match _parse_increment_data values with
      | Ok data =>
          let head := if header_printed st then [] else [LogHeader] in
          let '(out_ke, k, should_exit) :=
            track_ke (ke st) (kinetic_energy data) in
          if should_exit then
            (head ++ [LogIncrement data] ++ out_ke, inr true)
          else
            (head ++ [LogIncrement data] ++ out_ke,
             inl {| last_printed_line_index := i; header_printed := true;
                    ke := k |})
      | Raise _ =>
          (if Py.truthy line then [LogLine line] else [],
           inl (consumed st i))
      end
    else ([], inl (consumed st i))
  else if Py.truthy line && negb (_should_skip_line line) then
    ([LogLine line], inl (consumed st i))
  else ([], inl (consumed st i)).

(** One entry per observable step of the session: a failed [open], one
    iteration of the line loop with its index and what it logged, or a call
    of [time.sleep] with its number of seconds. *)
Inductive event : Type :=
| Missing
| Line (i : Z) (out : list emission)
| Sleep (seconds : Z).

(** The [for] loop over the indices [i, i+1, ...] of the lines [ls]. *)
Fixpoint scan {B : Builtins} (st : monitor_state) (i : Z) (ls : list string)
  : list event * (monitor_state + bool) :=
  match ls with
  | [] => ([], inl st)
  | raw :: rest =>
      let '(out, r) := process_line st i raw in
      match r with
      | inr b => ([Line i out], inr b)
      | inl st' =>
          let '(tr, r') := scan st' (i + 1) rest in
          (Line i out :: tr, r')
      end
  end.

(** One turn of the [while True] loop, up to the sleep that ends it. [file]
    is [None] when [open] raises [FileNotFoundError], else the result of
    [readlines()]. *)
Definition poll {B : Builtins} (st : monitor_state)
  (file : option (list string)) : list event * (monitor_state + bool) :=
  match file with
  | None => ([Missing], inl st)
  | Some lines =>
      let solution_progress_index := _find_solution_progress_section lines in
      if 0 <=? solution_progress_index then
        let start_index := solution_progress_index + 2 in
        let first := Z.max start_index (last_printed_line_index st + 1) in
        scan st first (skipn (Z.to_nat first) lines)
      else ([], inl st)
  end.

(** The [while True] loop over the successive observations of the file. A
    turn that does not return ends with [time.sleep(5)]: in the [except]
    branch before its [continue], and at the end of the loop body otherwise.
    The result is [inr b] when [monitor_job] returns [b], and [inl st] when
    it is still polling, with locals [st], after the last observation. *)
Fixpoint monitor_loop {B : Builtins} (st : monitor_state)
  (polls : list (option (list string)))
  : list event * (monitor_state + bool) :=
  match polls with
  | [] => ([], inl st)
  | file :: later =>
      let '(tr, r) := poll st file in
      match r with
      | inr b => (tr, inr b)
      | inl st' =>
          let '(tr', r') := monitor_loop st' later in
          (tr ++ Sleep 5 :: tr', r')
      end
  end.

(** [monitor_job]: the initial wait, then the loop from the initial
    locals. *)
Definition monitor_job {B : Builtins} (polls : list (option (list string)))
  : list event * (monitor_state + bool) :=
  let '(tr, r) := monitor_loop initial_state polls in
  (Sleep 5 :: tr, r).

(** What reached the logger, in order. *)
Definition emitted (tr : list event) : list emission :=
  flat_map (fun e => match e with
                     | Missing => [LogWaiting]
                     | Line _ out => out
                     | Sleep _ => []
                     end) tr.

(** The line indices the loop visited, in order. *)
Definition visited (tr : list event) : list Z :=
  flat_map (fun e => match e with Line i _ => [i] | _ => [] end) tr.

(** The kinetic energies handed to the tracker, in order: one per record
    printed. *)
Definition sample_of (e : emission) : list float :=
  match e with LogIncrement d => [kinetic_energy d] | _ => [] end.

Definition samples (tr : list event) : list float :=
  flat_map sample_of (emitted tr).

(** ** The submission wrapper *)

(** The calls [create_and_submit_job] makes on the outside world. *)
Inductive action : Type :=
| CreateJob (job_name model_name : string)
| Submit
| Print (text : string)
| Kill
| Terminate (job_name cwd : string).

(** [create_and_submit_job]; [polls] is what the monitor observes when it is
    called. The result is [None] when the monitor is still polling after the
    last observation. The text printed starts with a newline, the character
    ["010"]. *)
Definition create_and_submit_job {B : Builtins} (job_name TEMP_DIR model_name : string)
  (wait : bool) (polls : list (option (list string)))
  : option (list action) :=
  let before := [CreateJob job_name model_name; Submit] in
  if wait then
    match snd (monitor_job polls) with
    | inr true =>
        Some (before ++
              [Print (String "010" " Job completed successfully by min KE.");
               Kill; Terminate job_name TEMP_DIR])
    | inr false => Some before
    | inl _ => None
    end
  else Some before.

(** ** A reference implementation of the builtins

    [int(s)] and [float(s)] on a token without whitespace, after the grammar
    of the language reference: an optional sign, decimal digits with single
    underscores allowed between digits, for floats an optional fraction and
    exponent or one of [inf], [infinity], [nan] in any case; the value of a
    float is the decimal rounded to the nearest binary64, ties to even. It
    instantiates the examples; the general theorems hold for every instance
    of [Builtins]. *)

Module PyRef.

Definition digit_val (c : ascii) : option Z :=
  let n := Z.of_nat (nat_of_ascii c) in
  if (48 <=? n) && (n <=? 57) then Some (n - 48) else None.

(** A digit part: value and number of digits. *)
Fixpoint digits_from (acc n : Z) (after_digit : bool) (s : string)
  : option (Z * Z) :=
  match s with
  | EmptyString => if after_digit then Some (acc, n) else None
  | String c s' =>
      match digit_val c with
      | Some d => digits_from (10 * acc + d) (n + 1) true s'
      | None =>
          if Ascii.eqb c "_" && after_digit then digits_from acc n false s'
          else None
      end
  end.

Definition digitpart (s : string) : option (Z * Z) := digits_from 0 0 false s.

Definition signed (s : string) : bool * string :=
  match s with
  | String "-" r => (true, r)
  | String "+" r => (false, r)
  | _ => (false, s)
  end.

Definition int (s : string) : option Z :=
  let '(neg, r) := signed s in
  match digitpart r with
  | Some (v, _) => Some (if neg then - v else v)
  | None => None
  end.

Definition in_digitpart (c : ascii) : bool :=
  match digit_val c with Some _ => true | None => Ascii.eqb c "_" end.

Fixpoint span (p : ascii -> bool) (s : string) : string * string :=
  match s with
  | EmptyString => (EmptyString, EmptyString)
  | String c s' =>
      if p c then let '(a, b) := span p s' in (String c a, b)
      else (EmptyString, s)
  end.

Definition lower (c : ascii) : ascii :=
  let n := nat_of_ascii c in
  if (65 <=? n)%nat && (n <=? 90)%nat then ascii_of_nat (n + 32) else c.

Fixpoint lowercase (s : string) : string :=
  match s with
  | EmptyString => EmptyString
  | String c s' => String (lower c) (lowercase s')
  end.

Definition optional_digitpart (s : string) : option (Z * Z) :=
  match s with EmptyString => Some (0, 0) | _ => digitpart s end.

(** A float number as mantissa and power of ten. *)
Definition decimal (s : string) : option (Z * Z) :=
  let '(ip, r1) := span in_digitpart s in
  let '(fp, r2) :=
    match r1 with
    | String "." r => span in_digitpart r
    | _ => (EmptyString, r1)
    end in
  if negb (Py.truthy ip) && negb (Py.truthy fp) then None
  else
    match optional_digitpart ip, optional_digitpart fp with
    | Some (iv, _), Some (fv, fd) =>
        let m := iv * 10 ^ fd + fv in
        match r2 with
        | EmptyString => Some (m, - fd)
        | String c r =>
            if Ascii.eqb (lower c) "e" then
              let '(neg, ds) := signed r in
              match digitpart ds with
              | Some (ev, _) => Some (m, (if neg then - ev else ev) - fd)
              | None => None
              end
            else None
        end
    | _, _ => None
    end.

(** [m * 10^e] rounded to binary64. For a negative [e] the quotient is
    computed with more bits than the format keeps and a sticky last bit. *)
Definition round_decimal (neg : bool) (m e : Z) : float :=
  if m =? 0 then S754_zero neg
  else
    let sgn := if neg then -1 else 1 in
    if 0 <=? e then binary_normalize 53 1024 (sgn * (m * 10 ^ e)) 0 false
    else
      let d := 10 ^ (- e) in
      let s := Z.max 0 (64 + Z.log2 d - Z.log2 m) in
      let q := (m * 2 ^ s) / d in
      let sticky := if (m * 2 ^ s) mod d =? 0 then 0 else 1 in
      binary_normalize 53 1024 (sgn * (2 * q + sticky)) (- s - 1) false.

Definition float (s : string) : option float :=
  let '(neg, r) := signed s in
  let l := lowercase r in
  if String.eqb l "nan" then Some S754_nan
  else if String.eqb l "inf" || String.eqb l "infinity" then
    Some (S754_infinity neg)
  else
    match decimal r with
    | Some (m, e) => Some (round_decimal neg m e)
    | None => None
    end.

End PyRef.

#[export] Instance reference_builtins : Builtins :=
  {| py_int := PyRef.int; py_float := PyRef.float |}.

(** The float of an integer literal. *)
Definition fl (z : Z) : float := binary_normalize 53 1024 z 0 false.

(** ** The tracker fed with a sequence of samples *)

(** The kinetic-energy locals after the samples [xs] were handed to
    [track_ke] in order, starting from [k]. Feeding ends with the sample for
    which the check asks to exit, since [monitor_job] returns there:
    [Some n] says that this was the [n]-th sample of [xs], counted from 1. *)
Fixpoint feed (k : ke_state) (xs : list float) : ke_state * option nat :=
  match xs with
  | [] => (k, None)
  | x :: rest =>
      let '(_, k', should_exit) := track_ke k x in
      if should_exit then (k', Some 1%nat)
      else let '(k'', r) := feed k' rest in (k'', option_map S r)
  end.

(** How many of the samples [xs] were processed, given the second result of
    [feed]. *)
Definition processed (r : option nat) (xs : list float) : nat :=
  match r with Some n => n | None => List.length xs end.

Definition is_nan (x : float) : bool :=
  match x with S754_nan => true | _ => false end.

(** The minimum of a list as the builtin [min] computes it: the first
    element no later element is strictly below; [None] on the empty list. *)
Fixpoint min_from (m : float) (xs : list float) : float :=
  match xs with
  | [] => m
  | x :: rest => min_from (if flt x m then x else m) rest
  end.

Definition py_min (xs : list float) : option float :=
  match xs with
  | [] => None
  | x :: rest => Some (min_from x rest)
  end.

(** The sample [x], arriving after the samples [before], is a new minimum:
    no minimum is known yet, or [x] is below the known one. *)
Definition new_minimum (before : list float) (x : float) : bool :=
  match py_min (skipn 1 before) with
  | None => true
  | Some m => flt x m
  end.

(** The sample [x], arriving after [before ++ [p]], is a counted increase:
    strictly above its predecessor [p] and not a new minimum. *)
Definition counted_rise (before : list float) (p x : float) : bool :=
  flt p x && negb (new_minimum (before ++ [p]) x).

(** [n] is a position of [xs], counted from 1, whose sample completes three
    consecutive counted increases. *)
Definition third_rise (xs : list float) (n : nat) : Prop :=
  exists pre a b c d post,
    xs = pre ++ [a; b; c; d] ++ post /\
    n = (List.length pre + 4)%nat /\
    counted_rise pre a b = true /\
    counted_rise (pre ++ [a]) b c = true /\
    counted_rise (pre ++ [a; b]) c d = true.

(** The same without the minimum: three consecutive strict increases, the
    first of them starting from a sample other than the first one. *)
Definition three_rises_at (xs : list float) (n : nat) : Prop :=
  exists pre a b c d post,
    xs = pre ++ [a; b; c; d] ++ post /\ pre <> [] /\
    n = (List.length pre + 4)%nat /\
    flt a b = true /\ flt b c = true /\ flt c d = true.

(** One step of the tracker, as a relation: the five ways through
    [_check_ke_minimum] and the assignments that follow it. *)
Inductive ke_step (k : ke_state) (x : float)
  : list emission -> ke_state -> bool -> Prop :=
| step_first :
    previous_ke k = None ->
    ke_step k x []
      {| previous_ke := Some x; min_ke := min_ke k;
         ke_increasing_count := ke_increasing_count k |} false
| step_new_minimum p :
    previous_ke k = Some p ->
    (min_ke k = None \/ exists m, min_ke k = Some m /\ flt x m = true) ->
    ke_step k x []
      {| previous_ke := Some x; min_ke := Some x; ke_increasing_count := 0 |}
      false
| step_increase p m :
    previous_ke k = Some p -> min_ke k = Some m ->
    flt x m = false -> flt p x = true -> ke_increasing_count k + 1 < 3 ->
    ke_step k x []
      {| previous_ke := Some x; min_ke := Some m;
         ke_increasing_count := ke_increasing_count k + 1 |} false
| step_stop p m :
    previous_ke k = Some p -> min_ke k = Some m ->
    flt x m = false -> flt p x = true -> 3 <= ke_increasing_count k + 1 ->
    ke_step k x [LogKeIncreasing m x; LogStopping]
      {| previous_ke := Some p; min_ke := Some m;
         ke_increasing_count := ke_increasing_count k + 1 |} true
| step_reset p m :
    previous_ke k = Some p -> min_ke k = Some m ->
    flt x m = false -> flt p x = false ->
    ke_step k x []
      {| previous_ke := Some x; min_ke := Some m; ke_increasing_count := 0 |}
      false.

(** The minimum of [xs] and of a minimum [m] known before, if any. *)
Definition min_after (m : option float) (xs : list float) : option float :=
  match m with
  | None => py_min xs
  | Some m0 => Some (min_from m0 xs)
  end.

(** What the locals say about the samples [ys] fed so far without a stop. *)
Definition streak_inv (ys : list float) (k : ke_state) : Prop :=
  exists ys' p, ys = ys' ++ [p] /\ previous_ke k = Some p /\
    match min_ke k with
    | None => ys' = [] /\ ke_increasing_count k = 0
    | Some m =>
        ys' <> [] /\ flt p m = false /\
        (ke_increasing_count k = 0 \/
         (ke_increasing_count k = 1 /\
          exists pre a, ys' = pre ++ [a] /\ pre <> [] /\ flt a p = true) \/
         (ke_increasing_count k = 2 /\
          exists pre a b, ys' = pre ++ [a; b] /\ pre <> [] /\
            flt a b = true /\ flt b p = true))
    end.

(** ** Markers *)

(** The first, respectively last, character of [s] is not whitespace. *)
Definition starts_nonspace (s : string) : bool :=
  match s with
  | EmptyString => false
  | String c _ => negb (Py.isspace c)
  end.

Fixpoint ends_nonspace (s : string) : bool :=
  match s with
  | EmptyString => false
  | String c EmptyString => negb (Py.isspace c)
  | String _ s' => ends_nonspace s'
  end.

Definition success_marker : string := "THE ANALYSIS HAS COMPLETED SUCCESSFULLY".
Definition aborted_marker : string := "ANALYSIS ABORTED".
Definition terminated_marker : string := "ANALYSIS TERMINATED".
Definition progress_anchor : string := "SOLUTION PROGRESS".

(** ** How a session runs and ends *)

(** Nothing in [out] announces the end of a session. *)
Definition quiet (out : list emission) : Prop :=
  ~ In LogStopping out /\ ~ In LogCompleted out /\ ~ In LogNotCompleted out.

(** The last iteration of a session that returned [b], the kinetic-energy
    locals being [k] before it: a completion marker, or a record whose
    kinetic energy makes the check ask to exit. *)
Definition ended_by (k : ke_state) (out : list emission) (b : bool) : Prop :=
  (out = [LogCompleted] /\ b = true) \/
  (out = [LogNotCompleted] /\ b = false) \/
  (b = true /\
   exists head d m,
     out = head ++ [LogIncrement d; LogKeIncreasing m (kinetic_energy d);
                    LogStopping] /\
     (head = [] \/ head = [LogHeader]) /\
     snd (track_ke k (kinetic_energy d)) = true).

(** The trace [tr] and result [r] of a run that started with the
    kinetic-energy locals [k]: the records printed are the samples the
    tracker was fed with, and a run returns only in one of the ways of
    [ended_by]. *)
Definition session_ok (k : ke_state) (tr : list event)
  (r : monitor_state + bool) : Prop :=
  match r with
  | inl st' => feed k (samples tr) = (ke st', None) /\ quiet (emitted tr)
  | inr b =>
      exists tr0 i out k0,
        tr = tr0 ++ [Line i out] /\ quiet (emitted tr0) /\
        feed k (samples tr0) = (k0, None) /\ ended_by k0 out b
  end.

(** [range(i, i + n)] *)
Fixpoint z_range (i : Z) (n : nat) : list Z :=
  match n with
  | O => []
  | S n' => i :: z_range (i + 1) n'
  end.

(** What a raw line of the file says about completion, if anything: the
    success marker is looked for first. *)
Definition marker_outcome (raw : string) : option bool :=
  if Py.contains success_marker raw then Some true
  else if Py.contains aborted_marker raw || Py.contains terminated_marker raw
  then Some false
  else None.

Definition marker_log (b : bool) : list emission :=
  if b then [LogCompleted] else [LogNotCompleted].

(** The number of failed polls in a trace; each sends one waiting notice to
    the logger. *)
Definition waits (tr : list event) : nat :=
  List.length
    (filter (fun e => match e with Missing => true | _ => false end) tr).

(** The trace of [n] failed polls in a row: each logs the waiting notice and
    is followed by the sleep of the [except] branch. *)
Definition retries (n : nat) : list event :=
  List.concat (repeat [Missing; Sleep 5] n).

(** The seconds slept, call by call. *)
Definition sleeps (tr : list event) : list Z :=
  flat_map (fun e => match e with Sleep s => [s] | _ => [] end) tr.

(** The tokens [values] convert to the record [d]: there are at least eight
    of them, the first is an integer and the second, third, fifth, seventh
    and eighth are floats; the fourth is kept as it is and the sixth is not
    looked at. *)
Definition converts {B : Builtins} (values : list string) (d : increment_data)
  : Prop :=
  exists t0 t1 t2 t3 t4 t5 t6 t7 rest,
    values = t0 :: t1 :: t2 :: t3 :: t4 :: t5 :: t6 :: t7 :: rest /\
    py_int t0 = Some (increment d) /\
    py_float t1 = Some (step_time d) /\
    py_float t2 = Some (total_time d) /\
    t3 = wall_time d /\
    py_float t4 = Some (stable_inc d) /\
    py_float t6 = Some (kinetic_energy d) /\
    py_float t7 = Some (total_energy d).

(** ** Example status files *)

(** A line as [readlines] returns it, with its newline. *)
Definition ln (s : string) : string :=
  String.append s (String (ascii_of_nat 10) EmptyString).

Definition success_line : string :=
  ln " THE ANALYSIS HAS COMPLETED SUCCESSFULLY".

Definition aborted_line : string := ln " ***ERROR: ANALYSIS ABORTED".

(** Only the success marker: no progress anchor. *)
Definition sta_marker_only : list string := [success_line].

(** The success marker above the progress anchor. *)
Definition sta_marker_first : list string :=
  success_line ::
  map ln
    [" SOLUTION PROGRESS";
     "";
     " STEP 1  ORIGIN 0.0000";
     "INCREMENT     TIME      TIME      TIME   INCREMENT     ELEMENT     ENERGY     ENERGY";
     "        0  0.000E+00 0.000E+00  00:00:00 1.077E-07        1234  1.000E+01  -1.2E-05"].

(** The head of a status file: anchor, its two rows, the column titles and
    a first record. *)
Definition sta_head : list string :=
  map ln
    [" Abaqus/Explicit";
     " SOLUTION PROGRESS";
     "";
     " STEP 1  ORIGIN 0.0000";
     "          STEP     TOTAL      WALL      STABLE    CRITICAL    KINETIC      TOTAL";
     "INCREMENT     TIME      TIME      TIME   INCREMENT     ELEMENT     ENERGY     ENERGY";
     "        0  0.000E+00 0.000E+00  00:00:00 1.077E-07        1234  1.000E+01  -1.2E-05"].

(** Records with the kinetic energies 10, 8, 9, 10, 11 after the head. *)
Definition sta_rising : list string :=
  sta_head ++
  map ln
    ["     1000  1.000E-04 1.000E-04  00:00:03 1.077E-07        1234  8.000E+00  -1.2E-05";
     "     2000  2.000E-04 2.000E-04  00:00:05 1.077E-07        1234  9.000E+00  -1.2E-05";
     "     3000  3.000E-04 3.000E-04  00:00:07 1.077E-07        1234  1.000E+01  -1.2E-05";
     "     4000  4.000E-04 4.000E-04  00:00:09 1.077E-07        1234  1.100E+01  -1.2E-05"].

(** Data-shaped lines: seven tokens; three tokens; eight tokens of which the
    seventh is not a number; a well-formed record. *)
Definition seven_tokens : string :=
  "1 1.0E+00 1.0E-01 00:00:01 1.0E-05 0 1.0E+00".
Definition three_tokens : string := "1 2.0E+00 3.0E-01".
Definition bad_energy : string :=
  "4000 3.0E-04 3.0E-04 00:00:07 1.0E-07 1234 x.0E+00 -1.2E-05".
Definition good_record : string :=
  "  1000 1.0E-04 1.0E-04 00:00:03 1.0E-07 1234 8.0E+00 -1.2E-05".

(** ** The ways through one line, counters on what was logged *)

(** The ways through the body of the line loop, with what each logs and
    leaves. *)
Inductive line_step {B : Builtins} (st : monitor_state) (i : Z) (raw : string)
  : list emission -> monitor_state + bool -> Prop :=
| line_marker b :
    marker_outcome raw = Some b ->
    line_step st i raw (marker_log b) (inr b)
| line_header :
    marker_outcome raw = None ->
    _is_header_line (Py.strip raw) = true ->
    line_step st i raw [] (inl (consumed st i))
| line_record d k :
    marker_outcome raw = None ->
    _is_increment_data_line (Py.strip raw) = true ->
    converts (Py.split (Py.strip raw)) d ->
    track_ke (ke st) (kinetic_energy d) = ([], k, false) ->
    line_step st i raw
      ((if header_printed st then [] else [LogHeader]) ++ [LogIncrement d])
      (inl {| last_printed_line_index := i; header_printed := true;
              ke := k |})
| line_stop d m k :
    marker_outcome raw = None ->
    _is_increment_data_line (Py.strip raw) = true ->
    converts (Py.split (Py.strip raw)) d ->
    track_ke (ke st) (kinetic_energy d) =
      ([LogKeIncreasing m (kinetic_energy d); LogStopping], k, true) ->
    line_step st i raw
      ((if header_printed st then [] else [LogHeader]) ++
       [LogIncrement d; LogKeIncreasing m (kinetic_energy d); LogStopping])
      (inr true)
| line_unparsed :
    marker_outcome raw = None ->
    _is_header_line (Py.strip raw) = false ->
    _is_increment_data_line (Py.strip raw) = true ->
    (forall d, ~ converts (Py.split (Py.strip raw)) d) ->
    line_step st i raw
      (if 7 <=? Py.len (Py.split (Py.strip raw))
       then [LogLine (Py.strip raw)] else [])
      (inl (consumed st i))
| line_other :
    marker_outcome raw = None ->
    _is_header_line (Py.strip raw) = false ->
    _is_increment_data_line (Py.strip raw) = false ->
    line_step st i raw
      (if Py.truthy (Py.strip raw) && negb (_should_skip_line (Py.strip raw))
       then [LogLine (Py.strip raw)] else [])
      (inl (consumed st i)).

(** How many column headers, respectively records, are in what was
    logged. *)
Definition headers (out : list emission) : nat :=
  List.length
    (filter (fun e => match e with LogHeader => true | _ => false end) out).

Definition records (out : list emission) : nat :=
  List.length
    (filter (fun e => match e with LogIncrement _ => true | _ => false end) out).

(** The last element of a list, if any. *)
Definition last_opt {A} (xs : list A) : option A :=
  match rev xs with
  | [] => None
  | x :: _ => Some x
  end.

(** How many polls found no file. *)
Definition missing_polls (polls : list (option (list string))) : nat :=
  List.length
    (filter (fun p => match p with None => true | Some _ => false end) polls).

(** What was logged has no column header and no record, or exactly one
    header, placed right before the first record. *)
Definition header_shape (out : list emission) : Prop :=
  (records out = 0%nat /\ headers out = 0%nat) \/
  exists pre d post,
    out = pre ++ LogHeader :: LogIncrement d :: post /\
    records pre = 0%nat /\ headers pre = 0%nat /\ headers post = 0%nat.

(** The header bookkeeping of a run from the locals [st] that logged [out]
    and ended as [r]. *)
Definition header_ok (st : monitor_state) (out : list emission)
  (r : monitor_state + bool) : Prop :=
  (if header_printed st then headers out = 0%nat else header_shape out) /\
  match r with
  | inl st' =>
      header_printed st' = header_printed st || (0 <? records out)%nat
  | inr _ => True
  end.

(** A line of plain text as the monitor logs it: not empty, no completion
    marker, not a column-title row, and either data-shaped or free of the
    noise prefixes. *)
Definition plain_text (s : string) : Prop :=
  s <> EmptyString /\
  _is_header_line s = false /\
  Py.contains success_marker s = false /\
  Py.contains aborted_marker s = false /\
  Py.contains terminated_marker s = false /\
  (_is_increment_data_line s = true \/ _should_skip_line s = false).

(** A status file with noise after the head: an output-frame notice, a
    line of text with blanks around it and a blank line. *)
Definition sta_noise : list string :=
  sta_head ++
  map ln [" Output Field Frame Number 1 written";
          "   Restart information written   ";
          "    "].

(** A status file that has just started: the anchor, the row under it and
    a step row, no record yet. *)
Definition sta_started : list string :=
  map ln [" Abaqus/Explicit";
          " SOLUTION PROGRESS";
          "";
          " STEP 1  ORIGIN 0.0000"].

(** ** [MaterialSetup] and [ModelInput] ([study_generator/model_input.py]) *)

Module MaterialSetup.

Record t : Type := {
  E1 : float; E2 : float; E3 : float;
  NU12 : float; NU13 : float; NU23 : float;
  G12 : float; G13 : float; G23 : float;
  rho_lam : float;
  En : float; G1 : float; G2 : float;
  N : float; S1 : float; S2 : float;
  eta : float;
  GIc : float; GIIc : float; GIIIc : float;
  rho_coh : float
}.

End MaterialSetup.

Module ModelInput.

(** The frozen dataclass; the ply angles are Python ints. *)
Record t : Type := {
  uid : string;
  study : string;
  created_at : string;
  units : string;
  width : float;
  length : float;
  ply_angles : list Z;
  ply_thk : float;
  coh_thk : float;
  imp_radius : float;
  imp_mass : float;
  imp_speed : float;
  material_name : string;
  material : MaterialSetup.t
}.

(** [n_ply]: [len(self.ply_angles)] *)
Definition n_ply (m : t) : Z := Py.len (ply_angles m).

(** [n_coh]: [sum(1 for i in range(len(ang) - 1) if ang[i] != ang[i + 1])] *)
Definition n_coh (m : t) : Z :=
  let ang := ply_angles m in
  Py.len
    (filter (fun i => negb (nth i ang 0 =? nth (i + 1) ang 0))
       (seq 0 (List.length ang - 1))).

(** [job_name]: the f-string [{self.study}_{self.uid}] *)
Definition job_name (m : t) : string :=
  String.append (study m) (String.append "_" (uid m)).

End ModelInput.

(** The number of places where two neighbours of a list differ. *)
Fixpoint changes (ang : list Z) : nat :=
  match ang with
  | a :: (b :: _) as rest =>
      ((if (a =? b)%Z then 0 else 1) + changes rest)%nat
  | _ => 0%nat
  end.

(** [c in s] for a character. *)
Fixpoint has_char (c : ascii) (s : string) : bool :=
  match s with
  | EmptyString => false
  | String a s' => Ascii.eqb a c || has_char c s'
  end.

(** A material and a configuration for the examples. *)
Definition example_material : MaterialSetup.t :=
  {| MaterialSetup.E1 := fl 140000; MaterialSetup.E2 := fl 9000;
     MaterialSetup.E3 := fl 9000;
     MaterialSetup.NU12 := fl 0; MaterialSetup.NU13 := fl 0;
     MaterialSetup.NU23 := fl 0;
     MaterialSetup.G12 := fl 5000; MaterialSetup.G13 := fl 5000;
     MaterialSetup.G23 := fl 3000;
     MaterialSetup.rho_lam := fl 0;
     MaterialSetup.En := fl 1000000; MaterialSetup.G1 := fl 1000000;
     MaterialSetup.G2 := fl 1000000;
     MaterialSetup.N := fl 60; MaterialSetup.S1 := fl 90;
     MaterialSetup.S2 := fl 90;
     MaterialSetup.eta := fl 1;
     MaterialSetup.GIc := fl 1; MaterialSetup.GIIc := fl 1;
     MaterialSetup.GIIIc := fl 1;
     MaterialSetup.rho_coh := fl 0 |}.

Definition example_input (study uid : string) (angles : list Z)
  : ModelInput.t :=
  {| ModelInput.uid := uid; ModelInput.study := study;
     ModelInput.created_at := "20250505";
     ModelInput.units := "mm-s-ton-MPa";
     ModelInput.width := fl 100; ModelInput.length := fl 150;
     ModelInput.ply_angles := angles;
     ModelInput.ply_thk := fl 1; ModelInput.coh_thk := fl 0;
     ModelInput.imp_radius := fl 8; ModelInput.imp_mass := fl 1;
     ModelInput.imp_speed := fl 3000;
     ModelInput.material_name := "MatA";
     ModelInput.material := example_material |}.

(** ** The layer stack ([model_builder/geometry.py]) *)

Module Geometry.

(** Float addition and multiplication, and the literal [0.5]. *)
Definition fadd (x y : float) : float := SFadd 53 1024 x y.
Definition fmul (x y : float) : float := SFmul 53 1024 x y.
Definition half : float := S754_finite false 4503599627370496 (-53).

(** [float(z)] for an int: the nearest float, [None] standing for the
    [OverflowError] raised when there is none. *)
Definition float_of_int (z : Z) : option float :=
  match binary_normalize 53 1024 z 0 false with
  | S754_infinity _ => None
  | x => Some x
  end.

Record StackLayer : Type := {
  type : string;
  thk : float;
  ang : float;
  z_mid : float;
  z_bot : float;
  z_top : float
}.

(** The loop of [calculate_layer_stack] from the bottom [z] on. *)
Fixpoint stack_from (z : float) (ply_angles : list Z) (ply_thk : float)
  : option (list StackLayer) :=
  match ply_angles with
  | [] => Some []
  | a :: rest =>
      match float_of_int a with
      | None => None
      | Some fa =>
          match stack_from (fadd z ply_thk) rest ply_thk with
          | None => None
          | Some layers =>
              Some ({| type := "ply"; thk := ply_thk; ang := fa;
                       z_mid := fadd z (fmul half ply_thk);
                       z_bot := z; z_top := fadd z ply_thk |} :: layers)
          end
      end
  end.

Definition calculate_layer_stack (ply_angles : list Z) (ply_thk coh_thk : float)
  : option (list StackLayer) :=
  stack_from (S754_zero false) ply_angles ply_thk.

(** Each layer ends where the next one starts. *)
Fixpoint contiguous (layers : list StackLayer) : Prop :=
  match layers with
  | l1 :: ((l2 :: _) as rest) => z_top l1 = z_bot l2 /\ contiguous rest
  | _ => True
  end.

End Geometry.

(** ** The logger ([utils/logger.py]) *)

Module Logger.

(** The files written so far: for each path the messages written to it, in
    order; every message is written followed by a newline and flushed.
    Opening a file for writing is taken to succeed. *)
Definition fs : Type := list (string * list string).

Fixpoint read (path : string) (files : fs) : option (list string) :=
  match files with
  | [] => None
  | (p, content) :: rest =>
      if String.eqb p path then Some content else read path rest
  end.

(** [open(path, "w")]: the file is created, or emptied. *)
Definition open_w (path : string) (files : fs) : fs := (path, []) :: files.

(** [file.write(message + "\n")] on the file at [path]. *)
Fixpoint write (path message : string) (files : fs) : fs :=
  match files with
  | [] => [(path, [message])]
  | (p, content) :: rest =>
      if String.eqb p path then (p, content ++ [message]) :: rest
      else (p, content) :: write path message rest
  end.

(** A [Logger] object: its path and whether its file is closed. *)
Record t : Type := { log_path : string; closed : bool }.

(** ["=" * 70] *)
Definition bar : string :=
  "======================================================================".

(** [Logger.log]; writing to a closed file raises ([None]). *)
Definition log (self : t) (message : string) (files : fs) : option fs :=
  if closed self then None else Some (write (log_path self) message files).

Fixpoint log_all (self : t) (messages : list string) (files : fs)
  : option fs :=
  match messages with
  | [] => Some files
  | m :: rest =>
      match log self m files with
      | Some files' => log_all self rest files'
      | None => None
      end
  end.

(** [Logger.section] *)
Definition section (self : t) (title : string) (files : fs) : option fs :=
  log_all self [EmptyString; bar; title; bar] files.

Definition header (started : string) : list string :=
  [bar; "SIMULATION LOG"; String.append "Started: " started; bar; EmptyString].

Definition footer (ended : string) : list string :=
  [EmptyString; bar; String.append "Log ended: " ended; bar].

(** [Logger.__init__]; [started] is the time stamp it formats. *)
Definition new (join : string -> string -> string)
  (log_dir log_filename started : string) (files : fs) : option (t * fs) :=
  let self := {| log_path := join log_dir log_filename; closed := false |} in
  match log_all self (header started) (open_w (log_path self) files) with
  | Some files' => Some (self, files')
  | None => None
  end.

(** [Logger.close]; [ended] is the time stamp it formats. *)
Definition close (self : t) (ended : string) (files : fs) : option (t * fs) :=
  if negb (closed self) then
    match log_all self (footer ended) files with
    | Some files' =>
        Some ({| log_path := log_path self; closed := true |}, files')
    | None => None
    end
  else Some (self, files).

(** The files and the global [_logger]. *)
Record world : Type := { files : fs; _logger : option t }.

(** [init_logger] *)
Definition init_logger (join : string -> string -> string)
  (log_dir log_filename ended started : string) (w : world) : option world :=
  match
    match _logger w with
    | Some old =>
        match close old ended (files w) with
        | Some (_, files') => Some files'
        | None => None
        end
    | None => Some (files w)
    end
  with
  | Some files1 =>
      match new join log_dir log_filename started files1 with
      | Some (self, files2) => Some {| files := files2; _logger := Some self |}
      | None => None
      end
  | None => None
  end.

(** [log_func] *)
Definition log_func (message : string) (w : world) : option world :=
  match _logger w with
  | Some self =>
      match log self message (files w) with
      | Some files' => Some {| files := files'; _logger := Some self |}
      | None => None
      end
  | None => Some w
  end.

(** [log_section] *)
Definition log_section (title : string) (w : world) : option world :=
  match _logger w with
  | Some self =>
      match section self title (files w) with
      | Some files' => Some {| files := files'; _logger := Some self |}
      | None => None
      end
  | None => Some w
  end.

(** [close_logger] *)
Definition close_logger (ended : string) (w : world) : option world :=
  match _logger w with
  | Some self =>
      match close self ended (files w) with
      | Some (_, files') => Some {| files := files'; _logger := None |}
      | None => None
      end
  | None => Some w
  end.

(** A call of the module. *)
Inductive call : Type :=
| InitLogger (log_dir log_filename ended started : string)
| LogFunc (message : string)
| LogSection (title : string)
| CloseLogger (ended : string).

Definition run_call (join : string -> string -> string) (c : call) (w : world)
  : option world :=
  match c with
  | InitLogger d f e s => init_logger join d f e s w
  | LogFunc m => log_func m w
  | LogSection t => log_section t w
  | CloseLogger e => close_logger e w
  end.

Fixpoint run (join : string -> string -> string) (cs : list call) (w : world)
  : option world :=
  match cs with
  | [] => Some w
  | c :: rest =>
      match run_call join c w with
      | Some w' => run join rest w'
      | None => None
      end
  end.

(** The logger, if any, is open and its file is there. *)
Definition well_formed (w : world) : Prop :=
  match _logger w with
  | Some self => closed self = false /\ read (log_path self) (files w) <> None
  | None => True
  end.

End Logger.

(** [os.path.join] with "/" for the examples. *)
Definition join_slash (a b : string) : string :=
  String.append a (String.append "/" b).

(** ** The parameter combinations ([study_generator/generator.py]) *)

Module Generator.

(** A value read from a JSON file; a dict keeps its items in order. *)
Inductive json : Type :=
| JNull
| JBool (b : bool)
| JInt (z : Z)
| JFloat (x : float)
| JStr (s : string)
| JList (l : list json)
| JDict (d : list (string * json)).

(** [d[k]]; [None] stands for [KeyError]. *)
Fixpoint get (k : string) (d : list (string * json)) : option json :=
  match d with
  | [] => None
  | (k', v) :: rest => if String.eqb k' k then Some v else get k rest
  end.

(** [d[k] = v] *)
Fixpoint set_item (k : string) (v : json) (d : list (string * json))
  : list (string * json) :=
  match d with
  | [] => [(k, v)]
  | (k', v') :: rest =>
      if String.eqb k' k then (k, v) :: rest else (k', v') :: set_item k v rest
  end.

(** [param_data["values"]]; subscripting anything but a dict with a string
    raises. *)
Definition values_of (param_data : json) : option json :=
  match param_data with
  | JDict d => get "values" d
  | _ => None
  end.

Fixpoint chars (s : string) : list json :=
  match s with
  | EmptyString => []
  | String c s' => JStr (String c EmptyString) :: chars s'
  end.

(** What iterating over a value yields: the elements of a list, the
    characters of a string, the keys of a dict; the other values are not
    iterable. *)
Definition iterate (v : json) : option (list json) :=
  match v with
  | JList l => Some l
  | JStr s => Some (chars s)
  | JDict d => Some (map (fun kv => JStr (fst kv)) d)
  | _ => None
  end.

Fixpoint all_some {A} (xs : list (option A)) : option (list A) :=
  match xs with
  | [] => Some []
  | Some x :: rest =>
      match all_some rest with
      | Some l => Some (x :: l)
      | None => None
      end
  | None :: _ => None
  end.

(** [itertools.product] of the lists: the last list varies fastest. *)
Fixpoint product (lists : list (list json)) : list (list json) :=
  match lists with
  | [] => [[]]
  | l :: rest => flat_map (fun x => map (cons x) (product rest)) l
  end.

(** The dict filled by [param_set[name] = value] over [zip(names, combo)]. *)
Definition param_set (names : list string) (combo : list json)
  : list (string * json) :=
  fold_left (fun d kv => set_item (fst kv) (snd kv) d) (combine names combo) [].

(** [generate_parameter_combinations]; [parameters] are the items of the
    dict, [None] stands for an exception. *)
Definition generate_parameter_combinations
  (parameters : list (string * json)) : option (list (list (string * json))) :=
  let param_names := map fst parameters in
  match all_some (map (fun p => values_of (snd p)) parameters) with
  | None => None
  | Some param_values =>
      match all_some (map iterate param_values) with
      | None => None
      | Some lists => Some (map (param_set param_names) (product lists))
      end
  end.

(** The parameter [p] is a dict whose ["values"] is the list [l]. *)
Definition has_values (p : string * json) (l : list json) : Prop :=
  exists d, snd p = JDict d /\ get "values" d = Some (JList l).

(** A parameter definition with the given values. *)
Definition param (name : string) (values : list json) : string * json :=
  (name, JDict [("values", JList values)]).

End Generator.

(** * Properties *)

(** ** The string primitives on examples *)

Example strip_ex : Py.strip "   12  3.0E+01 " = "12  3.0E+01".
Proof. reflexivity. Qed.
Example split_ex : Py.split " a  bc d" = ["a"; "bc"; "d"].
Proof. reflexivity. Qed.
Example contains_ex : Py.contains "E+" "1.0E+01" = true /\ Py.contains "E-" "1.0E+01" = false.
Proof. split; reflexivity. Qed.

(** ** Stripping keeps what a line contains *)

Lemma contains_empty sub :
  Py.contains sub EmptyString = true -> sub = EmptyString.
Proof. destruct sub; [reflexivity|discriminate]. Qed.

Lemma contains_unfold sub s :
  Py.contains sub s =
  prefix sub s ||
  match s with
  | EmptyString => false
  | String _ s' => Py.contains sub s'
  end.
Proof. destruct s; reflexivity. Qed.

Lemma contains_lstrip sub s :
  starts_nonspace sub = true ->
  Py.contains sub s = true -> Py.contains sub (Py.lstrip s) = true.
Proof.
  intros Hsub. induction s as [|c s IH]; [auto|].
  simpl Py.lstrip. destruct (Py.isspace c) eqn:Hc; [|auto].
  intros H. apply IH. simpl in H.
  destruct sub as [|c0 sub']; [discriminate|]. simpl in Hsub, H.
  destruct (ascii_dec c0 c) as [->|_].
  - rewrite Hc in Hsub. discriminate.
  - destruct s; exact H.
Qed.

Lemma rstrip_cons c s :
  Py.rstrip s <> EmptyString ->
  Py.rstrip (String c s) = String c (Py.rstrip s).
Proof. simpl. destruct (Py.rstrip s); [congruence|reflexivity]. Qed.

Lemma prefix_rstrip sub : forall s,
  ends_nonspace sub = true ->
  prefix sub s = true -> prefix sub (Py.rstrip s) = true.
Proof.
  induction sub as [|c0 sub' IH]; intros s Hsub H; [discriminate|].
  destruct s as [|c s]; [discriminate|]. simpl in H.
  destruct (ascii_dec c0 c) as [->|]; [|discriminate].
  destruct sub' as [|c1 sub''].
  - simpl in Hsub. simpl. destruct (Py.rstrip s).
    + destruct (Py.isspace c); [discriminate|]. simpl.
      destruct (ascii_dec c c); congruence.
    + simpl. destruct (ascii_dec c c); congruence.
  - assert (prefix (String c1 sub'') (Py.rstrip s) = true) as Hp
      by (apply IH; assumption).
    rewrite rstrip_cons by (intros E; rewrite E in Hp; discriminate).
    simpl. destruct (ascii_dec c c); [exact Hp|congruence].
Qed.

Lemma contains_rstrip sub s :
  ends_nonspace sub = true ->
  Py.contains sub s = true -> Py.contains sub (Py.rstrip s) = true.
Proof.
  intros Hsub. induction s as [|c s IH]; intros H.
  - apply contains_empty in H. subst. discriminate.
  - change (Py.contains sub (String c s))
      with (prefix sub (String c s) || Py.contains sub s) in H.
    apply orb_true_iff in H. destruct H as [H|H].
    + apply (prefix_rstrip _ _ Hsub) in H.
      rewrite contains_unfold, H. reflexivity.
    + specialize (IH H).
      rewrite rstrip_cons
        by (intros E; rewrite E in IH; apply contains_empty in IH; subst;
            discriminate).
      rewrite contains_unfold, IH. apply orb_true_r.
Qed.

Lemma contains_strip sub s :
  starts_nonspace sub = true -> ends_nonspace sub = true ->
  Py.contains sub s = true -> Py.contains sub (Py.strip s) = true.
Proof.
  intros H1 H2 H. unfold Py.strip.
  apply contains_rstrip; [exact H2|]. apply contains_lstrip; assumption.
Qed.

Lemma contains_tail sub c s :
  Py.contains sub s = true -> Py.contains sub (String c s) = true.
Proof. intros H. rewrite contains_unfold, H. apply orb_true_r. Qed.

Lemma contains_lstrip_inv sub s :
  Py.contains sub (Py.lstrip s) = true -> Py.contains sub s = true.
Proof.
  induction s as [|c s IH]; [auto|]. simpl Py.lstrip.
  destruct (Py.isspace c); [|auto].
  intros H. apply contains_tail. auto.
Qed.

Lemma prefix_rstrip_inv sub : forall s,
  prefix sub (Py.rstrip s) = true -> prefix sub s = true.
Proof.
  induction sub as [|c0 sub' IH]; intros s H; [destruct s; reflexivity|].
  destruct s as [|c s]; [discriminate|].
  simpl Py.rstrip in H. destruct (Py.rstrip s) as [|c1 r] eqn:Er.
  - destruct (Py.isspace c); [discriminate|]. simpl in *.
    destruct (ascii_dec c0 c); [|discriminate].
    destruct sub'; [destruct s; reflexivity|discriminate].
  - simpl in H. simpl. destruct (ascii_dec c0 c); [|discriminate].
    apply IH. rewrite Er. exact H.
Qed.

Lemma contains_rstrip_inv sub s :
  Py.contains sub (Py.rstrip s) = true -> Py.contains sub s = true.
Proof.
  induction s as [|c s IH]; [auto|]. intros H.
  rewrite contains_unfold in H. apply orb_true_iff in H.
  destruct H as [H|H].
  - apply prefix_rstrip_inv in H. rewrite contains_unfold, H. reflexivity.
  - apply contains_tail. apply IH.
    simpl Py.rstrip in H. destruct (Py.rstrip s) as [|c1 r] eqn:Er.
    + destruct (Py.isspace c); [discriminate|].
      apply contains_empty in H. subst. reflexivity.
    + exact H.
Qed.

(** A marker without whitespace at its ends is in the stripped line exactly
    when it is in the line. *)
Lemma contains_strip_eq sub s :
  starts_nonspace sub = true -> ends_nonspace sub = true ->
  Py.contains sub (Py.strip s) = Py.contains sub s.
Proof.
  intros H1 H2. destruct (Py.contains sub s) eqn:E.
  - apply contains_strip; assumption.
  - destruct (Py.contains sub (Py.strip s)) eqn:E'; [|reflexivity].
    unfold Py.strip in E'.
    apply contains_rstrip_inv, contains_lstrip_inv in E'. congruence.
Qed.

(** ** Order on floats *)

Ltac cmp_cases :=
  repeat match goal with
  | |- context [Pos.compare_cont Eq ?a ?b] =>
      change (Pos.compare_cont Eq a b) with (Pos.compare a b)
  | H : context [Pos.compare_cont Eq ?a ?b] |- _ =>
      change (Pos.compare_cont Eq a b) with (Pos.compare a b) in H
  end;
  repeat match goal with
  | H : context [Z.compare ?a ?b] |- _ =>
      destruct (Z.compare_spec a b); simpl in H
  | |- context [Z.compare ?a ?b] => destruct (Z.compare_spec a b); simpl
  | H : context [Pos.compare ?a ?b] |- _ =>
      destruct (Pos.compare_spec a b); simpl in H
  | |- context [Pos.compare ?a ?b] => destruct (Pos.compare_spec a b); simpl
  end;
  subst; try discriminate; try reflexivity; try lia.

Lemma flt_irrefl x : flt x x = false.
Proof.
  unfold flt, SFltb.
  destruct x as [s|s| |s m e]; try destruct s; simpl; cmp_cases.
Qed.

Lemma fgt_flt x y : fgt x y = flt y x.
Proof.
  unfold fgt, flt, SFltb.
  destruct x as [s|s| |s m e], y as [s'|s'| |s' m' e'];
    try destruct s; try destruct s'; simpl; cmp_cases.
Qed.

Lemma flt_trans x y z : flt x y = true -> flt y z = true -> flt x z = true.
Proof.
  unfold flt, SFltb.
  destruct x as [s|s| |s m e], y as [s'|s'| |s' m' e'],
    z as [s''|s''| |s'' m'' e''];
    try destruct s; try destruct s'; try destruct s''; simpl; intros H1 H2;
    try discriminate; try reflexivity; cmp_cases.
Qed.

Lemma flt_total x y :
  is_nan x = false -> is_nan y = false -> flt x y = false -> SFleb y x = true.
Proof.
  unfold flt, SFltb, SFleb.
  destruct x as [s|s| |s m e], y as [s'|s'| |s' m' e'];
    try destruct s; try destruct s'; simpl; intros H1 H2 H3;
    try discriminate; try reflexivity; cmp_cases.
Qed.

Lemma fle_not_flt x y : SFleb x y = true -> flt y x = false.
Proof.
  unfold flt, SFltb, SFleb.
  destruct x as [s|s| |s m e], y as [s'|s'| |s' m' e'];
    try destruct s; try destruct s'; simpl; intros H1;
    try discriminate; try reflexivity; cmp_cases.
Qed.

(** ** One step of the tracker *)


Lemma track_ke_step k x : 
  let '(out, k', stop) := track_ke k x in ke_step k x out k' stop.
Proof.
  unfold track_ke, _check_ke_minimum.
  destruct (previous_ke k) as [p|] eqn:Hp.
  - destruct (min_ke k) as [m|] eqn:Hm.
    + destruct (flt x m) eqn:Hxm.
      * eapply step_new_minimum; eauto.
      * rewrite fgt_flt. destruct (flt p x) eqn:Hpx.
        -- destruct (3 <=? ke_increasing_count k + 1) eqn:Hc.
           ++ eapply step_stop; eauto. lia.
           ++ eapply step_increase; eauto. lia.
        -- eapply step_reset; eauto.
    + eapply step_new_minimum; eauto.
  - apply step_first. assumption.
Qed.

(** ** Feeding a sequence *)

Lemma feed_cons k x rest :
  feed k (x :: rest) =
  let '(_, k', should_exit) := track_ke k x in
  if should_exit then (k', Some 1%nat)
  else let '(k'', r) := feed k' rest in (k'', option_map S r).
Proof. reflexivity. Qed.

Lemma feed_app k xs ys :
  feed k (xs ++ ys) =
  match feed k xs with
  | (k', Some n) => (k', Some n)
  | (k', None) =>
      let '(k'', r) := feed k' ys in
      (k'', option_map (Nat.add (List.length xs)) r)
  end.
Proof.
  revert k. induction xs as [|x xs IH]; intros k.
  - simpl. destruct (feed k ys) as [k'' [n|]]; reflexivity.
  - rewrite <- app_comm_cons, !feed_cons.
    destruct (track_ke k x) as [[out k1] [|]]; [reflexivity|].
    rewrite IH. destruct (feed k1 xs) as [k2 [n|]]; [reflexivity|].
    destruct (feed k2 ys) as [k3 [n|]]; reflexivity.
Qed.

(** A stop at position [n] splits the samples at the one that stopped. *)
Lemma feed_stop_split k xs k' n :
  feed k xs = (k', Some n) ->
  exists pre x post k0 out,
    xs = pre ++ x :: post /\ n = S (List.length pre) /\
    feed k pre = (k0, None) /\ track_ke k0 x = (out, k', true).
Proof.
  revert k n. induction xs as [|x xs IH]; intros k n H; [discriminate|].
  rewrite feed_cons in H.
  destruct (track_ke k x) as [[out k1] [|]] eqn:E.
  - inversion H; subst. exists [], x, xs, k, out. repeat split; auto.
  - destruct (feed k1 xs) as [k2 [m|]] eqn:F; [|discriminate].
    inversion H; subst.
    destruct (IH _ _ F) as (pre & y & post & k0 & out' & -> & -> & Hf & Ht).
    exists (x :: pre), y, post, k0, out'. repeat split; auto.
    rewrite feed_cons, E, Hf. reflexivity.
Qed.

Lemma feed_stop_bound k xs k' n :
  feed k xs = (k', Some n) -> (1 <= n <= List.length xs)%nat.
Proof.
  intros H. apply feed_stop_split in H.
  destruct H as (pre & x & post & k0 & out & -> & -> & _).
  rewrite length_app. simpl. lia.
Qed.

Lemma processed_bound k xs :
  (processed (snd (feed k xs)) xs <= List.length xs)%nat.
Proof.
  destruct (feed k xs) as [k' [n|]] eqn:E; simpl; [|lia].
  apply feed_stop_bound in E. lia.
Qed.

(** ** The minimum *)


Lemma min_after_cons m x xs :
  min_after (min_after m [x]) xs = min_after m (x :: xs).
Proof. destruct m; reflexivity. Qed.

Lemma track_ke_min k x p :
  previous_ke k = Some p ->
  min_ke (snd (fst (track_ke k x))) = min_after (min_ke k) [x] /\
  previous_ke (snd (fst (track_ke k x))) =
    Some (if snd (track_ke k x) then p else x).
Proof.
  intros Hp. pose proof (track_ke_step k x) as Hs.
  destruct (track_ke k x) as [[out k1] stop]. simpl.
  inversion Hs as [Hn | q Hq [Hm | (m & Hm & Hlt)] | q m Hq Hm Hlt
                  | q m Hq Hm Hlt | q m Hq Hm Hlt]; subst; simpl;
    rewrite ?Hm; simpl; rewrite ?Hlt; try (split; congruence).
Qed.

Lemma feed_min xs : forall k p,
  previous_ke k = Some p ->
  min_ke (fst (feed k xs)) =
  min_after (min_ke k) (firstn (processed (snd (feed k xs)) xs) xs).
Proof.
  induction xs as [|x xs IH]; intros k p Hp.
  - simpl. destruct (min_ke k); reflexivity.
  - rewrite feed_cons.
    destruct (track_ke_min k x p Hp) as [Hmin Hprev].
    destruct (track_ke k x) as [[out k1] [|]]; simpl in *.
    + rewrite Hmin. reflexivity.
    + specialize (IH k1 x Hprev).
      destruct (feed k1 xs) as [k2 r]. simpl in *.
      replace (processed (option_map S r) (x :: xs))
        with (S (processed r xs)) by (destruct r; reflexivity).
      rewrite IH, Hmin. apply min_after_cons.
Qed.

(** From the initial locals the first sample only seeds [previous_ke]. *)
Lemma feed_initial_cons x xs :
  feed initial_ke (x :: xs) =
  let '(k, r) :=
    feed {| previous_ke := Some x; min_ke := None; ke_increasing_count := 0 |}
      xs in
  (k, option_map S r).
Proof. reflexivity. Qed.

Lemma feed_initial_min xs :
  min_ke (fst (feed initial_ke xs)) =
  py_min (skipn 1 (firstn (processed (snd (feed initial_ke xs)) xs) xs)).
Proof.
  destruct xs as [|x xs]; [reflexivity|].
  rewrite feed_initial_cons.
  pose proof (feed_min xs
    {| previous_ke := Some x; min_ke := None; ke_increasing_count := 0 |}
    x eq_refl) as H.
  destruct (feed _ xs) as [k r]. simpl in *.
  replace (processed (option_map S r) (x :: xs))
    with (S (processed r xs)) by (destruct r; reflexivity).
  simpl. exact H.
Qed.

(** [min_from] returns one of its arguments, and nothing it saw is strictly
    below the result. *)
Lemma min_from_in xs : forall m, min_from m xs = m \/ In (min_from m xs) xs.
Proof.
  induction xs as [|x xs IH]; intros m; simpl; [auto|].
  destruct (IH (if flt x m then x else m)) as [H|H]; [|auto].
  rewrite H. destruct (flt x m); auto.
Qed.

Lemma min_from_keeps_bound xs : forall m y,
  flt y m = false -> flt y (min_from m xs) = false.
Proof.
  induction xs as [|x xs IH]; intros m y H; simpl; [exact H|].
  apply IH. destruct (flt x m) eqn:E; [|exact H].
  destruct (flt y x) eqn:E'; [|reflexivity].
  rewrite (flt_trans _ _ _ E' E) in H. discriminate.
Qed.

Lemma min_from_lower xs : forall m y,
  y = m \/ In y xs -> flt y (min_from m xs) = false.
Proof.
  induction xs as [|x xs IH]; intros m y [->|Hin]; simpl.
  - apply flt_irrefl.
  - destruct Hin.
  - apply min_from_keeps_bound. destruct (flt x m) eqn:E.
    + destruct (flt m x) eqn:E'; [|reflexivity].
      pose proof (flt_trans _ _ _ E E') as F. rewrite flt_irrefl in F.
      discriminate.
    + apply flt_irrefl.
  - destruct Hin as [->|Hin].
    + apply min_from_keeps_bound. destruct (flt y m) eqn:E; [apply flt_irrefl|exact E].
    + apply IH. auto.
Qed.

(** The value of [py_min] is an element of the list that no element is
    strictly below; without NaN it is below or equal to every element. *)
Lemma py_min_spec xs m :
  py_min xs = Some m ->
  In m xs /\
  forall y, In y xs ->
    flt y m = false /\
    (is_nan y = false -> is_nan m = false -> SFleb m y = true).
Proof.
  destruct xs as [|x xs]; [discriminate|]. simpl. intros [= <-]. split.
  - destruct (min_from_in xs x) as [->|H]; auto.
  - intros y Hy.
    assert (flt y (min_from x xs) = false) as Hlow
      by (apply min_from_lower; destruct Hy; auto).
    split; [exact Hlow|]. intros Hy' Hm. apply flt_total; assumption.
Qed.

(** ** The streak *)


Lemma feed_one k x :
  feed k [x] =
  (snd (fst (track_ke k x)), if snd (track_ke k x) then Some 1%nat else None).
Proof.
  rewrite feed_cons. destruct (track_ke k x) as [[out k1] [|]]; reflexivity.
Qed.

Lemma feed_snoc_none k ys x k' :
  feed k (ys ++ [x]) = (k', None) ->
  exists k0 out, feed k ys = (k0, None) /\ track_ke k0 x = (out, k', false).
Proof.
  rewrite feed_app. destruct (feed k ys) as [k0 [n|]]; [discriminate|].
  rewrite feed_one. destruct (track_ke k0 x) as [[out k1] [|]] eqn:E; simpl;
    [discriminate|].
  intros [= <-]. eauto.
Qed.

Lemma feed_streak_inv ys : forall k,
  ys <> [] -> feed initial_ke ys = (k, None) -> streak_inv ys k.
Proof.
  induction ys as [|x ys IH] using rev_ind; intros k Hne H; [congruence|].
  destruct ys as [|y ys0].
  - simpl in H. inversion H; subst. exists [], x. simpl. auto.
  - remember (y :: ys0) as ys eqn:Eys.
    assert (ys <> []) as Hys by (subst; discriminate).
    apply feed_snoc_none in H. destruct H as (k0 & out & Hf & Ht).
    specialize (IH k0 Hys Hf).
    destruct IH as (ys' & p & Hsplit & Hp & Hinv).
    pose proof (track_ke_step k0 x) as Hs. rewrite Ht in Hs.
    exists ys, x. split; [reflexivity|].
    inversion Hs as [Hn | q Hq Hmin | q m Hq Hm Hlt Hpx Hc
                    | | q m Hq Hm Hlt Hpx]; subst k; simpl.
    + congruence.
    + split; [reflexivity|]. split; [exact Hys|].
      split; [apply flt_irrefl|]. left. reflexivity.
    + split; [reflexivity|]. split; [exact Hys|]. split; [exact Hlt|].
      rewrite Hm in Hinv. destruct Hinv as (Hne' & Hpm & Hcount).
      assert (q = p) by congruence. subst q.
      destruct Hcount as [Hc0 | [(Hc1 & pre & a & Hpre & Hpne & Hap)
                                | (Hc2 & _)]].
      * right. left. split; [lia|]. exists ys', p. rewrite Hsplit. auto.
      * right. right. split; [lia|]. exists pre, a, p.
        rewrite Hsplit, Hpre, <- app_assoc. simpl. auto.
      * lia.
    + split; [reflexivity|]. split; [exact Hys|]. split; [exact Hlt|].
      left. reflexivity.
Qed.

(** A strict increase over the previous sample, once a minimum is known, is
    counted: it either stops the session or extends the streak. *)
Lemma rise_step k x p m :
  previous_ke k = Some p -> min_ke k = Some m -> flt p m = false ->
  flt p x = true ->
  (snd (track_ke k x) = true /\ 2 <= ke_increasing_count k) \/
  (snd (track_ke k x) = false /\
   previous_ke (snd (fst (track_ke k x))) = Some x /\
   min_ke (snd (fst (track_ke k x))) = Some m /\ flt x m = false /\
   ke_increasing_count (snd (fst (track_ke k x))) = ke_increasing_count k + 1 /\
   ke_increasing_count k + 1 < 3).
Proof.
  intros Hp Hm Hpm Hpx.
  pose proof (track_ke_step k x) as Hs.
  destruct (track_ke k x) as [[out k1] stop]. simpl.
  inversion Hs as [Hn | q Hq [Hmin | (m' & Hm' & Hlt)] | q m' Hq Hm' Hlt Hqx Hc
                  | q m' Hq Hm' Hlt Hqx Hc | q m' Hq Hm' Hlt Hqx]; subst;
    simpl; try congruence.
  - assert (m' = m) by congruence. subst m'.
    rewrite (flt_trans _ _ _ Hpx Hlt) in Hpm. discriminate.
  - right. assert (m' = m) by congruence. subst. repeat split; auto.
  - left. split; [reflexivity|lia].
Qed.

Lemma streak_inv_count ys k :
  streak_inv ys k -> 0 <= ke_increasing_count k <= 2.
Proof.
  intros (ys' & p & _ & _ & H). destruct (min_ke k); [|lia].
  destruct H as (_ & _ & [H | [[H _] | [H _]]]); lia.
Qed.

Lemma feed_nil_initial k : feed initial_ke [] = (k, None) -> previous_ke k = None.
Proof. intros [= <-]. reflexivity. Qed.

(** A stop is always the end of three consecutive strict increases. *)
Lemma stop_gives_three_rises xs n :
  snd (feed initial_ke xs) = Some n -> three_rises_at xs n.
Proof.
  destruct (feed initial_ke xs) as [k' r] eqn:F. simpl. intros ->.
  apply feed_stop_split in F.
  destruct F as (ys & x & post & k0 & out & -> & -> & Hf & Ht).
  pose proof (track_ke_step k0 x) as Hs. rewrite Ht in Hs.
  inversion Hs as [ | | | q m Hq Hm Hlt Hqx Hc | ]; subst.
  assert (ys <> []) as Hne.
  { intros ->. apply feed_nil_initial in Hf. congruence. }
  pose proof (feed_streak_inv ys k0 Hne Hf) as Hinv.
  pose proof (streak_inv_count _ _ Hinv) as Hcount.
  destruct Hinv as (ys' & p & Hsplit & Hp & Hinv). rewrite Hm in Hinv.
  assert (q = p) by congruence. subst q.
  destruct Hinv as (_ & _ & [H | [[H _] | (_ & pre & a & b & Hpre & Hpne & Hab & Hbp)]]);
    try lia.
  exists pre, a, b, p, x, post. subst ys ys'.
  rewrite length_app, length_app. simpl.
  repeat split; auto; try lia.
  rewrite <- !app_assoc. reflexivity.
Qed.

Lemma feed_cons_stop k x rest :
  snd (track_ke k x) = true ->
  feed k (x :: rest) = (snd (fst (track_ke k x)), Some 1%nat).
Proof.
  rewrite feed_cons. destruct (track_ke k x) as [[o k1] s]. simpl.
  intros ->. reflexivity.
Qed.

Lemma feed_cons_continue k x rest :
  snd (track_ke k x) = false ->
  feed k (x :: rest) =
  (fst (feed (snd (fst (track_ke k x))) rest),
   option_map S (snd (feed (snd (fst (track_ke k x))) rest))).
Proof.
  rewrite feed_cons. destruct (track_ke k x) as [[o k1] s]. simpl.
  intros ->. destruct (feed k1 rest). reflexivity.
Qed.

Lemma three_rises k a b c d post m :
  previous_ke k = Some a -> min_ke k = Some m -> flt a m = false ->
  0 <= ke_increasing_count k ->
  flt a b = true -> flt b c = true -> flt c d = true ->
  exists n, snd (feed k (b :: c :: d :: post)) = Some n /\ (n <= 3)%nat.
Proof.
  intros Hp Hm Ham Hc Hab Hbc Hcd.
  destruct (rise_step k b a m Hp Hm Ham Hab)
    as [[Hs _] | (Hs & Hp1 & Hm1 & Hbm & Hc1 & _)].
  { rewrite (feed_cons_stop _ _ _ Hs). exists 1%nat. split; [reflexivity|lia]. }
  rewrite (feed_cons_continue _ _ _ Hs).
  set (k1 := snd (fst (track_ke k b))) in *.
  destruct (rise_step k1 c b m Hp1 Hm1 Hbm Hbc)
    as [[Hs' _] | (Hs' & Hp2 & Hm2 & Hcm & Hc2 & _)].
  { rewrite (feed_cons_stop _ _ _ Hs'). exists 2%nat. split; [reflexivity|lia]. }
  rewrite (feed_cons_continue _ _ _ Hs').
  set (k2 := snd (fst (track_ke k1 c))) in *.
  destruct (rise_step k2 d c m Hp2 Hm2 Hcm Hcd)
    as [[Hs'' _] | (_ & _ & _ & _ & _ & Hlt)]; [|lia].
  rewrite (feed_cons_stop _ _ _ Hs''). exists 3%nat. split; [reflexivity|lia].
Qed.

(** Three consecutive strict increases stop the session, at the latest on
    the sample that completes them. *)
Lemma three_rises_stop xs n :
  three_rises_at xs n ->
  exists n', snd (feed initial_ke xs) = Some n' /\ (n' <= n)%nat.
Proof.
  intros (pre & a & b & c & d & post & -> & Hne & -> & Hab & Hbc & Hcd).
  replace (pre ++ [a; b; c; d] ++ post)
    with ((pre ++ [a]) ++ b :: c :: d :: post)
    by (rewrite <- app_assoc; reflexivity).
  rewrite feed_app.
  destruct (feed initial_ke (pre ++ [a])) as [k0 [n1|]] eqn:F.
  - exists n1. split; [reflexivity|].
    apply feed_stop_bound in F. rewrite length_app in F. simpl in F. lia.
  - assert (pre ++ [a] <> []) as Hne' by (destruct pre; discriminate).
    pose proof (feed_streak_inv _ _ Hne' F) as Hinv.
    pose proof (streak_inv_count _ _ Hinv) as Hcount.
    destruct Hinv as (ys' & p & Hsplit & Hp & Hinv).
    apply app_inj_tail in Hsplit. destruct Hsplit as [<- <-].
    destruct (min_ke k0) as [m|] eqn:Hm; [|destruct Hinv; contradiction].
    destruct Hinv as (_ & Ham & _).
    destruct (three_rises k0 a b c d post m Hp Hm Ham (proj1 Hcount) Hab Hbc Hcd)
      as (n2 & Hn2 & Hle).
    destruct (feed k0 (b :: c :: d :: post)) as [k1 r]. simpl in Hn2. subst r.
    exists (List.length (pre ++ [a]) + n2)%nat. split; [reflexivity|].
    rewrite length_app. simpl. lia.
Qed.

Lemma stop_iff_first_three_rises xs n :
  snd (feed initial_ke xs) = Some n <->
  three_rises_at xs n /\ forall n', three_rises_at xs n' -> (n <= n')%nat.
Proof.
  split.
  - intros H. split; [apply stop_gives_three_rises; exact H|].
    intros n' H'. apply three_rises_stop in H'.
    destruct H' as (n'' & H'' & Hle). congruence.
  - intros [H Hmin]. destruct (three_rises_stop _ _ H) as (n'' & H'' & Hle).
    pose proof (Hmin _ (stop_gives_three_rises _ _ H'')) as Hge.
    assert (n'' = n) by lia. congruence.
Qed.

(** An increase over a predecessor that was itself tracked is never a new
    minimum, so it is counted. *)
Lemma rise_not_new_minimum before p x :
  before <> [] -> flt p x = true -> new_minimum (before ++ [p]) x = false.
Proof.
  intros Hne Hpx. unfold new_minimum.
  destruct before as [|b0 before]; [congruence|]. simpl skipn.
  destruct (py_min (before ++ [p])) as [m|] eqn:E.
  - destruct (py_min_spec _ _ E) as [_ Hlow].
    assert (In p (before ++ [p])) as Hin
      by (apply in_or_app; right; left; reflexivity).
    destruct (Hlow p Hin) as [Hpm _].
    destruct (flt x m) eqn:Hxm; [|reflexivity].
    rewrite (flt_trans _ _ _ Hpx Hxm) in Hpm. discriminate.
  - destruct before; discriminate.
Qed.

Lemma counted_rise_iff before p x :
  counted_rise before p x = true <-> before <> [] /\ flt p x = true.
Proof.
  unfold counted_rise. rewrite andb_true_iff, negb_true_iff. split.
  - intros [Hpx Hnew]. split; [|exact Hpx].
    intros ->. discriminate.
  - intros [Hne Hpx]. split; [exact Hpx|].
    apply rise_not_new_minimum; assumption.
Qed.

Lemma third_rise_iff xs n : third_rise xs n <-> three_rises_at xs n.
Proof.
  split.
  - intros (pre & a & b & c & d & post & Hxs & Hn & H1 & H2 & H3).
    apply counted_rise_iff in H1, H2, H3.
    exists pre, a, b, c, d, post. tauto.
  - intros (pre & a & b & c & d & post & Hxs & Hne & Hn & H1 & H2 & H3).
    exists pre, a, b, c, d, post.
    rewrite !counted_rise_iff. repeat split; auto.
    + destruct pre; discriminate.
    + destruct pre; discriminate.
Qed.

(** ** One line *)

Section Monitor.
Context {B : Builtins}.

Lemma completion_success line :
  Py.contains success_marker line = true ->
  _check_completion_status line = ([LogCompleted], (true, true)).
Proof.
  unfold _check_completion_status, success_marker. intros ->. reflexivity.
Qed.

Lemma completion_failure line :
  Py.contains success_marker line = false ->
  Py.contains aborted_marker line || Py.contains terminated_marker line = true ->
  _check_completion_status line = ([LogNotCompleted], (true, false)).
Proof.
  unfold _check_completion_status, success_marker, aborted_marker,
    terminated_marker.
  intros -> ->. reflexivity.
Qed.

Lemma completion_none line :
  Py.contains success_marker line = false ->
  Py.contains aborted_marker line || Py.contains terminated_marker line = false ->
  _check_completion_status line = ([], (false, false)).
Proof.
  unfold _check_completion_status, success_marker, aborted_marker,
    terminated_marker.
  intros -> ->. reflexivity.
Qed.

Lemma completion_cases line :
  _check_completion_status line = ([LogCompleted], (true, true)) \/
  _check_completion_status line = ([LogNotCompleted], (true, false)) \/
  _check_completion_status line = ([], (false, false)).
Proof.
  unfold _check_completion_status.
  destruct (Py.contains _ line); [auto|].
  destruct (Py.contains _ line || Py.contains _ line); auto.
Qed.

Lemma completion_of_raw raw :
  _check_completion_status (Py.strip raw) =
  match marker_outcome raw with
  | Some b => (marker_log b, (true, b))
  | None => ([], (false, false))
  end.
Proof.
  unfold _check_completion_status, marker_outcome.
  change "THE ANALYSIS HAS COMPLETED SUCCESSFULLY" with success_marker.
  change "ANALYSIS ABORTED" with aborted_marker.
  change "ANALYSIS TERMINATED" with terminated_marker.
  rewrite !contains_strip_eq by reflexivity.
  destruct (Py.contains success_marker raw); [reflexivity|].
  destruct (Py.contains aborted_marker raw || Py.contains terminated_marker raw);
    reflexivity.
Qed.

(** A line with a completion marker ends the session with the outcome of the
    marker, whatever the locals and whatever else the line holds. *)
Lemma process_line_marker st i raw b :
  marker_outcome raw = Some b ->
  process_line st i raw = (marker_log b, inr b).
Proof.
  intros H. unfold process_line. rewrite completion_of_raw, H. reflexivity.
Qed.

Ltac line_cases :=
  unfold process_line;
  let E := fresh "Ecs" in
  match goal with
  | |- context [_check_completion_status ?l] =>
      destruct (completion_cases l) as [E | [E | E]]; rewrite E
  end;
  [ | |
    match goal with
    | |- context [_is_header_line ?l] =>
        destruct (_is_header_line l) eqn:Eh;
        [ | destruct (_is_increment_data_line l) eqn:Ei;
            [ destruct (7 <=? Py.len (Py.split l)) eqn:E7;
              [ destruct (_parse_increment_data (Py.split l)) as [d|e] eqn:Ep;
                [ match goal with
                  | |- context [track_ke ?k ?x] =>
                      pose proof (track_ke_step k x) as Hstep;
                      destruct (track_ke k x) as [[out_ke k'] [|]] eqn:Et
                  end
                | ]
              | ]
            | destruct (Py.truthy l && negb (_should_skip_line l)) eqn:Et ] ]
    end ].

Lemma process_line_consumes st i raw out st' :
  process_line st i raw = (out, inl st') -> last_printed_line_index st' = i.
Proof.
  line_cases; intros [= <- <-] || intros [=]; reflexivity.
Qed.

Lemma quiet_nil : quiet [].
Proof. repeat split; intros []. Qed.

Lemma quiet_line s : quiet [LogLine s].
Proof. repeat split; intros [H|[]]; discriminate. Qed.

Lemma quiet_app a b : quiet a -> quiet b -> quiet (a ++ b).
Proof.
  intros (A1 & A2 & A3) (B1 & B2 & B3).
  repeat split; intros H; apply in_app_or in H; tauto.
Qed.

Lemma quiet_record (h : bool) d :
  quiet ((if h then [] else [LogHeader]) ++ [LogIncrement d]).
Proof.
  destruct h; repeat split; simpl; intros H;
    repeat (destruct H as [H|H]; try discriminate); auto.
Qed.

Lemma emitted_line i out : emitted [Line i out] = out.
Proof. unfold emitted. simpl. apply app_nil_r. Qed.

Lemma samples_line i out : samples [Line i out] = flat_map sample_of out.
Proof. unfold samples. rewrite emitted_line. reflexivity. Qed.

Lemma samples_record (h : bool) d :
  flat_map sample_of ((if h then [] else [LogHeader]) ++ [LogIncrement d])
  = [kinetic_energy d].
Proof. destruct h; reflexivity. Qed.

Lemma process_line_ok st i raw out r :
  process_line st i raw = (out, r) -> session_ok (ke st) [Line i out] r.
Proof.
  line_cases; intros [= <- <-]; unfold session_ok.
  - exists [], i, [LogCompleted], (ke st).
    repeat split; try (intros []). left. auto.
  - exists [], i, [LogNotCompleted], (ke st).
    repeat split; try (intros []). right. left. auto.
  - rewrite samples_line, emitted_line. split; [reflexivity|apply quiet_nil].
  - (* a record that stops the session *)
    inversion Hstep as [ | | | q m Hq Hm Hlt Hqx Hc | ]; subst.
    exists [], i,
      ((if header_printed st then [] else [LogHeader]) ++
       [LogIncrement d] ++ [LogKeIncreasing m (kinetic_energy d); LogStopping]),
      (ke st).
    split; [reflexivity|]. split; [apply quiet_nil|]. split; [reflexivity|].
    right. right. split; [reflexivity|].
    exists (if header_printed st then [] else [LogHeader]), d, m.
    split; [reflexivity|]. split; [destruct (header_printed st); auto|].
    rewrite Et. reflexivity.
  - (* a record that does not *)
    assert (out_ke = []) as -> by (inversion Hstep; reflexivity).
    rewrite samples_line, emitted_line.
    rewrite samples_record.
    split; [|apply quiet_record].
    rewrite feed_one, Et. reflexivity.
  - rewrite samples_line, emitted_line.
    destruct (Py.truthy (Py.strip raw)); simpl;
      (split; [reflexivity|]); [apply quiet_line|apply quiet_nil].
  - rewrite samples_line, emitted_line. split; [reflexivity|apply quiet_nil].
  - rewrite samples_line, emitted_line. split; [reflexivity|apply quiet_line].
  - rewrite samples_line, emitted_line. split; [reflexivity|apply quiet_nil].
Qed.

(** ** The line loop *)

Lemma scan_cons st i raw rest :
  scan st i (raw :: rest) =
  match process_line st i raw with
  | (out, inr b) => ([Line i out], inr b)
  | (out, inl st') =>
      (Line i out :: fst (scan st' (i + 1) rest), snd (scan st' (i + 1) rest))
  end.
Proof.
  simpl. destruct (process_line st i raw) as [out [st'|b]]; [|reflexivity].
  destruct (scan st' (i + 1) rest). reflexivity.
Qed.

Lemma len_nil {A} : Py.len (@nil A) = 0.
Proof. reflexivity. Qed.

Lemma len_cons {A} (x : A) xs : Py.len (x :: xs) = Py.len xs + 1.
Proof. unfold Py.len. cbn [List.length]. lia. Qed.

Lemma len_nonneg {A} (xs : list A) : 0 <= Py.len xs.
Proof. unfold Py.len. lia. Qed.

Lemma scan_app l1 : forall st i l2,
  scan st i (l1 ++ l2) =
  match scan st i l1 with
  | (tr, inr b) => (tr, inr b)
  | (tr, inl st') =>
      (tr ++ fst (scan st' (i + Py.len l1) l2),
       snd (scan st' (i + Py.len l1) l2))
  end.
Proof.
  induction l1 as [|raw l1 IH]; intros st i l2.
  - simpl. rewrite len_nil, Z.add_0_r.
    destruct (scan st i l2). reflexivity.
  - rewrite <- app_comm_cons, !scan_cons.
    destruct (process_line st i raw) as [out [st'|b]]; [|reflexivity].
    rewrite IH.
    replace (i + 1 + Py.len l1) with (i + Py.len (raw :: l1))
      by (rewrite len_cons; lia).
    destruct (scan st' (i + 1) l1) as [tr [st''|b]]; reflexivity.
Qed.

Lemma visited_cons_line i out tr : visited (Line i out :: tr) = i :: visited tr.
Proof. reflexivity. Qed.

Lemma visited_app a b : visited (a ++ b) = visited a ++ visited b.
Proof. apply flat_map_app. Qed.

Lemma emitted_app a b : emitted (a ++ b) = emitted a ++ emitted b.
Proof. apply flat_map_app. Qed.

Lemma samples_app a b : samples (a ++ b) = samples a ++ samples b.
Proof. unfold samples. rewrite emitted_app. apply flat_map_app. Qed.

(** A sleep logs nothing, reads no line and feeds no sample. *)
Lemma emitted_sleep s tr : emitted (Sleep s :: tr) = emitted tr.
Proof. reflexivity. Qed.

Lemma visited_sleep s tr : visited (Sleep s :: tr) = visited tr.
Proof. reflexivity. Qed.

Lemma samples_sleep s tr : samples (Sleep s :: tr) = samples tr.
Proof. reflexivity. Qed.

(** The loop visits the indices from [i] on, one after the other, and when
    it runs to the end the last index visited is the last one consumed. *)
Lemma scan_trace ls : forall st i tr r,
  scan st i ls = (tr, r) ->
  visited tr = z_range i (List.length tr) /\
  (List.length tr <= List.length ls)%nat /\
  match r with
  | inl st' =>
      List.length tr = List.length ls /\
      (ls = [] -> st' = st) /\
      (ls <> [] -> last_printed_line_index st' = i + Py.len ls - 1)
  | inr _ => tr <> []
  end.
Proof.
  induction ls as [|raw ls IH]; intros st i tr r H.
  - inversion H; subst. simpl. repeat split; auto. congruence.
  - rewrite scan_cons in H.
    destruct (process_line st i raw) as [out [st'|b]] eqn:Ep.
    + destruct (scan st' (i + 1) ls) as [tr' r'] eqn:Es.
      simpl in H. inversion H; subst.
      destruct (IH _ _ _ _ Es) as (Hv & Hl & Hr).
      rewrite visited_cons_line, Hv. simpl.
      split; [reflexivity|]. split; [lia|].
      destruct r as [st''|b]; [|discriminate].
      destruct Hr as (Hlen & Hnil & Hlast).
      split; [lia|]. split; [discriminate|]. intros _.
      destruct ls as [|raw' ls'].
      * rewrite (Hnil eq_refl). apply process_line_consumes in Ep.
        rewrite Ep, len_cons, len_nil. lia.
      * rewrite Hlast by discriminate. rewrite !len_cons. lia.
    + inversion H; subst. simpl. repeat split; auto; try lia. discriminate.
Qed.

Lemma z_range_bounds n : forall i j, In j (z_range i n) -> i <= j < i + Z.of_nat n.
Proof.
  induction n as [|n IH]; intros i j H; [destruct H|].
  destruct H as [<-|H]; [lia|]. apply IH in H. lia.
Qed.

Lemma z_range_sorted n : forall i, StronglySorted Z.lt (z_range i n).
Proof.
  induction n as [|n IH]; intros i; simpl; constructor; [apply IH|].
  apply Forall_forall. intros j Hj. apply z_range_bounds in Hj. lia.
Qed.

Lemma sorted_app (a b : list Z) :
  StronglySorted Z.lt a -> StronglySorted Z.lt b ->
  (forall x y, In x a -> In y b -> x < y) ->
  StronglySorted Z.lt (a ++ b).
Proof.
  intros Ha Hb Hab. induction Ha as [|x a Ha IH Hx]; simpl; [exact Hb|].
  constructor.
  - apply IH. intros u v Hu Hv. apply Hab; [right|]; assumption.
  - apply Forall_app. split; [exact Hx|].
    apply Forall_forall. intros y Hy. apply Hab; [left; reflexivity|exact Hy].
Qed.

(** ** Sessions *)

Lemma session_ok_app k tr1 st1 tr2 r :
  feed k (samples tr1) = (ke st1, None) -> quiet (emitted tr1) ->
  session_ok (ke st1) tr2 r -> session_ok k (tr1 ++ tr2) r.
Proof.
  intros Hf Hq H. destruct r as [st'|b]; simpl in *.
  - destruct H as [Hf2 Hq2]. split.
    + rewrite samples_app, feed_app, Hf, Hf2. reflexivity.
    + rewrite emitted_app. apply quiet_app; assumption.
  - destruct H as (tr0 & i & out & k0 & -> & Hq0 & Hf0 & He).
    exists (tr1 ++ tr0), i, out, k0. split; [apply app_assoc|].
    split; [rewrite emitted_app; apply quiet_app; assumption|].
    split; [|exact He].
    rewrite samples_app, feed_app, Hf, Hf0. reflexivity.
Qed.

Lemma session_ok_nil st : session_ok (ke st) [] (inl st).
Proof. simpl. split; [reflexivity|apply quiet_nil]. Qed.

Lemma session_ok_sleep k s tr r :
  session_ok k tr r -> session_ok k (Sleep s :: tr) r.
Proof.
  destruct r as [st'|b]; unfold session_ok.
  - rewrite samples_sleep, emitted_sleep. auto.
  - intros (tr0 & i & out & k0 & -> & Hq & Hf & He).
    exists (Sleep s :: tr0), i, out, k0.
    rewrite samples_sleep, emitted_sleep. auto.
Qed.

Lemma scan_ok ls : forall st i tr r,
  scan st i ls = (tr, r) -> session_ok (ke st) tr r.
Proof.
  induction ls as [|raw ls IH]; intros st i tr r H.
  - inversion H; subst. apply session_ok_nil.
  - rewrite scan_cons in H.
    destruct (process_line st i raw) as [out [st'|b]] eqn:Ep.
    + destruct (scan st' (i + 1) ls) as [tr' r'] eqn:Es.
      simpl in H. inversion H; subst.
      apply process_line_ok in Ep. destruct Ep as [Hf Hq].
      change (Line i out :: tr') with ([Line i out] ++ tr').
      eapply session_ok_app; eauto.
    + inversion H; subst. eapply process_line_ok; eauto.
Qed.

Lemma poll_ok st file tr r :
  poll st file = (tr, r) -> session_ok (ke st) tr r.
Proof.
  destruct file as [lines|]; simpl.
  - destruct (0 <=? _find_solution_progress_section lines).
    + apply scan_ok.
    + intros [= <- <-]. apply session_ok_nil.
  - intros [= <- <-]. simpl. split; [reflexivity|].
    repeat split; intros [H|[]]; discriminate.
Qed.

Lemma loop_cons st file later :
  monitor_loop st (file :: later) =
  match poll st file with
  | (tr, inr b) => (tr, inr b)
  | (tr, inl st') =>
      (tr ++ Sleep 5 :: fst (monitor_loop st' later),
       snd (monitor_loop st' later))
  end.
Proof.
  simpl. destruct (poll st file) as [tr [st'|b]]; [|reflexivity].
  destruct (monitor_loop st' later). reflexivity.
Qed.

(** [monitor_job] is the loop from the initial locals, after one sleep. *)
Lemma job_loop polls tr r :
  monitor_job polls = (tr, r) ->
  exists tr', tr = Sleep 5 :: tr' /\ monitor_loop initial_state polls = (tr', r).
Proof.
  unfold monitor_job. destruct (monitor_loop initial_state polls) as [tr' r'].
  intros [= <- <-]. exists tr'. auto.
Qed.

Lemma job_unfold polls :
  monitor_job polls =
  (Sleep 5 :: fst (monitor_loop initial_state polls),
   snd (monitor_loop initial_state polls)).
Proof.
  unfold monitor_job. destruct (monitor_loop initial_state polls). reflexivity.
Qed.

Lemma loop_ok polls : forall st tr r,
  monitor_loop st polls = (tr, r) -> session_ok (ke st) tr r.
Proof.
  induction polls as [|file later IH]; intros st tr r H.
  - inversion H; subst. apply session_ok_nil.
  - rewrite loop_cons in H.
    destruct (poll st file) as [tr1 [st1|b]] eqn:Ep.
    + destruct (monitor_loop st1 later) as [tr2 r2] eqn:El.
      simpl in H. inversion H; subst.
      apply poll_ok in Ep. destruct Ep as [Hf Hq].
      eapply session_ok_app; eauto. apply session_ok_sleep. eauto.
    + inversion H; subst. eapply poll_ok; eauto.
Qed.

Lemma job_ok polls tr r :
  monitor_job polls = (tr, r) -> session_ok (ke initial_state) tr r.
Proof.
  intros H. apply job_loop in H. destruct H as (tr' & -> & H).
  apply session_ok_sleep, (loop_ok _ _ _ _ H).
Qed.

(** ** One poll *)

Lemma find_from_bounds lines : forall i,
  find_from i lines = -1 \/ i <= find_from i lines < i + Py.len lines.
Proof.
  induction lines as [|l ls IH]; intros i; simpl; [auto|].
  rewrite len_cons. pose proof (len_nonneg ls).
  destruct (Py.contains _ l); [right; lia|].
  destruct (IH (i + 1)) as [H'|H']; [auto|right; lia].
Qed.

Lemma find_from_app l1 : forall i l2,
  0 <= i -> 0 <= find_from i l1 ->
  find_from i (l1 ++ l2) = find_from i l1.
Proof.
  induction l1 as [|l ls IH]; intros i l2 Hi H; simpl in *; [lia|].
  destruct (Py.contains _ l); [reflexivity|]. apply IH; [lia|exact H].
Qed.

Lemma poll_some st lines :
  poll st (Some lines) =
  if 0 <=? _find_solution_progress_section lines then
    scan st
      (Z.max (_find_solution_progress_section lines + 2)
             (last_printed_line_index st + 1))
      (skipn (Z.to_nat (Z.max (_find_solution_progress_section lines + 2)
                              (last_printed_line_index st + 1))) lines)
  else ([], inl st).
Proof. reflexivity. Qed.

(** Without the anchor nothing is read and nothing changes. *)
Lemma poll_no_anchor st lines :
  _find_solution_progress_section lines < 0 ->
  poll st (Some lines) = ([], inl st).
Proof.
  intros H. rewrite poll_some.
  destruct (0 <=? _find_solution_progress_section lines) eqn:E;
    [lia|reflexivity].
Qed.

(** Where a poll reads: from two lines past the anchor, and past the last
    line consumed; in increasing order. When the poll does not return, the
    last index consumed has not decreased and bounds what was read. *)
Lemma poll_visits st file tr r :
  poll st file = (tr, r) ->
  StronglySorted Z.lt (visited tr) /\
  (forall j, In j (visited tr) ->
     last_printed_line_index st < j /\
     match file with
     | Some lines => _find_solution_progress_section lines + 2 <= j < Py.len lines
     | None => False
     end) /\
  match r with
  | inl st' =>
      last_printed_line_index st <= last_printed_line_index st' /\
      forall j, In j (visited tr) -> j <= last_printed_line_index st'
  | inr _ => True
  end.
Proof.
  destruct file as [lines|].
  - rewrite poll_some.
    destruct (0 <=? _find_solution_progress_section lines) eqn:E.
    + set (first := Z.max _ _). intros H.
      pose proof (scan_trace _ _ _ _ _ H) as (Hv & Hl & Hr).
      rewrite Hv. split; [apply z_range_sorted|].
      rewrite length_skipn in Hl.
      assert (0 <= first) as Hf by (unfold first; lia).
      split.
      * intros j Hj. apply z_range_bounds in Hj. unfold Py.len.
        unfold first in *. lia.
      * destruct r as [st'|b]; [|exact I].
        destruct Hr as (Hlen & Hnil & Hlast).
        destruct (skipn (Z.to_nat first) lines) as [|raw ls] eqn:Es.
        -- rewrite (Hnil eq_refl). split; [lia|].
           simpl in Hlen. rewrite Hlen. intros j [].
        -- rewrite Hlast by discriminate. pose proof (len_nonneg ls).
           rewrite len_cons. split; [unfold first; lia|].
           intros j Hj. apply z_range_bounds in Hj.
           rewrite Hlen in Hj. unfold Py.len. simpl length in *.
           cbn [List.length] in Hj. lia.
    + intros [= <- <-]. simpl. repeat split; try constructor; try lia;
        intros j [].
  - intros [= <- <-]. simpl. repeat split; try constructor; try lia;
      intros j [].
Qed.

(** Reading the same file again reads no line and changes nothing. *)
Lemma poll_again st lines tr st' :
  poll st (Some lines) = (tr, inl st') ->
  poll st' (Some lines) = ([], inl st').
Proof.
  rewrite !poll_some.
  destruct (0 <=? _find_solution_progress_section lines) eqn:E;
    [|intros [= <- <-]; reflexivity].
  set (a := _find_solution_progress_section lines) in *.
  set (first := Z.max (a + 2) (last_printed_line_index st + 1)).
  intros H. pose proof (scan_trace _ _ _ _ _ H) as (_ & _ & _ & Hnil & Hlast).
  destruct (skipn (Z.to_nat first) lines) as [|raw ls] eqn:Es.
  - rewrite (Hnil eq_refl). fold first. rewrite Es. reflexivity.
  - rewrite Hlast by discriminate.
    assert (List.length (raw :: ls) = (List.length lines - Z.to_nat first)%nat)
      as Hlen by (rewrite <- Es; apply length_skipn).
    rewrite skipn_all2; [reflexivity|].
    unfold Py.len. rewrite Hlen. cbn [List.length] in Hlen. unfold first in *. lia.
Qed.

(** A completion marker on a line the loop reaches ends the session. *)
Lemma poll_marker st pre raw post tr st' b :
  0 <= _find_solution_progress_section pre ->
  _find_solution_progress_section pre + 2 <= Py.len pre ->
  last_printed_line_index st < Py.len pre ->
  poll st (Some pre) = (tr, inl st') ->
  marker_outcome raw = Some b ->
  poll st (Some (pre ++ raw :: post)) =
  (tr ++ [Line (Py.len pre) (marker_log b)], inr b).
Proof.
  intros Ha Hstart Hlast Hpre Hm. rewrite poll_some in *.
  unfold _find_solution_progress_section in *.
  rewrite find_from_app by lia.
  set (a := find_from 0 pre) in *.
  assert ((0 <=? a) = true) as E by lia. rewrite E in *.
  set (first := Z.max (a + 2) (last_printed_line_index st + 1)) in *.
  assert (Z.to_nat first <= List.length pre)%nat as Hn
    by (unfold Py.len, first in *; lia).
  rewrite skipn_app.
  replace (Z.to_nat first - List.length pre)%nat with 0%nat by lia.
  simpl skipn at 2.
  rewrite scan_app, Hpre.
  replace (first + Py.len (skipn (Z.to_nat first) pre)) with (Py.len pre)
    by (unfold Py.len, first in *; rewrite length_skipn; lia).
  rewrite scan_cons, (process_line_marker _ _ _ _ Hm). reflexivity.
Qed.

(** ** The polling loop *)

Lemma loop_app p1 : forall st p2,
  monitor_loop st (p1 ++ p2) =
  match monitor_loop st p1 with
  | (tr, inr b) => (tr, inr b)
  | (tr, inl st') =>
      (tr ++ fst (monitor_loop st' p2), snd (monitor_loop st' p2))
  end.
Proof.
  induction p1 as [|file p1 IH]; intros st p2.
  - simpl. destruct (monitor_loop st p2). reflexivity.
  - rewrite <- app_comm_cons, !loop_cons.
    destruct (poll st file) as [tr [st'|b]]; [|reflexivity].
    rewrite IH. destruct (monitor_loop st' p1) as [tr1 [st1|b]]; simpl;
      [rewrite <- app_assoc|]; reflexivity.
Qed.

Lemma loop_missing n : forall st,
  monitor_loop st (repeat None n) = (retries n, inl st).
Proof.
  induction n as [|n IH]; intros st; [reflexivity|].
  simpl repeat. rewrite loop_cons.
  change (poll st None) with ([Missing], @inl monitor_state bool st).
  cbv beta iota.
  rewrite IH. reflexivity.
Qed.

Lemma loop_visits polls : forall st tr r,
  monitor_loop st polls = (tr, r) ->
  StronglySorted Z.lt (visited tr) /\
  (forall j, In j (visited tr) -> last_printed_line_index st < j) /\
  match r with
  | inl st' =>
      last_printed_line_index st <= last_printed_line_index st' /\
      forall j, In j (visited tr) -> j <= last_printed_line_index st'
  | inr _ => True
  end.
Proof.
  induction polls as [|file later IH]; intros st tr r H.
  - inversion H; subst. simpl. repeat split; try constructor; try lia;
      intros j [].
  - rewrite loop_cons in H.
    destruct (poll st file) as [tr1 [st1|b]] eqn:Ep.
    + destruct (monitor_loop st1 later) as [tr2 r2] eqn:El.
      simpl in H. inversion H; subst.
      apply poll_visits in Ep. destruct Ep as (S1 & V1 & L1 & U1).
      apply IH in El. destruct El as (S2 & V2 & R2).
      rewrite visited_app, visited_sleep. split; [|split].
      * apply sorted_app; auto. intros x y Hx Hy.
        specialize (U1 _ Hx). specialize (V2 _ Hy). lia.
      * intros j Hj. apply in_app_or in Hj. destruct Hj as [Hj|Hj].
        -- apply V1. exact Hj.
        -- specialize (V2 _ Hj). lia.
      * destruct r as [st'|b]; [|exact I]. destruct R2 as [L2 U2].
        split; [lia|]. intros j Hj. apply in_app_or in Hj.
        destruct Hj as [Hj|Hj]; [specialize (U1 _ Hj); lia|auto].
    + inversion H; subst. apply poll_visits in Ep.
      destruct Ep as (S1 & V1 & _). repeat split; auto. apply V1.
Qed.

(** A file that a poll reads nothing of is never read later either. *)
Lemma loop_stuck st lines n :
  poll st (Some lines) = ([], inl st) ->
  monitor_loop st (repeat (Some lines) n) = (repeat (Sleep 5) n, inl st).
Proof.
  intros H. induction n as [|n IH]; [reflexivity|].
  simpl repeat. rewrite loop_cons, H, IH. reflexivity.
Qed.

(** ** Parsing a data line *)

Lemma parse_ok_iff values d :
  _parse_increment_data values = Ok d <-> converts values d.
Proof.
  split.
  - intros H.
    destruct values as [|t0 [|t1 [|t2 [|t3 [|t4 [|t5 [|t6 [|t7 rest]]]]]]]];
      unfold _parse_increment_data, item, int_of, float_of in H; simpl in H;
      repeat match type of H with
             | context [py_int ?t] => destruct (py_int t) eqn:?; simpl in H
             | context [py_float ?t] =>
                 destruct (py_float t) eqn:?; simpl in H
             end; try discriminate.
    inversion H; subst; simpl.
    exists t0, t1, t2, t3, t4, t5, t6, t7, rest. simpl.
    repeat split; assumption.
  - intros (t0 & t1 & t2 & t3 & t4 & t5 & t6 & t7 & rest & -> & H0 & H1 & H2
            & H3 & H4 & H6 & H7).
    unfold _parse_increment_data, item, int_of, float_of. simpl.
    rewrite H0. simpl. rewrite H1. simpl. rewrite H2. simpl. rewrite H4. simpl.
    rewrite H6. simpl. rewrite H7. simpl. subst t3. destruct d; reflexivity.
Qed.

(** Fewer than eight tokens never make a record. *)
Lemma parse_short values :
  Py.len values < 8 -> exists e, _parse_increment_data values = Raise e.
Proof.
  intros Hlen. destruct (_parse_increment_data values) as [d|e] eqn:E; [|eauto].
  apply parse_ok_iff in E.
  destruct E as (t0 & t1 & t2 & t3 & t4 & t5 & t6 & t7 & rest & -> & _).
  rewrite !len_cons in Hlen. pose proof (len_nonneg rest). lia.
Qed.

Lemma prefix_cons a s1 b s2 :
  prefix (String a s1) (String b s2) =
  if ascii_dec a b then prefix s1 s2 else false.
Proof. reflexivity. Qed.

Lemma increment_not_header line :
  _is_increment_data_line line = true ->
  _is_header_line line = false /\ Py.truthy line = true.
Proof.
  destruct line as [|c rest]; [discriminate|].
  unfold _is_increment_data_line.
  intros H. apply andb_true_iff in H. destruct H as [H _].
  apply andb_true_iff in H. destruct H as [H _].
  split; [|reflexivity].
  unfold _is_header_line, Py.startswith. rewrite !prefix_cons.
  destruct (ascii_dec "S" c) as [<-|_]; [discriminate|].
  destruct (ascii_dec "I" c) as [<-|_]; [discriminate|].
  reflexivity.
Qed.

(** What the loop does with a line that has the shape of a data line and no
    completion marker. *)
Lemma process_line_increment st i raw :
  marker_outcome raw = None ->
  _is_increment_data_line (Py.strip raw) = true ->
  process_line st i raw =
  if 7 <=? Py.len (Py.split (Py.strip raw)) then
    match _parse_increment_data (Py.split (Py.strip raw)) with
    | Ok data =>
        let head := if header_printed st then [] else [LogHeader] in
        let '(out_ke, k, should_exit) :=
          track_ke (ke st) (kinetic_energy data) in
        if should_exit then (head ++ [LogIncrement data] ++ out_ke, inr true)
        else
          (head ++ [LogIncrement data] ++ out_ke,
           inl {| last_printed_line_index := i; header_printed := true;
                  ke := k |})
    | Raise _ => ([LogLine (Py.strip raw)], inl (consumed st i))
    end
  else ([], inl (consumed st i)).
Proof.
  intros Hm Hi. unfold process_line.
  rewrite completion_of_raw, Hm.
  destruct (increment_not_header _ Hi) as [-> ->]. rewrite Hi. reflexivity.
Qed.

Lemma track_ke_out k x e :
  In e (fst (fst (track_ke k x))) -> sample_of e = [].
Proof.
  pose proof (track_ke_step k x) as Hs.
  destruct (track_ke k x) as [[out k'] stop]. simpl.
  inversion Hs; subst; simpl; intros Hin;
    repeat (destruct Hin as [Hin|Hin]; try (subst; reflexivity)); destruct Hin.
Qed.

(** A record is logged for such a line exactly when its tokens convert. *)
Lemma record_logged_iff st i raw d :
  marker_outcome raw = None ->
  _is_increment_data_line (Py.strip raw) = true ->
  In (LogIncrement d) (fst (process_line st i raw)) <->
  converts (Py.split (Py.strip raw)) d.
Proof.
  intros Hm Hi. rewrite (process_line_increment _ _ _ Hm Hi).
  rewrite <- parse_ok_iff.
  destruct (7 <=? Py.len (Py.split (Py.strip raw))) eqn:E7.
  - destruct (_parse_increment_data _) as [data|e] eqn:Ep.
    + pose proof (track_ke_out (ke st) (kinetic_energy data)) as Hout.
      destruct (track_ke _ _) as [[out_ke k] stop]. simpl in Hout.
      assert (In (LogIncrement d)
                ((if header_printed st then [] else [LogHeader]) ++
                 [LogIncrement data] ++ out_ke) <-> Ok data = Ok d) as Hiff.
      { split.
        - intros H. apply in_app_or in H. destruct H as [H|H].
          + destruct (header_printed st); simpl in H;
              [destruct H|destruct H as [H|[]]; discriminate].
          + destruct H as [H|H]; [congruence|].
            apply Hout in H. discriminate.
        - intros [= ->]. apply in_or_app. right. left. reflexivity. }
      destruct stop; simpl; exact Hiff.
    + simpl. split; [intros [H|[]]; discriminate|discriminate].
  - simpl. split; [intros []|].
    intros H. destruct (parse_short (Py.split (Py.strip raw))) as [e He]; [lia|].
    congruence.
Qed.

(** ** Counting the waiting notices, reading the outcome off the trace *)

Lemma waits_app a b : waits (a ++ b) = (waits a + waits b)%nat.
Proof. unfold waits. rewrite filter_app, length_app. reflexivity. Qed.

Lemma scan_waits ls : forall st i, waits (fst (scan st i ls)) = 0%nat.
Proof.
  induction ls as [|raw ls IH]; intros st i; [reflexivity|].
  rewrite scan_cons. destruct (process_line st i raw) as [out [st'|b]];
    [|reflexivity].
  simpl fst. change (Line i out :: fst (scan st' (i + 1) ls))
    with ([Line i out] ++ fst (scan st' (i + 1) ls)).
  rewrite waits_app, IH. reflexivity.
Qed.

Lemma poll_some_waits st lines : waits (fst (poll st (Some lines))) = 0%nat.
Proof.
  rewrite poll_some. destruct (0 <=? _); [apply scan_waits|reflexivity].
Qed.

Lemma waits_missing n : waits (repeat Missing n) = n.
Proof. induction n as [|n IH]; [reflexivity|]. unfold waits in *. simpl. rewrite IH. reflexivity. Qed.

Lemma emitted_in_last tr0 i out e :
  quiet (emitted tr0) ->
  (e = LogStopping \/ e = LogCompleted \/ e = LogNotCompleted) ->
  In e (emitted (tr0 ++ [Line i out])) -> In e out.
Proof.
  intros (Q1 & Q2 & Q3) He H. rewrite emitted_app, emitted_line in H.
  apply in_app_or in H. destruct H as [H|H]; [|exact H].
  destruct He as [-> | [-> | ->]]; contradiction.
Qed.

(** The end of a session can be read off what it logged. *)
Lemma session_outcome k tr r :
  session_ok k tr r ->
  (In LogCompleted (emitted tr) \/ In LogStopping (emitted tr) -> r = inr true) /\
  (In LogNotCompleted (emitted tr) -> r = inr false).
Proof.
  intros H. destruct r as [st'|b]; simpl in H.
  - destruct H as (_ & Q1 & Q2 & Q3). split; [intros [H|H]|intros H]; contradiction.
  - destruct H as (tr0 & i & out & k0 & -> & Hq & _ & He). split.
    + intros H.
      assert (In LogCompleted out \/ In LogStopping out) as H'.
      { destruct H as [H|H]; [left|right];
          eapply emitted_in_last; eauto. }
      destruct He as [[-> ->] | [[-> ->] | [-> _]]]; try reflexivity.
      destruct H' as [[H'|[]]|[H'|[]]]; discriminate.
    + intros H.
      assert (In LogNotCompleted out) as H' by (eapply emitted_in_last; eauto).
      destruct He as [[-> ->] | [[-> ->] | [-> (h & d & m & -> & Hh & _)]]].
      * destruct H' as [H'|[]]; discriminate.
      * reflexivity.
      * apply in_app_or in H'. destruct H' as [H'|H'].
        -- destruct Hh as [-> | ->]; simpl in H';
             repeat (destruct H' as [H'|H']; try discriminate); destruct H'.
        -- simpl in H'.
           repeat (destruct H' as [H'|H']; try discriminate); destruct H'.
Qed.

(** A session that logged the early stop fed the tracker with its samples,
    and the last of them stopped it. *)
Lemma session_stop k tr r :
  session_ok k tr r -> In LogStopping (emitted tr) ->
  snd (feed k (samples tr)) = Some (List.length (samples tr)).
Proof.
  intros H Hin. destruct r as [st'|b]; simpl in H.
  - destruct H as (_ & Q1 & _). contradiction.
  - destruct H as (tr0 & i & out & k0 & -> & Hq & Hf & He).
    assert (In LogStopping out) as H' by (eapply emitted_in_last; eauto).
    destruct He as [[-> ->] | [[-> ->] | [-> (h & d & m & -> & Hh & Hs)]]].
    + destruct H' as [H'|[]]; discriminate.
    + destruct H' as [H'|[]]; discriminate.
    + rewrite samples_app, samples_line.
      assert (flat_map sample_of
                (h ++ [LogIncrement d; LogKeIncreasing m (kinetic_energy d);
                       LogStopping]) = [kinetic_energy d]) as ->
        by (destruct Hh as [-> | ->]; reflexivity).
      rewrite feed_app, Hf, feed_one, Hs, length_app. reflexivity.
Qed.

(** ** Sleeps and failed polls *)

Lemma scan_only_lines ls : forall st i e,
  In e (fst (scan st i ls)) -> exists j out, e = Line j out.
Proof.
  induction ls as [|raw ls IH]; intros st i e Hin; [destruct Hin|].
  rewrite scan_cons in Hin.
  destruct (process_line st i raw) as [o [st'|b]]; cbn [fst] in Hin.
  - destruct Hin as [<-|H]; eauto.
  - destruct Hin as [<-|[]]; eauto.
Qed.

Lemma poll_only_lines st lines e :
  In e (fst (poll st (Some lines))) -> exists j out, e = Line j out.
Proof.
  rewrite poll_some. destruct (0 <=? _); [apply scan_only_lines|intros []].
Qed.

Lemma sleeps_app a b : sleeps (a ++ b) = sleeps a ++ sleeps b.
Proof. apply flat_map_app. Qed.

Lemma sleeps_sleep s tr : sleeps (Sleep s :: tr) = s :: sleeps tr.
Proof. reflexivity. Qed.

Lemma sleeps_lines tr :
  (forall e, In e tr -> exists j out, e = Line j out) -> sleeps tr = [].
Proof.
  induction tr as [|e tr IH]; intros H; [reflexivity|].
  destruct (H e (or_introl eq_refl)) as (j & out & ->).
  change (sleeps (Line j out :: tr)) with (sleeps tr).
  apply IH. intros e' He'. apply H. right. exact He'.
Qed.

(** The sleeps are those of the loop: a poll itself sleeps nowhere. *)
Lemma poll_sleeps st file : sleeps (fst (poll st file)) = [].
Proof.
  destruct file as [lines|]; [|reflexivity].
  apply sleeps_lines. intros e. apply poll_only_lines.
Qed.

Lemma loop_sleeps_five polls : forall st s,
  In s (sleeps (fst (monitor_loop st polls))) -> s = 5.
Proof.
  induction polls as [|file later IH]; intros st s Hin; [destruct Hin|].
  rewrite loop_cons in Hin. pose proof (poll_sleeps st file) as Hp.
  destruct (poll st file) as [tr [st1|b]]; cbn [fst snd] in Hin, Hp.
  - rewrite sleeps_app, Hp, sleeps_sleep in Hin.
    destruct Hin as [<-|Hin]; [reflexivity|eauto].
  - rewrite Hp in Hin. destruct Hin.
Qed.

Lemma loop_sleeps_count polls : forall st st',
  snd (monitor_loop st polls) = inl st' ->
  sleeps (fst (monitor_loop st polls)) = repeat 5 (List.length polls).
Proof.
  induction polls as [|file later IH]; intros st st' H; [reflexivity|].
  rewrite loop_cons in *. pose proof (poll_sleeps st file) as Hp.
  destruct (poll st file) as [tr [st1|b]]; cbn [fst snd] in *;
    [|discriminate].
  rewrite sleeps_app, Hp, sleeps_sleep, (IH _ _ H). reflexivity.
Qed.

Lemma app_split_notin {A} (x : A) (l1 : list A) : forall l2 t1 t2,
  l1 ++ l2 = t1 ++ x :: t2 -> ~ In x l1 ->
  exists t1', t1 = l1 ++ t1' /\ l2 = t1' ++ x :: t2.
Proof.
  induction l1 as [|a l1 IH]; intros l2 t1 t2 H Hn.
  - exists t1. auto.
  - destruct t1 as [|b t1]; injection H as Hab Hrest.
    + exfalso. apply Hn. left. exact Hab.
    + destruct (IH l2 t1 t2 Hrest) as (t1' & -> & ->).
      * intros Hin. apply Hn. right. exact Hin.
      * exists t1'. subst b. auto.
Qed.

(** Every failed poll is followed by a sleep of five seconds. *)
Lemma loop_missing_then_sleep polls : forall st tr1 tr2,
  fst (monitor_loop st polls) = tr1 ++ Missing :: tr2 ->
  exists tr3, tr2 = Sleep 5 :: tr3.
Proof.
  induction polls as [|file later IH]; intros st tr1 tr2 H.
  - destruct tr1; discriminate.
  - rewrite loop_cons in H. destruct file as [lines|].
    + assert (~ In Missing (fst (poll st (Some lines)))) as Hn.
      { intros Hin. apply poll_only_lines in Hin.
        destruct Hin as (j & out & Hd). discriminate. }
      destruct (poll st (Some lines)) as [tr [st1|b]]; cbn [fst snd] in *.
      * apply app_split_notin in H; [|exact Hn].
        destruct H as (t & -> & H). destruct t as [|e t]; [discriminate|].
        injection H as _ H. eapply IH. exact H.
      * exfalso. apply Hn. rewrite H. apply in_elt.
    + change (poll st None) with ([Missing], @inl monitor_state bool st) in H.
      cbv beta iota in H. cbn [fst app] in H.
      destruct tr1 as [|e tr1].
      * injection H as H. eauto.
      * injection H as _ H. destruct tr1 as [|e' tr1]; [discriminate|].
        injection H as _ H. eapply IH. exact H.
Qed.

Lemma emitted_retries n : emitted (retries n) = repeat LogWaiting n.
Proof.
  induction n as [|n IH]; [reflexivity|].
  change (retries (S n)) with (Missing :: Sleep 5 :: retries n).
  change (emitted (Missing :: Sleep 5 :: retries n))
    with (LogWaiting :: emitted (retries n)).
  rewrite IH. reflexivity.
Qed.

Lemma sleeps_retries n : sleeps (retries n) = repeat 5 n.
Proof.
  induction n as [|n IH]; [reflexivity|].
  change (retries (S n)) with (Missing :: Sleep 5 :: retries n).
  change (sleeps (Missing :: Sleep 5 :: retries n))
    with (5 :: sleeps (retries n)).
  rewrite IH. reflexivity.
Qed.

Lemma waits_retries n : waits (retries n) = n.
Proof.
  induction n as [|n IH]; [reflexivity|].
  change (retries (S n)) with (Missing :: Sleep 5 :: retries n).
  change (waits (Missing :: Sleep 5 :: retries n)) with (S (waits (retries n))).
  rewrite IH. reflexivity.
Qed.

(** ** Lines above the first line read *)

(** A poll does not look at the lines above the first one it reads: it does
    the same on two files that differ there only, the anchor being found at
    the same index in both. *)
Lemma poll_above st above above' rest :
  List.length above' = List.length above ->
  _find_solution_progress_section (above' ++ rest) =
  _find_solution_progress_section (above ++ rest) ->
  Py.len above <=
    Z.max (_find_solution_progress_section (above ++ rest) + 2)
          (last_printed_line_index st + 1) ->
  poll st (Some (above' ++ rest)) = poll st (Some (above ++ rest)).
Proof.
  intros Hl Ha Hf. rewrite !poll_some, Ha.
  destruct (0 <=? _find_solution_progress_section (above ++ rest));
    [|reflexivity].
  set (first := Z.max _ _) in *.
  assert (List.length above <= Z.to_nat first)%nat as Hn
    by (unfold Py.len in Hf; lia).
  rewrite !skipn_app, Hl.
  rewrite (skipn_all2 above) by exact Hn.
  rewrite (skipn_all2 above') by (rewrite Hl; exact Hn).
  reflexivity.
Qed.

End Monitor.

(** * The claims about the kinetic-energy tracker *)

(** C4, as the code has it: the minimum, when present, bounds the samples
    from the second one on. For every sequence of samples, no sample after
    the first that was processed is strictly below [min_ke], and where
    neither is NaN [min_ke] is below or equal to it; the same holds for the
    locals of a session that is still polling and the records it printed.
    The first sample is left out: it only seeds [previous_ke]. *)
Theorem minimum_bounds_later_samples :
  (forall xs m y,
     min_ke (fst (feed initial_ke xs)) = Some m ->
     In y (skipn 1 (firstn (processed (snd (feed initial_ke xs)) xs) xs)) ->
     flt y m = false /\
     (is_nan y = false -> is_nan m = false -> SFleb m y = true)) /\
  (forall (B : Builtins) polls tr st m y,
     monitor_job polls = (tr, inl st) ->
     min_ke (ke st) = Some m ->
     In y (skipn 1 (samples tr)) ->
     flt y m = false /\
     (is_nan y = false -> is_nan m = false -> SFleb m y = true)).
Proof.
  split.
  - intros xs m y Hm Hy. rewrite feed_initial_min in Hm.
    destruct (py_min_spec _ _ Hm) as [_ H]. apply H. exact Hy.
  - intros B polls tr st m y Hrun Hm Hy.
    apply job_ok in Hrun. destruct Hrun as [Hf _].
    change (ke initial_state) with initial_ke in Hf.
    pose proof (feed_initial_min (samples tr)) as Hmin.
    rewrite Hf in Hmin. simpl in Hmin. rewrite firstn_all in Hmin.
    rewrite Hm in Hmin. symmetry in Hmin.
    destruct (py_min_spec _ _ Hmin) as [_ H]. apply H. exact Hy.
Qed.

Lemma minimum_bounds_later_samples_witness :
  flt (fl 8) (fl 6) = false /\ SFleb (fl 6) (fl 8) = true.
Proof.
  destruct (proj1 minimum_bounds_later_samples
              (map fl [10; 8; 6; 7]) (fl 6) (fl 8)) as [H1 H2].
  - vm_compute. reflexivity.
  - vm_compute. left. reflexivity.
  - split; [exact H1|]. apply H2; vm_compute; reflexivity.
Defined.

(** C4 as stated fails on the samples 5, 10: the minimum is 10 after the
    second sample, above the first sample 5. *)
Lemma minimum_above_first_sample :
  min_ke (fst (feed initial_ke [fl 5; fl 10])) = Some (fl 10) /\
  snd (feed initial_ke [fl 5; fl 10]) = None /\
  SFleb (fl 10) (fl 5) = false /\ flt (fl 5) (fl 10) = true.
Proof. vm_compute. repeat split; reflexivity. Qed.

(** C5. After the first sample alone the minimum is absent and the sample
    is in [previous_ke]; after any number of processed samples the minimum
    is the minimum of the processed samples without the first, as [min]
    computes it; that value is one of them, none of them is strictly below
    it, and without NaN it is below or equal to each. The same holds for
    the locals of a session that is still polling and the records it
    printed. *)
Theorem minimum_is_min_of_later_samples :
  (forall x,
     feed initial_ke [x] =
     ({| previous_ke := Some x; min_ke := None; ke_increasing_count := 0 |},
      None)) /\
  (forall xs,
     min_ke (fst (feed initial_ke xs)) =
     py_min (skipn 1 (firstn (processed (snd (feed initial_ke xs)) xs) xs))) /\
  (forall xs m,
     py_min xs = Some m ->
     In m xs /\
     forall y, In y xs ->
       flt y m = false /\
       (is_nan y = false -> is_nan m = false -> SFleb m y = true)) /\
  (forall (B : Builtins) polls tr st,
     monitor_job polls = (tr, inl st) ->
     min_ke (ke st) = py_min (skipn 1 (samples tr))).
Proof.
  split; [reflexivity|]. split; [exact feed_initial_min|].
  split; [exact py_min_spec|].
  intros B polls tr st Hrun.
  apply job_ok in Hrun. destruct Hrun as [Hf _].
  change (ke initial_state) with initial_ke in Hf.
  pose proof (feed_initial_min (samples tr)) as Hmin.
  rewrite Hf in Hmin. simpl in Hmin. rewrite firstn_all in Hmin. exact Hmin.
Qed.

Lemma minimum_is_min_of_later_samples_witness :
  In (fl 6) (map fl [8; 6; 7]) /\ flt (fl 7) (fl 6) = false.
Proof.
  destruct (proj1 (proj2 (proj2 minimum_is_min_of_later_samples))
              (map fl [8; 6; 7]) (fl 6)) as [H1 H2].
  - vm_compute. reflexivity.
  - split; [exact H1|]. apply H2. vm_compute. right. right. left. reflexivity.
Defined.

(** C6. The tracker stops exactly on the first sample that completes three
    consecutive counted increases, a counted increase being a sample strictly
    above its predecessor that is not a new minimum; such a run is nothing
    but three consecutive strict increases that start after the first
    sample. A new minimum resets the streak to 0, and so does a sample that
    is below or equal to its predecessor and not a new minimum. A session
    whose samples stop the tracker returns [True]. On 10, 8, 6, 7, 9, 11 the
    stop is on the sixth sample, the minimum being 6 after the third and the
    streak 1 and 2 after the fourth and fifth; on 10, 8, 9, 7, 9, 10, 11 it
    is on the seventh. *)
Theorem stop_on_third_consecutive_increase :
  (forall xs n,
     snd (feed initial_ke xs) = Some n <->
     third_rise xs n /\ forall n', third_rise xs n' -> (n <= n')%nat) /\
  (forall xs n, third_rise xs n <-> three_rises_at xs n) /\
  (forall k x p m,
     previous_ke k = Some p -> min_ke k = Some m -> flt x m = true ->
     track_ke k x =
     ([], {| previous_ke := Some x; min_ke := Some x;
             ke_increasing_count := 0 |}, false)) /\
  (forall k x p m,
     previous_ke k = Some p -> min_ke k = Some m -> flt x m = false ->
     SFleb x p = true ->
     track_ke k x =
     ([], {| previous_ke := Some x; min_ke := Some m;
             ke_increasing_count := 0 |}, false)) /\
  (forall (B : Builtins) polls tr r n,
     monitor_job polls = (tr, r) ->
     snd (feed initial_ke (samples tr)) = Some n -> r = inr true) /\
  feed initial_ke (map fl [10; 8; 6]) =
    ({| previous_ke := Some (fl 6); min_ke := Some (fl 6);
        ke_increasing_count := 0 |}, None) /\
  feed initial_ke (map fl [10; 8; 6; 7]) =
    ({| previous_ke := Some (fl 7); min_ke := Some (fl 6);
        ke_increasing_count := 1 |}, None) /\
  feed initial_ke (map fl [10; 8; 6; 7; 9]) =
    ({| previous_ke := Some (fl 9); min_ke := Some (fl 6);
        ke_increasing_count := 2 |}, None) /\
  snd (feed initial_ke (map fl [10; 8; 6; 7; 9; 11])) = Some 6%nat /\
  snd (feed initial_ke (map fl [10; 8; 9; 7; 9; 10])) = None /\
  snd (feed initial_ke (map fl [10; 8; 9; 7; 9; 10; 11])) = Some 7%nat.
Proof.
  split.
  { intros xs n. rewrite stop_iff_first_three_rises. split.
    - intros [H Hmin]. split; [apply third_rise_iff; exact H|].
      intros n' H'. apply Hmin, third_rise_iff, H'.
    - intros [H Hmin]. split; [apply third_rise_iff; exact H|].
      intros n' H'. apply Hmin, third_rise_iff, H'. }
  split; [exact third_rise_iff|].
  split.
  { intros k x p m Hp Hm Hlt. unfold track_ke, _check_ke_minimum.
    rewrite Hp, Hm, Hlt. reflexivity. }
  split.
  { intros k x p m Hp Hm Hlt Hle. unfold track_ke, _check_ke_minimum.
    rewrite Hp, Hm, Hlt, fgt_flt, (fle_not_flt _ _ Hle). reflexivity. }
  split.
  { intros B polls tr r n Hrun Hstop. apply job_ok in Hrun.
    change (ke initial_state) with initial_ke in Hrun.
    destruct r as [st|b]; simpl in Hrun.
    - destruct Hrun as [Hf _]. rewrite Hf in Hstop. discriminate.
    - destruct Hrun as (tr0 & i & out & k0 & -> & _ & Hf & He).
      destruct He as [[-> ->] | [[-> ->] | [-> _]]]; try reflexivity.
      rewrite samples_app, samples_line in Hstop. simpl in Hstop.
      rewrite app_nil_r, Hf in Hstop. discriminate. }
  vm_compute. repeat split; reflexivity.
Qed.

Lemma stop_on_third_consecutive_increase_witness :
  track_ke {| previous_ke := Some (fl 9); min_ke := Some (fl 6);
              ke_increasing_count := 2 |} (fl 9) =
  ([], {| previous_ke := Some (fl 9); min_ke := Some (fl 6);
          ke_increasing_count := 0 |}, false).
Proof.
  apply (proj1 (proj2 (proj2 (proj2 stop_on_third_consecutive_increase)))
           _ (fl 9) (fl 9) (fl 6)); vm_compute; reflexivity.
Defined.

(** C10. No stop is signalled on any of the first four samples, a stop on
    the fifth is possible, and a session that logged the early stop has
    printed at least five records. *)
Theorem no_stop_before_fifth_sample :
  (forall xs n, snd (feed initial_ke xs) = Some n -> (5 <= n)%nat) /\
  snd (feed initial_ke (map fl [10; 8; 9; 10; 11])) = Some 5%nat /\
  (forall (B : Builtins) polls tr r,
     monitor_job polls = (tr, r) -> In LogStopping (emitted tr) ->
     (5 <= List.length (samples tr))%nat).
Proof.
  assert (forall xs n, snd (feed initial_ke xs) = Some n -> (5 <= n)%nat) as H.
  { intros xs n Hs. apply stop_gives_three_rises in Hs.
    destruct Hs as (pre & a & b & c & d & post & _ & Hne & -> & _).
    destruct pre; [congruence|]. simpl. lia. }
  split; [exact H|]. split; [vm_compute; reflexivity|].
  intros B polls tr r Hrun Hin. apply job_ok in Hrun.
  apply (H (samples tr)). eapply session_stop; eauto.
Qed.

Lemma no_stop_before_fifth_sample_witness :
  (5 <= 6)%nat.
Proof.
  apply (proj1 no_stop_before_fifth_sample (map fl [10; 8; 6; 7; 9; 11])).
  vm_compute. reflexivity.
Defined.

(** * The claims about the monitor *)

(** C1, as the code has it. A line with a completion marker ends the
    session with the outcome of the marker as soon as the loop reads it,
    whatever the locals are: no record needs to have been seen, and the
    success marker is looked for first. The loop reads it when the file has
    the progress anchor and the line lies at least two lines past the anchor
    and past the last line consumed, nothing before it having ended the
    session; a poll that returns makes the loop return. The loop reads a
    line in no other case: a file without the anchor is not read at all, and
    every line read lies at least two lines past the anchor and past the
    last line consumed. What stands above the first line a poll reads,
    completion markers included, has no effect on the poll, as long as it
    leaves the anchor where it is. *)
Theorem completion_detected_past_anchor (B : Builtins) :
  (forall st i raw b,
     marker_outcome raw = Some b ->
     process_line st i raw = (marker_log b, inr b)) /\
  (forall st pre raw post tr st' b,
     0 <= _find_solution_progress_section pre ->
     _find_solution_progress_section pre + 2 <= Py.len pre ->
     last_printed_line_index st < Py.len pre ->
     poll st (Some pre) = (tr, inl st') ->
     marker_outcome raw = Some b ->
     poll st (Some (pre ++ raw :: post)) =
     (tr ++ [Line (Py.len pre) (marker_log b)], inr b)) /\
  (forall st lines,
     _find_solution_progress_section lines < 0 ->
     poll st (Some lines) = ([], inl st)) /\
  (forall st lines tr r j,
     poll st (Some lines) = (tr, r) -> In j (visited tr) ->
     0 <= _find_solution_progress_section lines /\
     _find_solution_progress_section lines + 2 <= j /\
     last_printed_line_index st < j) /\
  (forall st above above' rest,
     List.length above' = List.length above ->
     _find_solution_progress_section (above' ++ rest) =
     _find_solution_progress_section (above ++ rest) ->
     Py.len above <=
       Z.max (_find_solution_progress_section (above ++ rest) + 2)
             (last_printed_line_index st + 1) ->
     poll st (Some (above' ++ rest)) = poll st (Some (above ++ rest))) /\
  (forall st file later tr b,
     poll st file = (tr, inr b) ->
     monitor_loop st (file :: later) = (tr, inr b)).
Proof.
  split; [exact process_line_marker|]. split; [exact poll_marker|].
  split; [exact poll_no_anchor|]. split; [|split; [exact poll_above|]].
  - intros st lines tr r j Hp Hj.
    destruct (Z_lt_le_dec (_find_solution_progress_section lines) 0)
      as [Hno|Ha].
    + rewrite (poll_no_anchor st lines Hno) in Hp.
      injection Hp as <- <-. destruct Hj.
    + destruct (poll_visits _ _ _ _ Hp) as (_ & H & _).
      apply H in Hj. lia.
  - intros st file later tr b Hp. rewrite loop_cons, Hp. reflexivity.
Qed.

Lemma completion_detected_past_anchor_witness :
  marker_outcome aborted_line = Some false /\
  snd (poll initial_state (Some (sta_head ++ aborted_line :: sta_marker_only)))
  = inr false.
Proof.
  split; [reflexivity|].
  erewrite (proj1 (proj2 (completion_detected_past_anchor reference_builtins))
              initial_state sta_head aborted_line sta_marker_only).
  - reflexivity.
  - vm_compute. discriminate.
  - vm_compute. discriminate.
  - vm_compute. reflexivity.
  - vm_compute. reflexivity.
  - reflexivity.
Defined.

(** C1 as stated fails: a file that holds the success marker and no progress
    anchor never makes the monitor return, however often it is polled: the
    session only sleeps. Nor does a file with the success marker above the
    anchor; and when such a file goes on with an abort marker the monitor
    returns [False]. *)
Lemma completion_marker_before_anchor_unseen :
  marker_outcome success_line = Some true /\
  monitor_job [Some sta_marker_only; Some sta_marker_only;
               Some sta_marker_only] =
    ([Sleep 5; Sleep 5; Sleep 5; Sleep 5], inl initial_state) /\
  (forall n,
     monitor_job (repeat (Some sta_marker_only) n) =
     (repeat (Sleep 5) (S n), inl initial_state)) /\
  In success_line sta_marker_first /\
  (forall n, exists tr st,
     monitor_job (repeat (Some sta_marker_first) n) = (tr, inl st)) /\
  snd (monitor_job [Some (success_line :: sta_head ++ [aborted_line])]) =
    inr false.
Proof.
  split; [reflexivity|]. split; [reflexivity|].
  split.
  { intros n. rewrite job_unfold, (loop_stuck initial_state sta_marker_only n);
      reflexivity. }
  split; [left; reflexivity|].
  split; [|reflexivity].
  intros [|n]; [eexists _, initial_state; reflexivity|].
  rewrite job_unfold. simpl repeat. rewrite loop_cons.
  destruct (poll initial_state (Some sta_marker_first)) as [tr [st|b]] eqn:E;
    [|vm_compute in E; discriminate].
  rewrite (loop_stuck _ _ _ (poll_again _ _ _ _ E)).
  eexists _, st. reflexivity.
Qed.

(** C2, as the code has it. For a line that has the shape of a data line
    and no completion marker, a record is parsed and logged exactly when the
    line has at least eight tokens of which the first converts with [int]
    and the second, third, fifth, seventh and eighth convert with [float];
    the record holds these values in this order, the fourth token as
    [wall_time], and the sixth token is not looked at. A line with fewer
    than seven tokens is consumed without output, and one with exactly seven
    is logged as it is. *)
Theorem record_iff_eight_tokens_convert (B : Builtins) :
  forall st i raw,
    marker_outcome raw = None ->
    _is_increment_data_line (Py.strip raw) = true ->
    (forall d,
       _parse_increment_data (Py.split (Py.strip raw)) = Ok d <->
       converts (Py.split (Py.strip raw)) d) /\
    (forall d,
       In (LogIncrement d) (fst (process_line st i raw)) <->
       converts (Py.split (Py.strip raw)) d) /\
    (Py.len (Py.split (Py.strip raw)) < 7 ->
     process_line st i raw = ([], inl (consumed st i))) /\
    (Py.len (Py.split (Py.strip raw)) = 7 ->
     process_line st i raw = ([LogLine (Py.strip raw)], inl (consumed st i))).
Proof.
  intros st i raw Hm Hi.
  split; [intros d; apply parse_ok_iff|].
  split; [intros d; apply record_logged_iff; assumption|].
  rewrite (process_line_increment _ _ _ Hm Hi). split; intros Hlen.
  - destruct (7 <=? _) eqn:E; [lia|reflexivity].
  - destruct (7 <=? _) eqn:E; [|lia].
    destruct (parse_short (Py.split (Py.strip raw))) as [e ->]; [lia|].
    reflexivity.
Qed.

Lemma record_iff_eight_tokens_convert_witness :
  marker_outcome good_record = None /\
  _is_increment_data_line (Py.strip good_record) = true /\
  exists d,
    In (LogIncrement d) (fst (process_line initial_state 7 good_record)) /\
    increment d = 1000 /\ wall_time d = "00:00:03" /\
    kinetic_energy d = fl 8.
Proof.
  split; [reflexivity|]. split; [reflexivity|].
  destruct (_parse_increment_data (Py.split (Py.strip good_record)))
    as [d|e] eqn:E; [|vm_compute in E; discriminate].
  exists d. split.
  - apply (proj1 (proj2 (record_iff_eight_tokens_convert reference_builtins
                           initial_state 7 good_record eq_refl eq_refl))).
    apply (proj1 (record_iff_eight_tokens_convert reference_builtins
                    initial_state 7 good_record eq_refl eq_refl)).
    exact E.
  - vm_compute in E. inversion E; subst. vm_compute. repeat split; reflexivity.
Defined.

(** C2 as stated fails on a data line of exactly seven tokens: there is no
    eighth token to convert, and the line is logged as it is. *)
Lemma seven_tokens_not_parsed :
  _is_increment_data_line (Py.strip seven_tokens) = true /\
  Py.len (Py.split (Py.strip seven_tokens)) = 7 /\
  _parse_increment_data (Py.split (Py.strip seven_tokens)) = Raise IndexError /\
  process_line initial_state 5 seven_tokens =
  ([LogLine seven_tokens], inl (consumed initial_state 5)).
Proof. vm_compute. repeat split; reflexivity. Qed.

(** C3, as the code has it. A line that has the shape of a data line, holds
    no completion marker and does not convert to a record (too few tokens,
    or a token that is not a number) raises nothing out of the loop: with at
    least seven tokens the stripped line is logged in place of a record,
    with fewer nothing is logged; in both cases the locals are unchanged but
    for the index of the line, and the loop goes on with the next line. *)
Theorem malformed_line_recovered (B : Builtins) :
  forall st i raw,
    marker_outcome raw = None ->
    _is_increment_data_line (Py.strip raw) = true ->
    (forall d, ~ converts (Py.split (Py.strip raw)) d) ->
    process_line st i raw =
    (if 7 <=? Py.len (Py.split (Py.strip raw))
     then [LogLine (Py.strip raw)] else [],
     inl (consumed st i)) /\
    forall rest,
      scan st i (raw :: rest) =
      (Line i (if 7 <=? Py.len (Py.split (Py.strip raw))
               then [LogLine (Py.strip raw)] else [])
       :: fst (scan (consumed st i) (i + 1) rest),
       snd (scan (consumed st i) (i + 1) rest)).
Proof.
  intros st i raw Hm Hi Hno.
  assert (process_line st i raw =
          (if 7 <=? Py.len (Py.split (Py.strip raw))
           then [LogLine (Py.strip raw)] else [],
           inl (consumed st i))) as Hp.
  { rewrite (process_line_increment _ _ _ Hm Hi).
    destruct (7 <=? _); [|reflexivity].
    destruct (_parse_increment_data _) as [d|e] eqn:E; [|reflexivity].
    apply parse_ok_iff in E. destruct (Hno d E). }
  split; [exact Hp|]. intros rest. rewrite scan_cons, Hp. reflexivity.
Qed.

Lemma malformed_line_recovered_witness :
  process_line initial_state 7 bad_energy =
  ([LogLine bad_energy], inl (consumed initial_state 7)).
Proof.
  apply (malformed_line_recovered reference_builtins initial_state 7 bad_energy).
  - reflexivity.
  - reflexivity.
  - intros d (t0 & t1 & t2 & t3 & t4 & t5 & t6 & t7 & rest & Heq & _ & _ & _
              & _ & _ & H6 & _).
    vm_compute in Heq. inversion Heq; subst. vm_compute in H6. discriminate.
Defined.

(** C3 as stated fails on a data line of three tokens: it is not logged. *)
Lemma short_line_not_logged :
  _is_increment_data_line (Py.strip three_tokens) = true /\
  Py.len (Py.split (Py.strip three_tokens)) = 3 /\
  process_line initial_state 5 three_tokens =
  ([], inl (consumed initial_state 5)).
Proof. vm_compute. repeat split; reflexivity. Qed.

(** C7. The index of the last line consumed starts at -1. From any locals,
    over any further polls, the loop reads line indices in strictly
    increasing order, all of them above the index it started with; when it
    is still polling the index has not decreased and bounds every line
    read. Whatever reaches the logger or the tracker does so in an iteration
    of the loop, so no line is classified, logged or fed twice. Reading the
    same file again reads nothing and changes nothing. *)
Theorem line_consumption_monotone (B : Builtins) :
  last_printed_line_index initial_state = -1 /\
  (forall st polls tr r,
     monitor_loop st polls = (tr, r) ->
     StronglySorted Z.lt (visited tr) /\
     (forall j, In j (visited tr) -> last_printed_line_index st < j) /\
     (forall st', r = inl st' ->
        last_printed_line_index st <= last_printed_line_index st' /\
        forall j, In j (visited tr) -> j <= last_printed_line_index st')) /\
  (forall st lines tr st',
     poll st (Some lines) = (tr, inl st') ->
     poll st' (Some lines) = ([], inl st')) /\
  (forall st p1 p2,
     monitor_loop st (p1 ++ p2) =
     match monitor_loop st p1 with
     | (tr, inr b) => (tr, inr b)
     | (tr, inl st') =>
         (tr ++ fst (monitor_loop st' p2), snd (monitor_loop st' p2))
     end).
Proof.
  split; [reflexivity|]. split.
  - intros st polls tr r H.
    destruct (loop_visits _ _ _ _ H) as (Hs & Hv & Hr).
    split; [exact Hs|]. split; [exact Hv|].
    intros st' ->. exact Hr.
  - split; [exact poll_again|]. intros st p1 p2. apply loop_app.
Qed.

Lemma line_consumption_monotone_witness :
  visited (fst (monitor_job [Some sta_head; Some sta_head; Some sta_rising]))
  = [3; 4; 5; 6; 7; 8; 9; 10] /\
  exists st,
    snd (poll initial_state (Some sta_head)) = inl st /\
    poll st (Some sta_head) = ([], inl st).
Proof.
  split; [vm_compute; reflexivity|].
  destruct (poll initial_state (Some sta_head)) as [tr [st|b]] eqn:E;
    [|vm_compute in E; discriminate].
  exists st. split; [reflexivity|].
  exact (proj1 (proj2 (proj2 (line_consumption_monotone reference_builtins)))
           initial_state sta_head tr st E).
Defined.

(** C8, as the code has it. A missing file neither raises nor returns: each
    failed poll logs one waiting notice, leaves the locals alone and is
    followed by a sleep of five seconds and the next poll, any number of
    times. The interval is fixed: in every session each failed poll is
    followed at once by a sleep of five seconds, no sleep has another
    length, and a session that is still polling has slept once before the
    first poll and once after each poll. When after [n] failed polls the
    file is there with the success marker on a line the loop reaches (the
    progress anchor present, the marker at least two lines past it, nothing
    before it ending the session), the monitor returns [True] having logged
    exactly [n] waiting notices. *)
Theorem missing_file_retried (B : Builtins) :
  (forall n,
     monitor_job (repeat None n) = (Sleep 5 :: retries n, inl initial_state)) /\
  (forall n,
     emitted (retries n) = repeat LogWaiting n /\
     sleeps (retries n) = repeat 5 n) /\
  (forall n polls,
     monitor_job (repeat None n ++ polls) =
     (Sleep 5 :: retries n ++ fst (monitor_loop initial_state polls),
      snd (monitor_loop initial_state polls))) /\
  (forall polls tr1 tr2,
     fst (monitor_job polls) = tr1 ++ Missing :: tr2 ->
     exists tr3, tr2 = Sleep 5 :: tr3) /\
  (forall polls,
     (forall s, In s (sleeps (fst (monitor_job polls))) -> s = 5) /\
     (forall st, snd (monitor_job polls) = inl st ->
        sleeps (fst (monitor_job polls)) =
        repeat 5 (S (List.length polls)))) /\
  (forall n pre raw post later tr st',
     0 <= _find_solution_progress_section pre ->
     _find_solution_progress_section pre + 2 <= Py.len pre ->
     poll initial_state (Some pre) = (tr, inl st') ->
     Py.contains success_marker raw = true ->
     monitor_job (repeat None n ++ Some (pre ++ raw :: post) :: later) =
     (Sleep 5 :: retries n ++ tr ++ [Line (Py.len pre) [LogCompleted]],
      inr true) /\
     waits (Sleep 5 :: retries n ++ tr ++ [Line (Py.len pre) [LogCompleted]])
     = n).
Proof.
  assert (forall n polls,
     monitor_job (repeat None n ++ polls) =
     (Sleep 5 :: retries n ++ fst (monitor_loop initial_state polls),
      snd (monitor_loop initial_state polls)))
    as Happ.
  { intros n polls. rewrite job_unfold, loop_app, loop_missing.
    reflexivity. }
  split.
  { intros n. rewrite job_unfold, loop_missing. reflexivity. }
  split; [intros n; split; [apply emitted_retries|apply sleeps_retries]|].
  split; [exact Happ|].
  split.
  { intros polls tr1 tr2 H. rewrite job_unfold in H. cbn [fst] in H.
    destruct tr1 as [|e tr1]; [discriminate|]. injection H as _ H.
    apply (loop_missing_then_sleep _ _ _ _ H). }
  split.
  { intros polls. rewrite job_unfold. cbn [fst snd]. rewrite sleeps_sleep.
    split.
    - intros s [<-|Hin]; [reflexivity|].
      apply (loop_sleeps_five _ _ _ Hin).
    - intros st H. rewrite (loop_sleeps_count _ _ _ H). reflexivity. }
  intros n pre raw post later tr st' Ha Hs Hp Hraw.
  assert (marker_outcome raw = Some true) as Hm
    by (unfold marker_outcome; rewrite Hraw; reflexivity).
  assert (poll initial_state (Some (pre ++ raw :: post)) =
          (tr ++ [Line (Py.len pre) (marker_log true)], inr true)) as Hpoll.
  { apply poll_marker with (st' := st'); auto.
    simpl. pose proof (len_nonneg pre). lia. }
  split.
  - rewrite Happ, loop_cons, Hpoll. reflexivity.
  - change (waits (Sleep 5 :: retries n ++ tr ++
                   [Line (Py.len pre) [LogCompleted]]))
      with (waits (retries n ++ tr ++ [Line (Py.len pre) [LogCompleted]])).
    rewrite !waits_app, waits_retries.
    replace tr with (fst (poll initial_state (Some pre))) by (rewrite Hp; reflexivity).
    rewrite poll_some_waits. unfold waits. simpl. lia.
Qed.

Lemma missing_file_retried_witness :
  snd (monitor_job
         (repeat None 3 ++ Some (sta_head ++ success_line :: []) :: []))
  = inr true /\
  waits (fst (monitor_job
         (repeat None 3 ++ Some (sta_head ++ success_line :: []) :: [])))
  = 3%nat.
Proof.
  destruct (proj2 (proj2 (proj2 (proj2 (proj2
              (missing_file_retried reference_builtins)))))
              3%nat sta_head success_line [] []
              (fst (poll initial_state (Some sta_head)))
              (consumed {| last_printed_line_index := 6; header_printed := true;
                           ke := {| previous_ke := Some (fl 10); min_ke := None;
                                    ke_increasing_count := 0 |} |} 6))
    as [Hrun Hw].
  - vm_compute. discriminate.
  - vm_compute. discriminate.
  - vm_compute. reflexivity.
  - vm_compute. reflexivity.
  - rewrite Hrun. split; [reflexivity|exact Hw].
Defined.

(** C8 as stated fails: after two failed polls the file is there with the
    success marker but without the progress anchor, and the monitor keeps
    polling. *)
Lemma missing_then_marker_only_keeps_polling :
  Py.contains success_marker success_line = true /\
  monitor_job [None; None; Some sta_marker_only; Some sta_marker_only;
               Some sta_marker_only] =
  ([Sleep 5; Missing; Sleep 5; Missing; Sleep 5; Sleep 5; Sleep 5; Sleep 5],
   inl initial_state).
Proof. vm_compute. split; reflexivity. Qed.

(** C9. With [wait] set, when the monitor returns [True], be it for the
    success marker or for the early stop, [create_and_submit_job] kills the
    job and then runs the terminate command for the job name in the working
    directory; when the monitor returns [False] it does neither. *)
Theorem kill_and_terminate_on_success (B : Builtins) :
  forall job_name TEMP_DIR model_name polls,
    (snd (monitor_job polls) = inr true ->
     create_and_submit_job job_name TEMP_DIR model_name true polls =
     Some [CreateJob job_name model_name; Submit;
           Print (String "010" " Job completed successfully by min KE.");
           Kill; Terminate job_name TEMP_DIR]) /\
    (snd (monitor_job polls) = inr false ->
     exists acts,
       create_and_submit_job job_name TEMP_DIR model_name true polls = Some acts /\
       ~ In Kill acts /\ forall j d, ~ In (Terminate j d) acts) /\
    (In LogCompleted (emitted (fst (monitor_job polls))) \/
     In LogStopping (emitted (fst (monitor_job polls))) ->
     snd (monitor_job polls) = inr true) /\
    (In LogNotCompleted (emitted (fst (monitor_job polls))) ->
     snd (monitor_job polls) = inr false).
Proof.
  intros job_name TEMP_DIR model_name polls.
  unfold create_and_submit_job.
  split; [intros ->; reflexivity|].
  split.
  { intros ->. eexists. split; [reflexivity|].
    split.
    - intros [H|[H|[]]]; discriminate.
    - intros j d [H|[H|[]]]; discriminate. }
  destruct (monitor_job polls) as [tr r] eqn:E. simpl.
  apply job_ok in E. apply (session_outcome _ _ _ E).
Qed.

Lemma kill_and_terminate_on_success_witness :
  In LogStopping (emitted (fst (monitor_job [Some sta_rising]))) /\
  create_and_submit_job "Job-1" "C:/temp" "Model-1" true [Some sta_rising] =
  Some [CreateJob "Job-1" "Model-1"; Submit;
        Print (String "010" " Job completed successfully by min KE.");
        Kill; Terminate "Job-1" "C:/temp"].
Proof.
  assert (In LogStopping (emitted (fst (monitor_job [Some sta_rising])))) as H.
  { vm_compute. do 7 right. left. reflexivity. }
  split; [exact H|].
  apply (kill_and_terminate_on_success reference_builtins).
  apply (kill_and_terminate_on_success reference_builtins "Job-1" "C:/temp" "Model-1").
  right. exact H.
Defined.

(** * Further properties of the monitor *)

Section MonitorMore.
Context {B : Builtins}.

(** Every iteration of the line loop goes one of the ways of [line_step]. *)
Lemma process_line_step st i raw out r :
  process_line st i raw = (out, r) -> line_step st i raw out r.
Proof.
  destruct (marker_outcome raw) as [b|] eqn:Hm.
  - rewrite (process_line_marker _ _ _ _ Hm). intros [= <- <-].
    apply line_marker. exact Hm.
  - destruct (_is_header_line (Py.strip raw)) eqn:Hh.
    + unfold process_line. rewrite completion_of_raw, Hm, Hh.
      intros [= <- <-]. apply line_header; assumption.
    + destruct (_is_increment_data_line (Py.strip raw)) eqn:Hi.
      * rewrite (process_line_increment _ _ _ Hm Hi).
        destruct (7 <=? Py.len (Py.split (Py.strip raw))) eqn:E7.
        -- destruct (_parse_increment_data _) as [d|e] eqn:Ep.
           ++ pose proof (track_ke_step (ke st) (kinetic_energy d)) as Hs.
              apply parse_ok_iff in Ep.
              destruct (track_ke _ _) as [[out_ke k] [|]] eqn:Et;
                intros [= <- <-].
              ** inversion Hs; subst. eapply line_stop; eauto.
              ** assert (out_ke = []) as -> by (inversion Hs; reflexivity).
                 eapply line_record; eauto.
           ++ intros [= <- <-].
              replace [LogLine (Py.strip raw)]
                with (if 7 <=? Py.len (Py.split (Py.strip raw))
                      then [LogLine (Py.strip raw)] else [])
                by (rewrite E7; reflexivity).
              apply line_unparsed; auto.
              intros d Hd. apply parse_ok_iff in Hd. congruence.
        -- intros [= <- <-].
           replace (@nil emission)
             with (if 7 <=? Py.len (Py.split (Py.strip raw))
                   then [LogLine (Py.strip raw)] else [])
             by (rewrite E7; reflexivity).
           apply line_unparsed; auto.
           intros d Hd. apply parse_ok_iff in Hd.
           destruct (parse_short (Py.split (Py.strip raw))) as [e He]; [lia|].
           congruence.
      * unfold process_line. rewrite completion_of_raw, Hm, Hh, Hi.
        destruct (Py.truthy (Py.strip raw) && negb (_should_skip_line (Py.strip raw)))
          eqn:Et; intros [= <- <-].
        -- replace [LogLine (Py.strip raw)]
             with (if Py.truthy (Py.strip raw)
                      && negb (_should_skip_line (Py.strip raw))
                   then [LogLine (Py.strip raw)] else [])
             by (rewrite Et; reflexivity).
           apply line_other; auto.
        -- replace (@nil emission)
             with (if Py.truthy (Py.strip raw)
                      && negb (_should_skip_line (Py.strip raw))
                   then [LogLine (Py.strip raw)] else [])
             by (rewrite Et; reflexivity).
           apply line_other; auto.
Qed.

(** A property of what one iteration logs holds of everything a session
    logs for a line. *)
Lemma scan_lines_all (P : list emission -> Prop) :
  (forall st i raw, P (fst (process_line st i raw))) ->
  forall ls st i e out,
    In (Line e out) (fst (scan st i ls)) -> P out.
Proof.
  intros HP. induction ls as [|raw ls IH]; intros st i e out Hin;
    [destruct Hin|].
  rewrite scan_cons in Hin. specialize (HP st i raw).
  destruct (process_line st i raw) as [o [st'|b]]; simpl in *.
  - destruct Hin as [H|H]; [inversion H; subst; exact HP|eauto].
  - destruct Hin as [H|[]]. inversion H; subst. exact HP.
Qed.

Lemma loop_lines_all (P : list emission -> Prop) :
  (forall st i raw, P (fst (process_line st i raw))) ->
  forall polls st e out,
    In (Line e out) (fst (monitor_loop st polls)) -> P out.
Proof.
  intros HP. induction polls as [|file later IH]; intros st e out Hin;
    [destruct Hin|].
  rewrite loop_cons in Hin.
  assert (forall e out, In (Line e out) (fst (poll st file)) -> P out) as Hpoll.
  { intros e' out'. destruct file as [lines|].
    - rewrite poll_some. destruct (0 <=? _).
      + apply scan_lines_all. exact HP.
      + intros [].
    - simpl. intros [H|[]]. discriminate. }
  destruct (poll st file) as [tr [st'|b]]; simpl in *.
  - apply in_app_or in Hin. destruct Hin as [H|[H|H]];
      [eauto|discriminate|eauto].
  - eauto.
Qed.

(** Where what a session logs for a line comes from: a line of one of the
    files polled. *)
Lemma scan_lines_from ls : forall st i e out,
  In (Line e out) (fst (scan st i ls)) ->
  exists st' raw, In raw ls /\ out = fst (process_line st' e raw).
Proof.
  induction ls as [|raw ls IH]; intros st i e out Hin; [destruct Hin|].
  rewrite scan_cons in Hin.
  destruct (process_line st i raw) as [o [st'|b]] eqn:Ep; cbn [fst] in Hin.
  - destruct Hin as [H|H].
    + injection H as <- <-. exists st, raw. rewrite Ep.
      split; [left|]; reflexivity.
    + destruct (IH _ _ _ _ H) as (st0 & raw0 & Hr & Ho).
      exists st0, raw0. split; [right; exact Hr|exact Ho].
  - destruct Hin as [H|[]]. injection H as <- <-. exists st, raw.
    rewrite Ep. split; [left|]; reflexivity.
Qed.

Lemma in_skipn {A} n (l : list A) x : In x (skipn n l) -> In x l.
Proof.
  intros H. rewrite <- (firstn_skipn n l). apply in_or_app. right. exact H.
Qed.

Lemma loop_lines_from polls : forall st e out,
  In (Line e out) (fst (monitor_loop st polls)) ->
  exists lines st' raw,
    In (Some lines) polls /\ In raw lines /\
    out = fst (process_line st' e raw).
Proof.
  induction polls as [|file later IH]; intros st e out Hin; [destruct Hin|].
  rewrite loop_cons in Hin.
  assert (In (Line e out) (fst (poll st file)) ->
          exists lines st' raw,
            In (Some lines) (file :: later) /\ In raw lines /\
            out = fst (process_line st' e raw)) as Hpoll.
  { destruct file as [lines|].
    - rewrite poll_some. destruct (0 <=? _); [|intros []].
      intros H. apply scan_lines_from in H.
      destruct H as (st' & raw & Hr & Ho). exists lines, st', raw.
      split; [left; reflexivity|]. split; [|exact Ho].
      apply in_skipn in Hr. exact Hr.
    - intros [H|[]]. discriminate. }
  assert (In (Line e out) (fst (monitor_loop st later)) \/ True) as _ by auto.
  destruct (poll st file) as [tr [st1|b]]; cbn [fst snd] in *; [|auto].
  apply in_app_or in Hin. destruct Hin as [H|[H|H]];
    [auto|discriminate|].
  destruct (IH _ _ _ H) as (lines & st' & raw & Hl & Hr & Ho).
  exists lines, st', raw. split; [right; exact Hl|auto].
Qed.

Lemma in_emitted tr x :
  In x (emitted tr) ->
  x = LogWaiting \/ exists i out, In (Line i out) tr /\ In x out.
Proof.
  induction tr as [|e tr IH]; [intros []|].
  unfold emitted. simpl. intros H. apply in_app_or in H.
  destruct H as [H|H].
  - destruct e as [|i out|secs].
    + destruct H as [<-|[]]. left. reflexivity.
    + right. exists i, out. split; [left; reflexivity|exact H].
    + destruct H.
  - destruct (IH H) as [->|(i & out & Hin & Hx)]; [left; reflexivity|].
    right. exists i, out. split; [right; exact Hin|exact Hx].
Qed.

(** ** The anchor *)

Lemma find_from_absent lines : forall i,
  0 <= i ->
  (find_from i lines = -1 <->
   forall l, In l lines -> Py.contains progress_anchor l = false).
Proof.
  unfold progress_anchor.
  induction lines as [|l ls IH]; intros i Hi; simpl.
  - split; [intros _ l []|reflexivity].
  - destruct (Py.contains _ l) eqn:E.
    + split; [lia|]. intros H. specialize (H l (or_introl eq_refl)). congruence.
    + rewrite IH by lia. split.
      * intros H l' [<-|Hin]; auto.
      * intros H l' Hin. apply H. right. exact Hin.
Qed.

Lemma find_from_found lines : forall i j,
  0 <= i -> find_from i lines = j -> 0 <= j ->
  exists pre l post,
    lines = pre ++ l :: post /\ j = i + Py.len pre /\
    Py.contains progress_anchor l = true /\
    forall l', In l' pre -> Py.contains progress_anchor l' = false.
Proof.
  unfold progress_anchor.
  induction lines as [|l ls IH]; intros i j Hi H Hj; simpl in H; [lia|].
  destruct (Py.contains _ l) eqn:E.
  - exists [], l, ls. rewrite len_nil. repeat split; auto; try lia.
    intros l' [].
  - destruct (IH (i + 1) j ltac:(lia) H Hj) as (pre & l0 & post & -> & -> & Hl & Hpre).
    exists (l :: pre), l0, post. rewrite len_cons.
    repeat split; auto; try lia.
    intros l' [<-|Hin]; auto.
Qed.

(** ** Reading a file that grew, or shrank *)

Lemma poll_scan st lines :
  0 <= _find_solution_progress_section lines ->
  poll st (Some lines) =
  scan st
    (Z.max (_find_solution_progress_section lines + 2)
           (last_printed_line_index st + 1))
    (skipn (Z.to_nat (Z.max (_find_solution_progress_section lines + 2)
                            (last_printed_line_index st + 1))) lines).
Proof.
  intros H. rewrite poll_some.
  destruct (0 <=? _find_solution_progress_section lines) eqn:E;
    [reflexivity|lia].
Qed.

(** Nothing is read of a file that is no longer than what was consumed. *)
Lemma poll_short st lines :
  Py.len lines <= last_printed_line_index st + 1 ->
  poll st (Some lines) = ([], inl st).
Proof.
  intros H. rewrite poll_some.
  destruct (0 <=? _find_solution_progress_section lines) eqn:E;
    [|reflexivity].
  rewrite skipn_all2; [reflexivity|]. unfold Py.len in H. lia.
Qed.

Lemma poll_below_start st lines :
  Py.len lines <= _find_solution_progress_section lines + 2 ->
  poll st (Some lines) = ([], inl st).
Proof.
  intros H. rewrite poll_some.
  destruct (0 <=? _find_solution_progress_section lines) eqn:E;
    [|reflexivity].
  rewrite skipn_all2; [reflexivity|]. unfold Py.len in H. lia.
Qed.

(** Polling a file and then the same file with lines appended is polling
    the longer file at once. *)
Lemma poll_extend st lines more :
  poll st (Some (lines ++ more)) =
  match poll st (Some lines) with
  | (tr, inr b) => (tr, inr b)
  | (tr, inl st') =>
      (tr ++ fst (poll st' (Some (lines ++ more))),
       snd (poll st' (Some (lines ++ more))))
  end.
Proof.
  destruct (Z_lt_le_dec (_find_solution_progress_section lines) 0) as [Hno|Ha].
  { rewrite (poll_no_anchor st lines Hno). cbv beta iota.
    rewrite app_nil_l. apply surjective_pairing. }
  set (a := _find_solution_progress_section lines) in *.
  set (first := Z.max (a + 2) (last_printed_line_index st + 1)).
  assert (_find_solution_progress_section (lines ++ more) = a) as Hfind
    by (apply find_from_app; [lia|exact Ha]).
  destruct (Z_lt_le_dec first (Py.len lines)) as [Hlt|Hge].
  - rewrite (poll_scan st (lines ++ more)) by (rewrite Hfind; exact Ha).
    rewrite (poll_scan st lines Ha). rewrite Hfind. fold a. fold first.
    assert (Z.to_nat first < List.length lines)%nat as Hn
      by (unfold Py.len, first in *; lia).
    rewrite skipn_app.
    replace (Z.to_nat first - List.length lines)%nat with 0%nat by lia.
    simpl skipn at 2. rewrite scan_app.
    destruct (scan st first (skipn (Z.to_nat first) lines)) as [tr [st'|b]] eqn:Es;
      [|reflexivity].
    pose proof (scan_trace _ _ _ _ _ Es) as (_ & _ & _ & _ & Hlast).
    assert (skipn (Z.to_nat first) lines <> []) as Hne.
    { intros E. apply (f_equal (@List.length string)) in E.
      rewrite length_skipn in E. simpl in E. lia. }
    specialize (Hlast Hne).
    assert (first + Py.len (skipn (Z.to_nat first) lines) = Py.len lines) as Hend
      by (unfold Py.len, first in *; rewrite length_skipn; lia).
    rewrite Hend in *.
    rewrite (poll_scan st' (lines ++ more)) by (rewrite Hfind; exact Ha).
    rewrite Hfind. fold a.
    replace (Z.max (a + 2) (last_printed_line_index st' + 1))
      with (Py.len lines) by (unfold first in *; lia).
    replace (Z.to_nat (Py.len lines)) with (List.length lines + 0)%nat
      by (unfold Py.len; lia).
    rewrite skipn_app, skipn_all2 by lia.
    replace (List.length lines + 0 - List.length lines)%nat with 0%nat by lia.
    reflexivity.
  - assert (poll st (Some lines) = ([], inl st)) as ->.
    { rewrite (poll_scan st lines Ha). fold a. fold first.
      rewrite skipn_all2; [reflexivity|]. unfold Py.len in Hge. lia. }
    cbv beta iota. rewrite app_nil_l. apply surjective_pairing.
Qed.

(** What a poll that does not return has read: every line from the first
    unread one to the end of the file. *)
Lemma poll_reads_to_end st lines tr st' :
  0 <= _find_solution_progress_section lines ->
  poll st (Some lines) = (tr, inl st') ->
  visited tr =
    z_range (Z.max (_find_solution_progress_section lines + 2)
                   (last_printed_line_index st + 1))
            (List.length lines -
             Z.to_nat (Z.max (_find_solution_progress_section lines + 2)
                             (last_printed_line_index st + 1))) /\
  (Z.max (_find_solution_progress_section lines + 2)
         (last_printed_line_index st + 1) < Py.len lines ->
   last_printed_line_index st' = Py.len lines - 1).
Proof.
  intros Ha. rewrite (poll_scan st lines Ha).
  set (first := Z.max _ _). intros H.
  pose proof (scan_trace _ _ _ _ _ H) as (Hv & _ & Hlen & _ & Hlast).
  rewrite Hv, Hlen, length_skipn. split; [reflexivity|].
  intros Hlt.
  assert (skipn (Z.to_nat first) lines <> []) as Hne.
  { intros E. apply (f_equal (@List.length string)) in E.
    rewrite length_skipn in E. simpl in E. unfold Py.len, first in *. lia. }
  rewrite (Hlast Hne). unfold Py.len, first in *. rewrite length_skipn. lia.
Qed.

(** ** Induction over a session *)

(** A relation between the locals at the start, what was logged and how the
    run ended holds of every run when it holds of no step at all, of a
    failed poll and of each line, and is kept by running on. *)
Lemma session_induction
  (R : monitor_state -> list emission -> monitor_state + bool -> Prop) :
  (forall st, R st [] (inl st)) ->
  (forall st, R st [LogWaiting] (inl st)) ->
  (forall st i raw out r, process_line st i raw = (out, r) -> R st out r) ->
  (forall st o1 st1 o2 r, R st o1 (inl st1) -> R st1 o2 r -> R st (o1 ++ o2) r) ->
  forall polls st tr r, monitor_loop st polls = (tr, r) -> R st (emitted tr) r.
Proof.
  intros Hnil Hwait Hline Happ.
  assert (forall ls st i tr r, scan st i ls = (tr, r) -> R st (emitted tr) r)
    as Hscan.
  { induction ls as [|raw ls IH]; intros st i tr r H.
    - inversion H; subst. apply Hnil.
    - rewrite scan_cons in H.
      destruct (process_line st i raw) as [out [st'|b]] eqn:Ep.
      + inversion H; subst.
        change (Line i out :: fst (scan st' (i + 1) ls))
          with ([Line i out] ++ fst (scan st' (i + 1) ls)).
        rewrite emitted_app, emitted_line.
        eapply Happ; [eapply Hline; eauto|].
        eapply IH. apply surjective_pairing.
      + inversion H; subst. rewrite emitted_line. eapply Hline; eauto. }
  assert (forall st file tr r, poll st file = (tr, r) -> R st (emitted tr) r)
    as Hpoll.
  { intros st [lines|] tr r.
    - rewrite poll_some. destruct (0 <=? _); [apply Hscan|].
      intros [= <- <-]. apply Hnil.
    - intros [= <- <-]. apply Hwait. }
  induction polls as [|file later IH]; intros st tr r H.
  - inversion H; subst. apply Hnil.
  - rewrite loop_cons in H.
    destruct (poll st file) as [tr1 [st1|b]] eqn:Ep.
    + inversion H; subst. rewrite emitted_app, emitted_sleep.
      eapply Happ; [eapply Hpoll; eauto|].
      eapply IH. apply surjective_pairing.
    + inversion H; subst. eapply Hpoll; eauto.
Qed.

(** ** The column header *)

Lemma headers_app a b : headers (a ++ b) = (headers a + headers b)%nat.
Proof. unfold headers. rewrite filter_app, length_app. reflexivity. Qed.

Lemma records_app a b : records (a ++ b) = (records a + records b)%nat.
Proof. unfold records. rewrite filter_app, length_app. reflexivity. Qed.

Lemma header_ok_quiet st i out :
  headers out = 0%nat -> records out = 0%nat ->
  header_ok st out (inl (consumed st i)).
Proof.
  intros Hh Hr. unfold header_ok, header_shape. rewrite Hr. simpl.
  rewrite orb_false_r. split; [|reflexivity].
  destruct (header_printed st); auto.
Qed.

Lemma header_ok_line st i raw out r :
  process_line st i raw = (out, r) -> header_ok st out r.
Proof.
  intros H. apply process_line_step in H.
  inversion H as [b Hm | | d k | d m k | | ]; subst.
  - destruct b; unfold header_ok, header_shape; simpl;
      (split; [destruct (header_printed st); auto|exact I]).
  - apply header_ok_quiet; reflexivity.
  - unfold header_ok, header_shape. destruct (header_printed st); simpl.
    + split; reflexivity.
    + split; [|reflexivity]. right. exists [], d, []. repeat split.
  - unfold header_ok, header_shape. destruct (header_printed st); simpl.
    + split; [reflexivity|exact I].
    + split; [|exact I]. right.
      exists [], d, [LogKeIncreasing m (kinetic_energy d); LogStopping].
      repeat split.
  - destruct (7 <=? _); apply header_ok_quiet; reflexivity.
  - destruct (_ && _); apply header_ok_quiet; reflexivity.
Qed.

Lemma header_shape_records out :
  header_shape out -> headers out = Nat.min 1 (records out).
Proof.
  intros [[Hr Hh] | (pre & d & post & -> & Hr & Hh & Hp)].
  - rewrite Hr, Hh. reflexivity.
  - rewrite headers_app, records_app, Hh, Hr.
    change (LogHeader :: LogIncrement d :: post)
      with ([LogHeader; LogIncrement d] ++ post).
    rewrite headers_app, records_app, Hp. simpl.
    destruct (records post); reflexivity.
Qed.

Lemma header_ok_app st o1 st1 o2 r :
  header_ok st o1 (inl st1) -> header_ok st1 o2 r ->
  header_ok st (o1 ++ o2) r.
Proof.
  unfold header_ok. intros [H1 E1] [H2 E2]. rewrite E1 in H2, E2. split.
  - destruct (header_printed st); simpl in *.
    + rewrite headers_app, H1, H2. reflexivity.
    + destruct H1 as [[Hr Hh] | (pre & d & post & -> & Hr & Hh & Hp)].
      * rewrite Hr in H2. simpl in H2.
        destruct H2 as [[Hr2 Hh2] | (pre & d & post & -> & Hr2 & Hh2 & Hp)].
        -- left. rewrite records_app, headers_app. lia.
        -- right. exists (o1 ++ pre), d, post.
           rewrite <- app_assoc, records_app, headers_app.
           repeat split; auto; lia.
      * assert ((0 <? records (pre ++ LogHeader :: LogIncrement d :: post))%nat
                = true) as Hpos.
        { apply Nat.ltb_lt. rewrite records_app.
          change (LogHeader :: LogIncrement d :: post)
            with ([LogHeader; LogIncrement d] ++ post).
          rewrite records_app. simpl. lia. }
        rewrite Hpos in H2. right. exists pre, d, (post ++ o2).
        rewrite <- app_assoc. simpl. rewrite headers_app.
        repeat split; auto; lia.
  - destruct r as [st'|b]; [|exact I].
    rewrite E2, records_app. destruct (header_printed st); simpl; [reflexivity|].
    destruct (records o1), (records o2); reflexivity.
Qed.

Lemma loop_header_ok polls st tr r :
  monitor_loop st polls = (tr, r) -> header_ok st (emitted tr) r.
Proof.
  revert polls st tr r. apply session_induction.
  - intros st. unfold header_ok, header_shape. simpl. rewrite orb_false_r.
    split; [destruct (header_printed st); auto|reflexivity].
  - intros st. unfold header_ok, header_shape. simpl. rewrite orb_false_r.
    split; [destruct (header_printed st); auto|reflexivity].
  - apply header_ok_line.
  - apply header_ok_app.
Qed.

(** ** Plain text *)

Lemma marker_free raw :
  marker_outcome raw = None ->
  Py.contains success_marker (Py.strip raw) = false /\
  Py.contains aborted_marker (Py.strip raw) = false /\
  Py.contains terminated_marker (Py.strip raw) = false.
Proof.
  unfold marker_outcome. rewrite !contains_strip_eq by reflexivity.
  destruct (Py.contains success_marker raw); [discriminate|].
  destruct (Py.contains aborted_marker raw); [discriminate|].
  destruct (Py.contains terminated_marker raw); [discriminate|]. auto.
Qed.

Lemma truthy_nonempty s : Py.truthy s = true -> s <> EmptyString.
Proof. destruct s; [discriminate|discriminate]. Qed.

Lemma line_plain_text st i raw s :
  In (LogLine s) (fst (process_line st i raw)) ->
  s = Py.strip raw /\ plain_text s.
Proof.
  destruct (process_line st i raw) as [out r] eqn:E. simpl.
  apply process_line_step in E.
  inversion E as [b Hm | | d k | d m k | Hm Hh Hi Hno | Hm Hh Hi]; subst.
  - destruct b; intros [Hin|[]]; discriminate.
  - intros [].
  - intros Hin. apply in_app_or in Hin.
    destruct Hin as [Hin|[Hin|[]]]; [|discriminate].
    destruct (header_printed st);
      [destruct Hin|destruct Hin as [Hin|[]]; discriminate].
  - intros Hin. apply in_app_or in Hin. destruct Hin as [Hin|Hin].
    + destruct (header_printed st);
        [destruct Hin|destruct Hin as [Hin|[]]; discriminate].
    + repeat (destruct Hin as [Hin|Hin]; try discriminate). destruct Hin.
  - destruct (7 <=? _); [|intros []]. intros [[= <-]|[]].
    split; [reflexivity|]. destruct (marker_free _ Hm) as (M1 & M2 & M3).
    destruct (increment_not_header _ Hi) as [_ Ht].
    repeat split; auto. apply truthy_nonempty. exact Ht.
  - destruct (Py.truthy (Py.strip raw) && negb (_should_skip_line (Py.strip raw)))
      eqn:Et; [|intros []].
    intros [[= <-]|[]]. split; [reflexivity|].
    apply andb_true_iff in Et. destruct Et as [Ht Hs].
    apply negb_true_iff in Hs.
    destruct (marker_free _ Hm) as (M1 & M2 & M3).
    repeat split; auto. apply truthy_nonempty. exact Ht.
Qed.

(** ** Waiting notices *)

Lemma line_no_waiting st i raw :
  ~ In LogWaiting (fst (process_line st i raw)).
Proof.
  destruct (process_line st i raw) as [out r] eqn:E. simpl.
  apply process_line_step in E.
  inversion E as [b Hm | | d k | d m k | | ]; subst.
  - destruct b; intros [Hin|[]]; discriminate.
  - intros [].
  - intros Hin. apply in_app_or in Hin.
    destruct Hin as [Hin|[Hin|[]]]; [|discriminate].
    destruct (header_printed st);
      [destruct Hin|destruct Hin as [Hin|[]]; discriminate].
  - intros Hin. apply in_app_or in Hin. destruct Hin as [Hin|Hin].
    + destruct (header_printed st);
        [destruct Hin|destruct Hin as [Hin|[]]; discriminate].
    + repeat (destruct Hin as [Hin|Hin]; try discriminate). destruct Hin.
  - destruct (7 <=? _); [intros [Hin|[]]; discriminate|intros []].
  - destruct (_ && _); [intros [Hin|[]]; discriminate|intros []].
Qed.

Lemma loop_waits polls : forall st,
  (waits (fst (monitor_loop st polls)) <= missing_polls polls)%nat /\
  (forall st', snd (monitor_loop st polls) = inl st' ->
     waits (fst (monitor_loop st polls)) = missing_polls polls).
Proof.
  induction polls as [|file later IH]; intros st; [split; reflexivity|].
  rewrite loop_cons.
  assert (waits (fst (poll st file)) =
          match file with None => 1%nat | Some _ => 0%nat end) as Hw
    by (destruct file; [apply poll_some_waits|reflexivity]).
  assert (missing_polls (file :: later) =
          (match file with None => 1%nat | Some _ => 0%nat end
           + missing_polls later)%nat) as Hm
    by (destruct file; reflexivity).
  destruct (poll st file) as [tr [st1|b]]; simpl in *.
  - destruct (IH st1) as [Hle Heq].
    change (waits (tr ++ Sleep 5 :: fst (monitor_loop st1 later)))
      with (waits (tr ++ [Sleep 5] ++ fst (monitor_loop st1 later))).
    rewrite !waits_app, Hw, Hm.
    change (waits [Sleep 5]) with 0%nat. split; [lia|].
    intros st' H. rewrite (Heq _ H). reflexivity.
  - rewrite Hw, Hm. split; [lia|]. intros st' [=].
Qed.

(** ** The locals of the tracker *)

Lemma last_opt_snoc {A} (xs : list A) x : last_opt (xs ++ [x]) = Some x.
Proof. unfold last_opt. rewrite rev_app_distr. reflexivity. Qed.

Lemma feed_locals xs k :
  feed initial_ke xs = (k, None) ->
  previous_ke k = last_opt xs /\
  0 <= ke_increasing_count k <= 2 /\
  (min_ke k = None <-> (List.length xs <= 1)%nat).
Proof.
  destruct xs as [|x0 xs0].
  - intros [= <-]. simpl. repeat split; auto; lia.
  - remember (x0 :: xs0) as xs eqn:Exs. intros H.
    assert (xs <> []) as Hne by (subst; discriminate).
    pose proof (feed_streak_inv _ _ Hne H) as Hinv.
    pose proof (streak_inv_count _ _ Hinv) as Hc.
    destruct Hinv as (ys & p & -> & Hp & Hm).
    rewrite last_opt_snoc, length_app. simpl. split; [exact Hp|].
    split; [exact Hc|].
    destruct (min_ke k).
    + destruct Hm as (Hys & _). split; [discriminate|].
      intros Hl. destruct ys; [congruence|simpl in Hl; lia].
    + destruct Hm as [-> _]. split; [simpl; lia|reflexivity].
Qed.

Lemma min_from_below m xs :
  min_from m xs = m \/ flt (min_from m xs) m = true.
Proof.
  revert m. induction xs as [|x xs IH]; intros m; simpl; [auto|].
  destruct (flt x m) eqn:E.
  - destruct (IH x) as [->|H]; [auto|]. right. eapply flt_trans; eauto.
  - apply IH.
Qed.

(** The minimum, once present, is only ever replaced by something strictly
    below it. *)
Lemma feed_min_decreases xs : forall k m,
  min_ke k = Some m ->
  exists m',
    min_ke (fst (feed k xs)) = Some m' /\ (m' = m \/ flt m' m = true).
Proof.
  induction xs as [|x xs IH]; intros k m Hm; [exists m; auto|].
  rewrite feed_cons.
  pose proof (track_ke_step k x) as Hs.
  destruct (track_ke k x) as [[out k1] stop].
  assert (exists m1, min_ke k1 = Some m1 /\ (m1 = m \/ flt m1 m = true)) as Hk1.
  { inversion Hs as [Hn | q Hq [Hmin | (m0 & Hm0 & Hlt)] | q m0 Hq Hm0 Hlt
                    | q m0 Hq Hm0 Hlt | q m0 Hq Hm0 Hlt]; subst; simpl;
      try (exists m; split; [congruence|auto]; fail).
    exists x. split; [reflexivity|]. right. congruence. }
  destruct Hk1 as (m1 & Hm1 & Hrel).
  destruct stop; simpl; [exists m1; auto|].
  destruct (IH k1 m1 Hm1) as (m' & Hm' & Hrel').
  destruct (feed k1 xs) as [k2 r]. simpl in *. exists m'. split; [exact Hm'|].
  destruct Hrel as [->|H1]; [exact Hrel'|].
  destruct Hrel' as [->|H2]; [auto|]. right. eapply flt_trans; eauto.
Qed.

Lemma flt_nan_l x : flt S754_nan x = false.
Proof. reflexivity. Qed.

Lemma flt_nan_r x : flt x S754_nan = false.
Proof. destruct x; reflexivity. Qed.

(** ** Lines that are suppressed *)

Lemma skip_not_classified s :
  _should_skip_line s = true ->
  _is_header_line s = false /\ _is_increment_data_line s = false.
Proof.
  unfold _should_skip_line, Py.startswith. intros H.
  destruct s as [|c s]; [discriminate|].
  rewrite !prefix_cons in H.
  destruct (ascii_dec "I" c) as [<-|HI].
  - split; [|reflexivity].
    unfold _is_header_line, Py.startswith. rewrite !prefix_cons.
    destruct (ascii_dec "S" "I"); [discriminate|].
    destruct (ascii_dec "I" "I"); [|reflexivity].
    destruct s as [|c1 s]; [reflexivity|]. rewrite !prefix_cons in *.
    destruct (ascii_dec "N" c1) as [<-|]; [|reflexivity].
    destruct s as [|c2 s]; [reflexivity|]. rewrite !prefix_cons in *.
    destruct (ascii_dec "C" c2) as [<-|]; [|reflexivity].
    destruct (ascii_dec "S" "C"); [discriminate|].
    destruct (ascii_dec "O" "I"); discriminate.
  - destruct (ascii_dec "O" c) as [<-|]; [|discriminate].
    split; [|reflexivity].
    unfold _is_header_line, Py.startswith. rewrite !prefix_cons.
    destruct (ascii_dec "S" "O"); [discriminate|].
    destruct (ascii_dec "I" "O"); [discriminate|]. reflexivity.
Qed.

Lemma process_line_suppressed st i raw :
  marker_outcome raw = None ->
  Py.strip raw = EmptyString \/ _is_header_line (Py.strip raw) = true \/
  _should_skip_line (Py.strip raw) = true ->
  process_line st i raw = ([], inl (consumed st i)).
Proof.
  intros Hm H. unfold process_line. rewrite completion_of_raw, Hm.
  destruct H as [H|[H|H]].
  - rewrite H. reflexivity.
  - rewrite H. reflexivity.
  - destruct (skip_not_classified _ H) as [-> ->]. rewrite H.
    rewrite andb_false_r. reflexivity.
Qed.

End MonitorMore.

(** * Further properties: the monitor *)

(** X1. [_find_solution_progress_section] returns -1 exactly when no line
    contains the anchor text, and otherwise the index of the first line
    that contains it; the result is at least -1 and below the number of
    lines. *)
Theorem anchor_is_first_occurrence :
  forall lines,
    -1 <= _find_solution_progress_section lines < Py.len lines /\
    (_find_solution_progress_section lines = -1 <->
     forall l, In l lines -> Py.contains progress_anchor l = false) /\
    (0 <= _find_solution_progress_section lines ->
     exists pre l post,
       lines = pre ++ l :: post /\
       _find_solution_progress_section lines = Py.len pre /\
       Py.contains progress_anchor l = true /\
       forall l', In l' pre -> Py.contains progress_anchor l' = false).
Proof.
  intros lines. unfold _find_solution_progress_section. split; [|split].
  - pose proof (len_nonneg lines) as Hlen.
    destruct (find_from_bounds lines 0) as [Hb|Hb]; lia.
  - apply find_from_absent. lia.
  - intros H.
    destruct (find_from_found lines 0 _ ltac:(lia) eq_refl H)
      as (pre & l & post & E & Hj & Hl & Hpre).
    exists pre, l, post. repeat split; auto; lia.
Qed.

Lemma anchor_is_first_occurrence_witness :
  _find_solution_progress_section sta_marker_first = 1 /\
  exists pre l post,
    sta_marker_first = pre ++ l :: post /\
    _find_solution_progress_section sta_marker_first = Py.len pre /\
    Py.contains progress_anchor l = true /\
    forall l', In l' pre -> Py.contains progress_anchor l' = false.
Proof.
  split; [reflexivity|].
  apply (proj2 (proj2 (anchor_is_first_occurrence sta_marker_first))).
  vm_compute. discriminate.
Defined.

(** X2. Polling a file and then the same file with whole lines appended
    gives the same result, the same log and the same lines read as polling
    the longer file at once: the two sessions differ by the sleep between
    the two polls and by nothing else. This holds for whole lines only: a
    last line consumed while it was half-written is not read again once it
    is complete, whatever it then holds; a success marker completed that
    way goes unseen, and the session that saw the half line keeps polling
    where the other returns [True]. *)
Theorem appended_file_polled_in_steps (B : Builtins) :
  (forall st lines more later,
     snd (monitor_loop st (Some lines :: Some (lines ++ more) :: later)) =
     snd (monitor_loop st (Some (lines ++ more) :: later)) /\
     emitted (fst (monitor_loop st
                     (Some lines :: Some (lines ++ more) :: later))) =
     emitted (fst (monitor_loop st (Some (lines ++ more) :: later))) /\
     visited (fst (monitor_loop st
                     (Some lines :: Some (lines ++ more) :: later))) =
     visited (fst (monitor_loop st (Some (lines ++ more) :: later))) /\
     (fst (monitor_loop st (Some lines :: Some (lines ++ more) :: later)) =
      fst (monitor_loop st (Some (lines ++ more) :: later)) \/
      exists tr rest,
        fst (monitor_loop st (Some lines :: Some (lines ++ more) :: later)) =
          tr ++ Sleep 5 :: rest /\
        fst (monitor_loop st (Some (lines ++ more) :: later)) = tr ++ rest)) /\
  (forall st pre half whole tr st',
     0 <= _find_solution_progress_section (pre ++ [half]) ->
     Z.max (_find_solution_progress_section (pre ++ [half]) + 2)
           (last_printed_line_index st + 1) <= Py.len pre ->
     poll st (Some (pre ++ [half])) = (tr, inl st') ->
     poll st' (Some (pre ++ [whole])) = ([], inl st')) /\
  (exists st,
     snd (monitor_job [Some (sta_started ++ [" THE ANALYSIS HAS"]);
                       Some (sta_started ++ [success_line])]) = inl st) /\
  snd (monitor_job [Some (sta_started ++ [success_line])]) = inr true.
Proof.
  split; [|split; [|split]].
  - intros st lines more later.
    assert (fst (monitor_loop st (Some lines :: Some (lines ++ more) :: later))
            = fst (monitor_loop st (Some (lines ++ more) :: later)) /\
            snd (monitor_loop st (Some lines :: Some (lines ++ more) :: later))
            = snd (monitor_loop st (Some (lines ++ more) :: later)) \/
            exists tr rest,
              fst (monitor_loop st
                     (Some lines :: Some (lines ++ more) :: later)) =
                tr ++ Sleep 5 :: rest /\
              fst (monitor_loop st (Some (lines ++ more) :: later)) =
                tr ++ rest /\
              snd (monitor_loop st
                     (Some lines :: Some (lines ++ more) :: later)) =
              snd (monitor_loop st (Some (lines ++ more) :: later))) as H.
    { rewrite (loop_cons st (Some lines)),
        (loop_cons st (Some (lines ++ more))).
      rewrite (poll_extend st lines more).
      destruct (poll st (Some lines)) as [tr [st1|b]]; [|left; auto].
      right. rewrite loop_cons.
      destruct (poll st1 (Some (lines ++ more))) as [tr2 [st2|b]];
        cbn [fst snd].
      - exists tr, (tr2 ++ Sleep 5 :: fst (monitor_loop st2 later)).
        rewrite app_assoc. auto.
      - exists tr, tr2. auto. }
    destruct H as [[Hf Hs]|(tr & rest & Hf1 & Hf2 & Hs)].
    + rewrite Hf. auto.
    + rewrite Hf1, Hf2, !emitted_app, !visited_app, emitted_sleep,
        visited_sleep.
      repeat split; auto. right. exists tr, rest. auto.
  - intros st pre half whole tr st' Ha Hfirst Hp.
    destruct (poll_reads_to_end _ _ _ _ Ha Hp) as [_ Hlast].
    apply poll_short. unfold Py.len in *. rewrite length_app in *.
    cbn [List.length] in *. lia.
  - eexists. vm_compute. reflexivity.
  - vm_compute. reflexivity.
Qed.

Lemma appended_file_polled_in_steps_witness :
  exists st,
    snd (poll initial_state (Some (sta_head ++ [" THE ANALYSIS HAS"]))) =
      inl st /\
    poll st (Some (sta_head ++ [success_line])) = ([], inl st).
Proof.
  destruct (poll initial_state (Some (sta_head ++ [" THE ANALYSIS HAS"])))
    as [tr [st|b]] eqn:E; [|vm_compute in E; discriminate].
  exists st. split; [reflexivity|].
  apply (proj1 (proj2 (appended_file_polled_in_steps reference_builtins))
           initial_state sta_head " THE ANALYSIS HAS" success_line tr st).
  - vm_compute. discriminate.
  - vm_compute. discriminate.
  - exact E.
Defined.

(** X3. A poll reads nothing, logs nothing and leaves the locals alone when
    the file has no line past the last one consumed, or no line at the
    index of the anchor plus 2 or beyond (the first index the loop reads):
    what such a file holds, completion markers included, is not looked
    at. *)
Theorem consumed_lines_never_reread (B : Builtins) :
  forall st lines,
    Py.len lines <= last_printed_line_index st + 1 \/
    Py.len lines <= _find_solution_progress_section lines + 2 ->
    poll st (Some lines) = ([], inl st).
Proof.
  intros st lines [H|H]; [apply poll_short|apply poll_below_start]; exact H.
Qed.

Lemma consumed_lines_never_reread_witness :
  In success_line (sta_head ++ [success_line]) /\
  poll (consumed initial_state 20) (Some (sta_head ++ [success_line])) =
  ([], inl (consumed initial_state 20)).
Proof.
  split; [apply in_or_app; right; left; reflexivity|].
  apply (consumed_lines_never_reread reference_builtins).
  left. vm_compute. discriminate.
Defined.

(** X4. When the anchor is there, a poll that does not return has read
    every line from the first unread one (two lines past the anchor, or the
    one after the last consumed, whichever is later) to the end of the
    file, each once and in order, and the last line of the file is then the
    last one consumed. *)
Theorem poll_reads_every_unread_line (B : Builtins) :
  forall st lines tr st',
    0 <= _find_solution_progress_section lines ->
    poll st (Some lines) = (tr, inl st') ->
    visited tr =
      z_range (Z.max (_find_solution_progress_section lines + 2)
                     (last_printed_line_index st + 1))
              (List.length lines -
               Z.to_nat (Z.max (_find_solution_progress_section lines + 2)
                               (last_printed_line_index st + 1))) /\
    (Z.max (_find_solution_progress_section lines + 2)
           (last_printed_line_index st + 1) < Py.len lines ->
     last_printed_line_index st' = Py.len lines - 1).
Proof. intros st lines tr st'. apply poll_reads_to_end. Qed.

Lemma poll_reads_every_unread_line_witness :
  visited (fst (poll (consumed initial_state 4) (Some sta_noise))) = [5; 6; 7; 8; 9].
Proof.
  destruct (poll (consumed initial_state 4) (Some sta_noise)) as [tr [st'|b]] eqn:E;
    [|vm_compute in E; discriminate].
  destruct (poll_reads_every_unread_line reference_builtins
              (consumed initial_state 4) sta_noise tr st') as [H _].
  - vm_compute. discriminate.
  - exact E.
  - simpl fst. rewrite H. reflexivity.
Defined.

(** X5. Over a whole session the column header is logged at most once: not
    at all while no record is logged, and otherwise exactly once, right
    before the first record. *)
Theorem column_header_logged_once (B : Builtins) :
  forall polls,
    header_shape (emitted (fst (monitor_job polls))) /\
    headers (emitted (fst (monitor_job polls))) =
    Nat.min 1 (records (emitted (fst (monitor_job polls)))).
Proof.
  intros polls. unfold monitor_job.
  destruct (monitor_loop initial_state polls) as [tr r] eqn:E.
  apply loop_header_ok in E. destruct E as [E _]. simpl in *.
  split; [exact E|apply header_shape_records; exact E].
Qed.

(** X6. Whatever the monitor logs as raw text is the stripped text of a
    line of one of the files polled; it is not empty, holds no completion
    marker, is not a header row in the sense of [_is_header_line] and does
    not start with [INSTANCE WITH CRITICAL] or [Output Field Frame]. So
    blank lines, header rows and lines with one of these two prefixes are
    never echoed. *)
Theorem raw_text_is_plain (B : Builtins) :
  forall polls s,
    In (LogLine s) (emitted (fst (monitor_job polls))) ->
    plain_text s /\ _should_skip_line s = false /\
    exists lines raw,
      In (Some lines) polls /\ In raw lines /\ s = Py.strip raw.
Proof.
  intros polls s H. apply in_emitted in H.
  destruct H as [H|(i & out & Hin & Hs)]; [discriminate|].
  rewrite job_unfold in Hin. cbn [fst] in Hin.
  destruct Hin as [Hin|Hin]; [discriminate|].
  apply loop_lines_from in Hin.
  destruct Hin as (lines & st' & raw & Hl & Hr & ->).
  apply line_plain_text in Hs. destruct Hs as [-> Hp].
  split; [exact Hp|]. split; [|exists lines, raw; auto].
  destruct Hp as (_ & _ & _ & _ & _ & [Hd|Hk]); [|exact Hk].
  destruct (_should_skip_line (Py.strip raw)) eqn:E; [|reflexivity].
  destruct (skip_not_classified _ E) as [_ Hn]. congruence.
Qed.

Lemma raw_text_is_plain_witness :
  In (LogLine "Restart information written")
     (emitted (fst (monitor_job [Some sta_noise]))) /\
  plain_text "Restart information written".
Proof.
  assert (In (LogLine "Restart information written")
             (emitted (fst (monitor_job [Some sta_noise])))) as H
    by (vm_compute; right; right; left; reflexivity).
  split; [exact H|].
  exact (proj1 (raw_text_is_plain reference_builtins [Some sta_noise] _ H)).
Defined.

(** X7. A line without completion marker that is blank once stripped, is a
    header row in the sense of [_is_header_line], or starts, once stripped,
    with [INSTANCE WITH CRITICAL] or [Output Field Frame], logs nothing and
    changes nothing but the index of the last line consumed. *)
Theorem suppressed_lines_only_advance (B : Builtins) :
  forall st i raw,
    marker_outcome raw = None ->
    Py.strip raw = EmptyString \/ _is_header_line (Py.strip raw) = true \/
    _should_skip_line (Py.strip raw) = true ->
    process_line st i raw = ([], inl (consumed st i)).
Proof. intros st i raw. apply process_line_suppressed. Qed.

Lemma suppressed_lines_only_advance_witness :
  process_line initial_state 7 (ln " Output Field Frame Number 1 written") =
  ([], inl (consumed initial_state 7)).
Proof.
  apply (suppressed_lines_only_advance reference_builtins).
  - reflexivity.
  - right. right. reflexivity.
Defined.

(** X8. While a session is still polling, [previous_ke] is the kinetic
    energy of the last record logged, the streak counter is 0, 1 or 2, the
    minimum is absent exactly while fewer than two records were logged, and
    [header_printed] says whether a record was logged. *)
Theorem locals_follow_the_records :
  (forall xs k,
     feed initial_ke xs = (k, None) ->
     previous_ke k = last_opt xs /\
     0 <= ke_increasing_count k <= 2 /\
     (min_ke k = None <-> (List.length xs <= 1)%nat)) /\
  (forall (B : Builtins) polls tr st,
     monitor_job polls = (tr, inl st) ->
     previous_ke (ke st) = last_opt (samples tr) /\
     0 <= ke_increasing_count (ke st) <= 2 /\
     (min_ke (ke st) = None <-> (List.length (samples tr) <= 1)%nat) /\
     header_printed st = (0 <? records (emitted tr))%nat).
Proof.
  split; [exact feed_locals|].
  intros B polls tr st H. apply job_loop in H.
  destruct H as (tr' & -> & H).
  rewrite samples_sleep, emitted_sleep.
  pose proof (loop_ok _ _ _ _ H) as [Hf _].
  pose proof (loop_header_ok _ _ _ _ H) as [_ Hh].
  destruct (feed_locals _ _ Hf) as (H1 & H2 & H3).
  split; [exact H1|]. split; [exact H2|]. split; [exact H3|exact Hh].
Qed.

Lemma locals_follow_the_records_witness :
  previous_ke (fst (feed initial_ke (map fl [10; 8; 6; 7]))) = Some (fl 7).
Proof.
  destruct (feed initial_ke (map fl [10; 8; 6; 7])) as [k r] eqn:E.
  destruct r as [n|]; [vm_compute in E; discriminate|].
  destruct (proj1 locals_follow_the_records _ _ E) as [H _].
  simpl fst. rewrite H. reflexivity.
Defined.

(** X9. The minimum never increases: once present it stays present, and a
    later value of it is the same float or one strictly below. *)
Theorem minimum_never_increases :
  (forall xs k m,
     min_ke k = Some m ->
     exists m',
       min_ke (fst (feed k xs)) = Some m' /\ (m' = m \/ flt m' m = true)) /\
  (forall (B : Builtins) st polls tr st' m,
     monitor_loop st polls = (tr, inl st') ->
     min_ke (ke st) = Some m ->
     exists m',
       min_ke (ke st') = Some m' /\ (m' = m \/ flt m' m = true)).
Proof.
  split; [exact feed_min_decreases|].
  intros B st polls tr st' m H Hm.
  apply loop_ok in H. destruct H as [Hf _].
  destruct (feed_min_decreases (samples tr) _ _ Hm) as (m' & Hm' & Hrel).
  rewrite Hf in Hm'. exists m'. auto.
Qed.

Lemma minimum_never_increases_witness :
  exists m',
    min_ke (fst (feed {| previous_ke := Some (fl 8); min_ke := Some (fl 8);
                         ke_increasing_count := 0 |} (map fl [9; 6; 7])))
    = Some m' /\ (m' = fl 8 \/ flt m' (fl 8) = true).
Proof.
  apply (proj1 minimum_never_increases). reflexivity.
Defined.

(** X10. NaN kinetic energies: a NaN sample, once a minimum is known, never
    stops the session and resets the streak to 0; so does any sample that
    follows a NaN; and when the second sample of a session is NaN the
    minimum is NaN for the rest of the session. *)
Theorem nan_samples_reset_and_stick :
  (forall k p m,
     previous_ke k = Some p -> min_ke k = Some m ->
     track_ke k S754_nan =
     ([], {| previous_ke := Some S754_nan; min_ke := Some m;
             ke_increasing_count := 0 |}, false)) /\
  (forall k m x,
     previous_ke k = Some S754_nan -> min_ke k = Some m ->
     snd (track_ke k x) = false /\
     ke_increasing_count (snd (fst (track_ke k x))) = 0) /\
  (forall x rest,
     min_ke (fst (feed initial_ke (x :: S754_nan :: rest))) = Some S754_nan).
Proof.
  split; [|split].
  - intros k p m Hp Hm. unfold track_ke, _check_ke_minimum.
    rewrite Hp, Hm, flt_nan_l, fgt_flt, flt_nan_r. reflexivity.
  - intros k m x Hp Hm. unfold track_ke, _check_ke_minimum.
    rewrite Hp, Hm, fgt_flt, flt_nan_l.
    destruct (flt x m); split; reflexivity.
  - intros x rest. rewrite feed_initial_cons, feed_cons.
    change (track_ke {| previous_ke := Some x; min_ke := None;
                        ke_increasing_count := 0 |} S754_nan)
      with (@nil emission,
            {| previous_ke := Some S754_nan; min_ke := Some S754_nan;
               ke_increasing_count := 0 |}, false).
    cbv beta iota.
    destruct (feed_min_decreases rest
                {| previous_ke := Some S754_nan; min_ke := Some S754_nan;
                   ke_increasing_count := 0 |} S754_nan eq_refl)
      as (m' & Hm' & [->|Hlt]).
    + destruct (feed _ rest) as [k r]. exact Hm'.
    + rewrite flt_nan_r in Hlt. discriminate.
Qed.

Lemma nan_samples_reset_and_stick_witness :
  track_ke {| previous_ke := Some (fl 9); min_ke := Some (fl 6);
              ke_increasing_count := 2 |} S754_nan =
  ([], {| previous_ke := Some S754_nan; min_ke := Some (fl 6);
          ke_increasing_count := 0 |}, false).
Proof.
  apply (proj1 nan_samples_reset_and_stick _ (fl 9) (fl 6)); reflexivity.
Defined.

(** X11. A session that returned ends with the line that made it return:
    nothing logged before that line announces an end, [False] is returned
    only for a line that logs the failure notice, and [True] only for a
    line that logs the success notice or the early stop. *)
Theorem return_has_a_cause (B : Builtins) :
  forall polls tr b,
    monitor_job polls = (tr, inr b) ->
    exists tr0 i out,
      tr = tr0 ++ [Line i out] /\ quiet (emitted tr0) /\
      (b = false -> out = [LogNotCompleted]) /\
      (b = true -> out = [LogCompleted] \/ In LogStopping out).
Proof.
  intros polls tr b H. apply job_ok in H.
  destruct H as (tr0 & i & out & k0 & -> & Hq & _ & He).
  exists tr0, i, out. split; [reflexivity|]. split; [exact Hq|].
  destruct He as [[-> ->] | [[-> ->] | [-> (h & d & m & -> & _ & _)]]].
  - split; [discriminate|auto].
  - split; [auto|discriminate].
  - split; [discriminate|]. intros _. right.
    apply in_or_app. right. right. right. left. reflexivity.
Qed.

Lemma return_has_a_cause_witness :
  exists tr0 i out,
    fst (monitor_job [Some (sta_head ++ [aborted_line])]) = tr0 ++ [Line i out] /\
    quiet (emitted tr0) /\
    (false = false -> out = [LogNotCompleted]) /\
    (false = true -> out = [LogCompleted] \/ In LogStopping out).
Proof.
  destruct (monitor_job [Some (sta_head ++ [aborted_line])]) as [tr r] eqn:E.
  destruct r as [st|[|]]; try (vm_compute in E; discriminate).
  exact (return_has_a_cause reference_builtins _ _ _ E).
Defined.

(** X12. The monitor logs a waiting notice for a failed poll and for
    nothing else: a session has at most as many as there were failed polls,
    exactly as many while it is still polling, and no line of the file ever
    logs one. *)
Theorem waiting_notices_count_failed_polls (B : Builtins) :
  forall polls,
    (waits (fst (monitor_job polls)) <= missing_polls polls)%nat /\
    (forall st, snd (monitor_job polls) = inl st ->
       waits (fst (monitor_job polls)) = missing_polls polls) /\
    (forall i out, In (Line i out) (fst (monitor_job polls)) ->
       ~ In LogWaiting out).
Proof.
  intros polls. rewrite job_unfold. cbn [fst snd].
  change (waits (Sleep 5 :: fst (monitor_loop initial_state polls)))
    with (waits (fst (monitor_loop initial_state polls))).
  destruct (loop_waits polls initial_state) as [H1 H2].
  split; [exact H1|]. split; [exact H2|].
  intros i out [Hin|Hin]; [discriminate|].
  apply (loop_lines_all (fun out => ~ In LogWaiting out))
    with (polls := polls) (st := initial_state) (e := i); [|exact Hin].
  intros st j raw. apply line_no_waiting.
Qed.

Lemma waiting_notices_count_failed_polls_witness :
  waits (fst (monitor_job [None; Some sta_head; None; Some sta_head])) = 2%nat.
Proof.
  destruct (monitor_job [None; Some sta_head; None; Some sta_head])
    as [tr [st|b]] eqn:E; [|vm_compute in E; discriminate].
  pose proof (proj1 (proj2 (waiting_notices_count_failed_polls
                              reference_builtins
                              [None; Some sta_head; None; Some sta_head]))) as H.
  rewrite E in H. exact (H st eq_refl).
Defined.

(** * Further properties: the model input *)

Lemma filter_seq_shift (f : nat -> bool) n :
  List.length (filter f (seq 1 n)) =
  List.length (filter (fun i => f (S i)) (seq 0 n)).
Proof.
  rewrite <- seq_shift. induction (seq 0 n) as [|i l IH]; [reflexivity|].
  simpl. destruct (f (S i)); simpl; rewrite IH; reflexivity.
Qed.

Lemma changes_cons a b rest :
  changes (a :: b :: rest) =
  ((if (a =? b)%Z then 0 else 1) + changes (b :: rest))%nat.
Proof. reflexivity. Qed.

Lemma filter_seq_first (f : nat -> bool) n :
  filter f (seq 0 (S n)) =
  (if f 0%nat then [0%nat] else []) ++ filter f (seq 1 n).
Proof. cbn [seq filter]. destruct (f 0%nat); reflexivity. Qed.

Lemma count_changes ang :
  List.length
    (filter (fun i => negb (nth i ang 0 =? nth (i + 1) ang 0))
       (seq 0 (List.length ang - 1)))
  = changes ang.
Proof.
  induction ang as [|a ang IH]; [reflexivity|].
  destruct ang as [|b rest]; [reflexivity|].
  replace (List.length (a :: b :: rest) - 1)%nat
    with (S (List.length (b :: rest) - 1))
    by (cbn [List.length]; lia).
  assert (List.length
            (filter (fun i => negb (nth i (a :: b :: rest) 0
                                    =? nth (i + 1) (a :: b :: rest) 0))
               (seq 1 (List.length (b :: rest) - 1)))
          = changes (b :: rest)) as E.
  { rewrite (filter_seq_shift
               (fun i => negb (nth i (a :: b :: rest) 0
                               =? nth (i + 1) (a :: b :: rest) 0))).
    exact IH. }
  rewrite filter_seq_first, length_app, E.
  change (nth 0 (a :: b :: rest) 0) with a.
  change (nth (0 + 1) (a :: b :: rest) 0) with b.
  rewrite changes_cons. destruct (a =? b); reflexivity.
Qed.

Lemma changes_bound ang : (changes ang <= List.length ang - 1)%nat.
Proof.
  induction ang as [|a ang IH]; [reflexivity|].
  destruct ang as [|b rest]; [reflexivity|].
  rewrite changes_cons. cbn [List.length] in *. destruct (a =? b); lia.
Qed.

Lemma changes_zero ang :
  changes ang = 0%nat <-> forall a b, In a ang -> In b ang -> a = b.
Proof.
  induction ang as [|a ang IH].
  - split; [intros _ a b []|reflexivity].
  - destruct ang as [|b rest].
    + split; [|reflexivity]. intros _ x y [<-|[]] [<-|[]]. reflexivity.
    + rewrite changes_cons. destruct (Z.eqb_spec a b) as [->|Hne].
      * rewrite Nat.add_0_l, IH. split.
        -- intros H x y Hx Hy.
           assert (forall z, In z (b :: b :: rest) -> In z (b :: rest)) as Hin
             by (intros z [<-|Hz]; [left; reflexivity|exact Hz]).
           apply H; apply Hin; assumption.
        -- intros H x y Hx Hy. apply H; right; assumption.
      * split; [lia|]. intros H. exfalso. apply Hne.
        apply H; [left; reflexivity|right; left; reflexivity].
Qed.

Lemma changes_snoc ang a b :
  changes (ang ++ [a; b]) =
  (changes (ang ++ [a]) + if (a =? b)%Z then 0 else 1)%nat.
Proof.
  induction ang as [|x ang IH].
  - simpl. lia.
  - destruct ang as [|y rest].
    + simpl. lia.
    + change ((x :: y :: rest) ++ [a; b]) with (x :: (y :: rest) ++ [a; b]).
      change ((x :: y :: rest) ++ [a]) with (x :: (y :: rest) ++ [a]).
      change ((y :: rest) ++ [a; b]) with (y :: rest ++ [a; b]) in *.
      change ((y :: rest) ++ [a]) with (y :: rest ++ [a]) in *.
      rewrite !(changes_cons x y), IH. lia.
Qed.

Lemma changes_rev ang : changes (rev ang) = changes ang.
Proof.
  induction ang as [|a ang IH]; [reflexivity|].
  destruct ang as [|b rest]; [reflexivity|].
  cbn [rev] in *. rewrite <- app_assoc. cbn [app].
  rewrite changes_snoc, IH, changes_cons, (Z.eqb_sym b a). lia.
Qed.

Lemma has_char_app c a b :
  has_char c (String.append a b) = has_char c a || has_char c b.
Proof.
  induction a as [|x a IH]; [reflexivity|].
  simpl. rewrite IH. apply orb_assoc.
Qed.

Lemma job_name_split s1 : forall s2 u1 u2,
  has_char "_" u1 = false -> has_char "_" u2 = false ->
  String.append s1 (String "_" u1) = String.append s2 (String "_" u2) ->
  s1 = s2 /\ u1 = u2.
Proof.
  induction s1 as [|c s1 IH]; intros [|d s2] u1 u2 H1 H2 E; simpl in E.
  - inversion E. auto.
  - inversion E; subst. rewrite has_char_app in H1. simpl in H1.
    rewrite orb_true_r in H1. discriminate.
  - inversion E; subst. rewrite has_char_app in H2. simpl in H2.
    rewrite orb_true_r in H2. discriminate.
  - inversion E; subst. destruct (IH _ _ _ H1 H2 H3) as [-> ->]. auto.
Qed.

(** X13. The number of cohesive layers is never negative and never
    reaches the number of plies: it is at most one less, and 0 for a layup
    of no ply or a single ply. *)
Theorem n_coh_below_n_ply :
  forall m,
    0 <= ModelInput.n_coh m <= Z.max 0 (ModelInput.n_ply m - 1).
Proof.
  intros m. unfold ModelInput.n_coh, ModelInput.n_ply, Py.len.
  rewrite count_changes. pose proof (changes_bound (ModelInput.ply_angles m)).
  lia.
Qed.

(** X14. The number of cohesive layers is 0 exactly when all plies have the
    same angle, and a layup turned upside down has as many cohesive layers
    as the layup itself. *)
Theorem n_coh_zero_iff_uniform :
  (forall m,
     ModelInput.n_coh m = 0 <->
     forall a b,
       In a (ModelInput.ply_angles m) -> In b (ModelInput.ply_angles m) ->
       a = b) /\
  (forall m m',
     ModelInput.ply_angles m' = rev (ModelInput.ply_angles m) ->
     ModelInput.n_coh m' = ModelInput.n_coh m).
Proof.
  split.
  - intros m. unfold ModelInput.n_coh, Py.len.
    rewrite count_changes, <- changes_zero. lia.
  - intros m m' E. unfold ModelInput.n_coh, Py.len.
    rewrite !count_changes, E, changes_rev. reflexivity.
Qed.

Lemma n_coh_zero_iff_uniform_witness :
  ModelInput.n_coh (example_input "s" "1" [90; 45; 45; 0]) =
  ModelInput.n_coh (example_input "s" "2" [0; 45; 45; 90]).
Proof.
  apply (proj2 n_coh_zero_iff_uniform). reflexivity.
Defined.

(** X15. Job names tell configurations apart: two configurations whose
    uids hold no underscore, as the decimal case numbers do, have the same
    job name only when they have the same study name and the same uid.
    Without that condition two different pairs can share a job name. *)
Theorem job_name_injective :
  (forall m1 m2,
     has_char "_" (ModelInput.uid m1) = false ->
     has_char "_" (ModelInput.uid m2) = false ->
     ModelInput.job_name m1 = ModelInput.job_name m2 ->
     ModelInput.study m1 = ModelInput.study m2 /\
     ModelInput.uid m1 = ModelInput.uid m2) /\
  ModelInput.job_name (example_input "a_b" "c" []) =
  ModelInput.job_name (example_input "a" "b_c" []).
Proof.
  split; [|reflexivity].
  intros m1 m2 H1 H2 E. unfold ModelInput.job_name in E.
  apply (job_name_split _ _ _ _ H1 H2 E).
Qed.

Lemma job_name_injective_witness :
  ModelInput.job_name (example_input "impact_study" "12" [0; 45]) =
  "impact_study_12" /\
  "impact_study" = "impact_study" /\ "12" = "12".
Proof.
  split; [reflexivity|].
  apply (proj1 job_name_injective
           (example_input "impact_study" "12" [0; 45])
           (example_input "impact_study" "12" [45; 0])); reflexivity.
Defined.

(** * Further properties: the layer stack *)

Lemma stack_from_shape angles : forall z thk layers,
  Geometry.stack_from z angles thk = Some layers ->
  List.length layers = List.length angles /\
  Forall (fun l => Geometry.type l = "ply" /\ Geometry.thk l = thk /\
                   Geometry.z_top l = Geometry.fadd (Geometry.z_bot l) thk /\
                   Geometry.z_mid l =
                     Geometry.fadd (Geometry.z_bot l)
                       (Geometry.fmul Geometry.half thk))
         layers /\
  map Some (map Geometry.ang layers) = map Geometry.float_of_int angles /\
  (forall l rest, layers = l :: rest -> Geometry.z_bot l = z) /\
  Geometry.contiguous layers.
Proof.
  induction angles as [|a angles IH]; intros z thk layers H.
  - inversion H; subst. simpl. repeat split; auto. intros l rest [=].
  - simpl in H. destruct (Geometry.float_of_int a) as [fa|] eqn:Ea;
      [|discriminate].
    destruct (Geometry.stack_from (Geometry.fadd z thk) angles thk)
      as [ls|] eqn:Es; [|discriminate].
    inversion H; subst; clear H.
    destruct (IH _ _ _ Es) as (Hlen & Hall & Hang & Hfirst & Hcont).
    split; [simpl; rewrite Hlen; reflexivity|].
    split; [constructor; [simpl; auto|exact Hall]|].
    split; [simpl; rewrite Ea, Hang; reflexivity|].
    split; [intros l rest [= <- _]; reflexivity|].
    destruct ls as [|l2 rest]; [exact I|].
    split; [|exact Hcont]. simpl. symmetry. eapply Hfirst. reflexivity.
Qed.

Lemma stack_from_fails angles : forall z thk,
  Geometry.stack_from z angles thk = None <->
  exists a, In a angles /\ Geometry.float_of_int a = None.
Proof.
  induction angles as [|a angles IH]; intros z thk; simpl.
  - split; [discriminate|intros (a & [] & _)].
  - destruct (Geometry.float_of_int a) as [fa|] eqn:Ea.
    + destruct (Geometry.stack_from (Geometry.fadd z thk) angles thk)
        as [ls|] eqn:Es.
      * split; [discriminate|]. intros (b & [<-|Hb] & Eb); [congruence|].
        assert (Geometry.stack_from (Geometry.fadd z thk) angles thk = None)
          as Hn by (apply IH; eauto).
        congruence.
      * split; [|reflexivity]. intros _.
        apply IH in Es. destruct Es as (b & Hb & Eb). eauto.
    + split; [|reflexivity]. intros _. exists a. auto.
Qed.

(** X16. The layer stack has one layer per ply and only plies: every layer
    has type "ply", the ply thickness and the angle of its ply as a float,
    in the order of the layup; the cohesive thickness plays no part. The
    layers are stacked without gap or overlap: the first starts at 0.0,
    each ends at its bottom plus the ply thickness, its mid-plane is its
    bottom plus half the thickness, and the next layer starts exactly where
    it ends. *)
Theorem layer_stack_is_contiguous :
  forall ply_angles ply_thk coh_thk layers,
    Geometry.calculate_layer_stack ply_angles ply_thk coh_thk = Some layers ->
    List.length layers = List.length ply_angles /\
    Forall (fun l => Geometry.type l = "ply" /\ Geometry.thk l = ply_thk /\
                     Geometry.z_top l =
                       Geometry.fadd (Geometry.z_bot l) ply_thk /\
                     Geometry.z_mid l =
                       Geometry.fadd (Geometry.z_bot l)
                         (Geometry.fmul Geometry.half ply_thk))
           layers /\
    map Some (map Geometry.ang layers) =
      map Geometry.float_of_int ply_angles /\
    (forall l rest, layers = l :: rest ->
       Geometry.z_bot l = S754_zero false) /\
    Geometry.contiguous layers /\
    forall coh_thk',
      Geometry.calculate_layer_stack ply_angles ply_thk coh_thk' = Some layers.
Proof.
  intros ply_angles ply_thk coh_thk layers H.
  unfold Geometry.calculate_layer_stack in *.
  destruct (stack_from_shape _ _ _ _ H) as (H1 & H2 & H3 & H4 & H5).
  repeat split; auto.
Qed.

Lemma layer_stack_is_contiguous_witness :
  exists layers,
    Geometry.calculate_layer_stack [0; 45; 90] (fl 2) (fl 0) = Some layers /\
    map Geometry.z_bot layers = [S754_zero false; fl 2; fl 4] /\
    Geometry.contiguous layers.
Proof.
  destruct (Geometry.calculate_layer_stack [0; 45; 90] (fl 2) (fl 0))
    as [layers|] eqn:E; [|vm_compute in E; discriminate].
  exists layers. split; [reflexivity|].
  split; [vm_compute in E; inversion E; subst; vm_compute; reflexivity|].
  apply (layer_stack_is_contiguous [0; 45; 90] (fl 2) (fl 0) layers E).
Defined.

(** X17. The layer stack is built for every layup whose angles have a
    float: [calculate_layer_stack] raises exactly when the conversion of
    one of the angles overflows, and an empty layup gives an empty stack. *)
Theorem layer_stack_fails_only_on_overflow :
  forall ply_angles ply_thk coh_thk,
    (Geometry.calculate_layer_stack ply_angles ply_thk coh_thk = None <->
     exists a, In a ply_angles /\ Geometry.float_of_int a = None) /\
    Geometry.calculate_layer_stack [] ply_thk coh_thk = Some [].
Proof.
  intros ply_angles ply_thk coh_thk. split; [|reflexivity].
  apply stack_from_fails.
Qed.

(** * Further properties: the logger *)

Lemma read_open_same path files :
  Logger.read path (Logger.open_w path files) = Some [].
Proof. unfold Logger.open_w. simpl. rewrite String.eqb_refl. reflexivity. Qed.

Lemma read_open_other p path files :
  p <> path ->
  Logger.read p (Logger.open_w path files) = Logger.read p files.
Proof.
  intros H. unfold Logger.open_w. simpl.
  destruct (String.eqb_spec path p); [congruence|reflexivity].
Qed.

Lemma read_write_same path m files content :
  Logger.read path files = Some content ->
  Logger.read path (Logger.write path m files) = Some (content ++ [m]).
Proof.
  induction files as [|[p c] rest IH]; [discriminate|]. simpl.
  destruct (String.eqb_spec p path) as [->|Hne].
  - intros [= ->]. simpl. rewrite String.eqb_refl. reflexivity.
  - intros H. simpl. destruct (String.eqb_spec p path); [congruence|auto].
Qed.

Lemma read_write_other p path m files :
  p <> path ->
  Logger.read p (Logger.write path m files) = Logger.read p files.
Proof.
  intros H. induction files as [|[q c] rest IH]; simpl.
  - destruct (String.eqb_spec path p); [congruence|reflexivity].
  - destruct (String.eqb_spec q path) as [->|Hne]; simpl.
    + destruct (String.eqb_spec path p); [congruence|reflexivity].
    + destruct (String.eqb_spec q p); [reflexivity|exact IH].
Qed.

(** Logging to an open logger appends the messages to its file and touches
    no other file. *)
Lemma log_all_open self ms : forall files content,
  Logger.closed self = false ->
  Logger.read (Logger.log_path self) files = Some content ->
  exists files',
    Logger.log_all self ms files = Some files' /\
    Logger.read (Logger.log_path self) files' = Some (content ++ ms) /\
    forall p, p <> Logger.log_path self ->
      Logger.read p files' = Logger.read p files.
Proof.
  induction ms as [|m ms IH]; intros files content Ho Hr.
  - exists files. rewrite app_nil_r. auto.
  - simpl. unfold Logger.log. rewrite Ho.
    destruct (IH (Logger.write (Logger.log_path self) m files)
                 (content ++ [m]) Ho (read_write_same _ _ _ _ Hr))
      as (files' & Hl & Hc & Ho').
    exists files'. split; [exact Hl|]. split.
    + rewrite Hc, <- app_assoc. reflexivity.
    + intros p Hp. rewrite (Ho' p Hp). apply read_write_other. exact Hp.
Qed.

Lemma new_logger join dir name started files :
  exists self files',
    Logger.new join dir name started files = Some (self, files') /\
    Logger.log_path self = join dir name /\ Logger.closed self = false /\
    Logger.read (join dir name) files' = Some (Logger.header started) /\
    forall p, p <> join dir name ->
      Logger.read p files' = Logger.read p files.
Proof.
  unfold Logger.new.
  set (self := {| Logger.log_path := join dir name; Logger.closed := false |}).
  destruct (log_all_open self (Logger.header started)
              (Logger.open_w (join dir name) files) [] eq_refl
              (read_open_same _ _)) as (files' & Hl & Hc & Ho).
  change (Logger.log_path self) with (join dir name) in *.
  rewrite Hl. exists self, files'. repeat split; auto.
  intros p Hp. rewrite (Ho p Hp). apply read_open_other. exact Hp.
Qed.

Lemma close_open self ended files content :
  Logger.closed self = false ->
  Logger.read (Logger.log_path self) files = Some content ->
  exists self' files',
    Logger.close self ended files = Some (self', files') /\
    Logger.closed self' = true /\
    Logger.read (Logger.log_path self) files' =
      Some (content ++ Logger.footer ended) /\
    forall p, p <> Logger.log_path self ->
      Logger.read p files' = Logger.read p files.
Proof.
  intros Ho Hr. unfold Logger.close. rewrite Ho. simpl negb. cbv iota.
  destruct (log_all_open self (Logger.footer ended) files content Ho Hr)
    as (files' & Hl & Hc & Ho').
  rewrite Hl. eexists _, files'. repeat split; auto.
Qed.

Lemma log_func_open w self m content :
  Logger._logger w = Some self -> Logger.closed self = false ->
  Logger.read (Logger.log_path self) (Logger.files w) = Some content ->
  exists w',
    Logger.log_func m w = Some w' /\ Logger._logger w' = Some self /\
    Logger.read (Logger.log_path self) (Logger.files w') =
      Some (content ++ [m]) /\
    forall p, p <> Logger.log_path self ->
      Logger.read p (Logger.files w') = Logger.read p (Logger.files w).
Proof.
  intros Hl Ho Hr. unfold Logger.log_func, Logger.log. rewrite Hl, Ho.
  eexists. split; [reflexivity|]. simpl. split; [reflexivity|].
  split; [apply read_write_same; exact Hr|].
  intros p Hp. apply read_write_other. exact Hp.
Qed.

Lemma log_funcs_open join msgs : forall w self content rest,
  Logger._logger w = Some self -> Logger.closed self = false ->
  Logger.read (Logger.log_path self) (Logger.files w) = Some content ->
  exists w',
    Logger.run join (map Logger.LogFunc msgs ++ rest) w = Logger.run join rest w' /\
    Logger._logger w' = Some self /\
    Logger.read (Logger.log_path self) (Logger.files w') =
      Some (content ++ msgs) /\
    forall p, p <> Logger.log_path self ->
      Logger.read p (Logger.files w') = Logger.read p (Logger.files w).
Proof.
  induction msgs as [|m msgs IH]; intros w self content rest Hl Ho Hr.
  - exists w. rewrite app_nil_r. auto.
  - destruct (log_func_open w self m content Hl Ho Hr)
      as (w1 & H1 & Hl1 & Hr1 & Ho1).
    destruct (IH w1 self (content ++ [m]) rest Hl1 Ho Hr1)
      as (w' & H' & Hl' & Hr' & Ho').
    exists w'. simpl. rewrite H1. split; [exact H'|].
    split; [exact Hl'|]. split.
    + rewrite Hr', <- app_assoc. reflexivity.
    + intros p Hp. rewrite (Ho' p Hp). apply Ho1. exact Hp.
Qed.

Lemma well_formed_call join c w :
  Logger.well_formed w ->
  exists w', Logger.run_call join c w = Some w' /\ Logger.well_formed w'.
Proof.
  unfold Logger.well_formed. intros Hw.
  destruct c as [d f e s|m|t|e]; simpl.
  - unfold Logger.init_logger.
    destruct (Logger._logger w) as [old|] eqn:El.
    + destruct Hw as [Ho Hr].
      destruct (Logger.read (Logger.log_path old) (Logger.files w))
        as [c|] eqn:Er; [|congruence].
      destruct (close_open old e _ _ Ho Er) as (o' & fs' & -> & _).
      destruct (new_logger join d f s fs')
        as (self & fs2 & -> & Hp & Hc & Hr2 & _).
      eexists. split; [reflexivity|]. simpl. rewrite Hp, Hr2.
      split; [exact Hc|discriminate].
    + destruct (new_logger join d f s (Logger.files w))
        as (self & fs2 & -> & Hp & Hc & Hr2 & _).
      eexists. split; [reflexivity|]. simpl. rewrite Hp, Hr2.
      split; [exact Hc|discriminate].
  - destruct (Logger._logger w) as [self|] eqn:El.
    + destruct Hw as [Ho Hr].
      destruct (Logger.read (Logger.log_path self) (Logger.files w))
        as [c|] eqn:Er; [|congruence].
      destruct (log_func_open w self m c El Ho Er) as (w' & -> & Hl & Hr' & _).
      exists w'. split; [reflexivity|]. rewrite Hl, Hr'.
      split; [exact Ho|discriminate].
    + exists w. unfold Logger.log_func. rewrite El. split; [reflexivity|].
      try rewrite El. exact I.
  - unfold Logger.log_section, Logger.section.
    destruct (Logger._logger w) as [self|] eqn:El.
    + destruct Hw as [Ho Hr].
      destruct (Logger.read (Logger.log_path self) (Logger.files w))
        as [c|] eqn:Er; [|congruence].
      destruct (log_all_open self [EmptyString; Logger.bar; t; Logger.bar]
                  _ _ Ho Er) as (fs' & -> & Hc & _).
      eexists. split; [reflexivity|]. simpl. rewrite Hc.
      split; [exact Ho|discriminate].
    + exists w. split; [reflexivity|]. try rewrite El. exact I.
  - unfold Logger.close_logger.
    destruct (Logger._logger w) as [self|] eqn:El.
    + destruct Hw as [Ho Hr].
      destruct (Logger.read (Logger.log_path self) (Logger.files w))
        as [c|] eqn:Er; [|congruence].
      destruct (close_open self e _ _ Ho Er) as (o' & fs' & -> & _).
      eexists. split; [reflexivity|]. exact I.
    + exists w. split; [reflexivity|]. try rewrite El. exact I.
Qed.

(** X18. From a world without logger, [init_logger], any number of
    [log_func] calls and [close_logger] leave a log file that holds the
    header, then the messages in the order they were logged, then the
    footer; the logger is gone afterwards and no other file was touched. *)
Theorem log_file_of_a_session :
  forall join w dir name ended0 started msgs ended,
    Logger._logger w = None ->
    exists w',
      Logger.run join
        (Logger.InitLogger dir name ended0 started ::
         map Logger.LogFunc msgs ++ [Logger.CloseLogger ended]) w = Some w' /\
      Logger.read (join dir name) (Logger.files w') =
        Some (Logger.header started ++ msgs ++ Logger.footer ended) /\
      Logger._logger w' = None /\
      forall p, p <> join dir name ->
        Logger.read p (Logger.files w') = Logger.read p (Logger.files w).
Proof.
  intros join w dir name ended0 started msgs ended Hn.
  cbn [Logger.run Logger.run_call]. unfold Logger.init_logger. rewrite Hn.
  destruct (new_logger join dir name started (Logger.files w))
    as (self & fs1 & -> & Hp & Hc & Hr & Ho).
  set (w1 := {| Logger.files := fs1; Logger._logger := Some self |}).
  assert (Logger.read (Logger.log_path self) (Logger.files w1) =
          Some (Logger.header started)) as Hr1 by (rewrite Hp; exact Hr).
  destruct (log_funcs_open join msgs w1 self _ [Logger.CloseLogger ended]
              eq_refl Hc Hr1) as (w2 & -> & Hl2 & Hr2 & Ho2).
  cbn [Logger.run Logger.run_call]. unfold Logger.close_logger. rewrite Hl2.
  destruct (close_open self ended _ _ Hc Hr2) as (o' & fs3 & -> & _ & Hr3 & Ho3).
  eexists. split; [reflexivity|]. simpl. rewrite Hp in *.
  split; [rewrite Hr3, <- app_assoc; reflexivity|].
  split; [reflexivity|].
  intros p Hne. rewrite (Ho3 p Hne), (Ho2 p Hne). apply Ho. exact Hne.
Qed.

Lemma log_file_of_a_session_witness :
  exists w',
    Logger.run join_slash
      (Logger.InitLogger "out" "log.txt" "" "2025-05-05 10:00:00" ::
       map Logger.LogFunc ["first"; "second"] ++
       [Logger.CloseLogger "2025-05-05 11:00:00"])
      {| Logger.files := []; Logger._logger := None |} = Some w' /\
    Logger.read "out/log.txt" (Logger.files w') =
      Some (Logger.header "2025-05-05 10:00:00" ++ ["first"; "second"] ++
            Logger.footer "2025-05-05 11:00:00").
Proof.
  destruct (log_file_of_a_session join_slash
              {| Logger.files := []; Logger._logger := None |}
              "out" "log.txt" "" "2025-05-05 10:00:00" ["first"; "second"]
              "2025-05-05 11:00:00" eq_refl) as (w' & Hrun & Hread & _).
  exists w'. split; [exact Hrun|exact Hread].
Defined.

(** X19. The module never writes to a closed file. With a file system on
    which opening and writing succeed, the one error left is a write to a
    closed file, and no sequence of calls reaches it: in a world where the
    logger, if there is one, is open, every sequence of [init_logger],
    [log_func], [log_section] and [close_logger] calls runs through and
    leaves such a world; and without a logger, logging and closing change
    nothing. *)
Theorem logger_calls_never_raise :
  (forall join calls w,
     Logger.well_formed w ->
     exists w', Logger.run join calls w = Some w' /\ Logger.well_formed w') /\
  (forall w m t e,
     Logger._logger w = None ->
     Logger.log_func m w = Some w /\ Logger.log_section t w = Some w /\
     Logger.close_logger e w = Some w).
Proof.
  split.
  - intros join calls. induction calls as [|c calls IH]; intros w Hw.
    + exists w. auto.
    + destruct (well_formed_call join c w Hw) as (w1 & H1 & Hw1).
      destruct (IH w1 Hw1) as (w' & H' & Hw').
      exists w'. simpl. rewrite H1. auto.
  - intros w m t e Hn.
    unfold Logger.log_func, Logger.log_section, Logger.close_logger.
    rewrite Hn. auto.
Qed.

Lemma logger_calls_never_raise_witness :
  exists w',
    Logger.run join_slash
      [Logger.LogFunc "early"; Logger.InitLogger "out" "log.txt" "t0" "t1";
       Logger.LogSection "MODEL REPORT"; Logger.InitLogger "out" "log.txt" "t2" "t3";
       Logger.CloseLogger "t4"; Logger.CloseLogger "t5"]
      {| Logger.files := []; Logger._logger := None |} = Some w' /\
    Logger.well_formed w'.
Proof.
  apply (proj1 logger_calls_never_raise). exact I.
Defined.

(** X20. [init_logger] while a logger is open closes that one first: its
    file gets the footer when the new log file is another file, and when
    the new log file is the same file everything logged before is lost,
    the file holding the new header only. *)
Theorem init_logger_again :
  forall join w old content dir name ended started,
    Logger._logger w = Some old -> Logger.closed old = false ->
    Logger.read (Logger.log_path old) (Logger.files w) = Some content ->
    exists w' self,
      Logger.init_logger join dir name ended started w = Some w' /\
      Logger._logger w' = Some self /\
      Logger.log_path self = join dir name /\ Logger.closed self = false /\
      Logger.read (join dir name) (Logger.files w') =
        Some (Logger.header started) /\
      (Logger.log_path old <> join dir name ->
       Logger.read (Logger.log_path old) (Logger.files w') =
         Some (content ++ Logger.footer ended)).
Proof.
  intros join w old content dir name ended started Hl Ho Hr.
  unfold Logger.init_logger. rewrite Hl.
  destruct (close_open old ended _ _ Ho Hr) as (o' & fs1 & -> & _ & Hr1 & _).
  destruct (new_logger join dir name started fs1)
    as (self & fs2 & -> & Hp & Hc & Hr2 & Ho2).
  eexists _, self. split; [reflexivity|]. simpl.
  repeat split; auto.
  intros Hne. rewrite (Ho2 _ Hne). exact Hr1.
Qed.

Lemma init_logger_again_witness :
  exists w,
    Logger.run join_slash
      [Logger.InitLogger "out" "log.txt" "" "t1"; Logger.LogFunc "lost";
       Logger.InitLogger "out" "log.txt" "t2" "t3"]
      {| Logger.files := []; Logger._logger := None |} = Some w /\
    Logger.read "out/log.txt" (Logger.files w) = Some (Logger.header "t3").
Proof.
  destruct (Logger.run join_slash
              [Logger.InitLogger "out" "log.txt" "" "t1"; Logger.LogFunc "lost"]
              {| Logger.files := []; Logger._logger := None |})
    as [w1|] eqn:E1; [|vm_compute in E1; discriminate].
  destruct (init_logger_again join_slash w1
              {| Logger.log_path := "out/log.txt"; Logger.closed := false |}
              (Logger.header "t1" ++ ["lost"]) "out" "log.txt" "t2" "t3")
    as (w' & self & Hinit & _ & _ & _ & Hread & _).
  - vm_compute in E1. inversion E1; subst. reflexivity.
  - reflexivity.
  - vm_compute in E1. inversion E1; subst. reflexivity.
  - exists w'. split; [|exact Hread].
    change [Logger.InitLogger "out" "log.txt" "" "t1"; Logger.LogFunc "lost";
            Logger.InitLogger "out" "log.txt" "t2" "t3"]
      with ([Logger.InitLogger "out" "log.txt" "" "t1"; Logger.LogFunc "lost"]
            ++ [Logger.InitLogger "out" "log.txt" "t2" "t3"]).
    assert (forall a b w0, Logger.run join_slash (a ++ b) w0 =
              match Logger.run join_slash a w0 with
              | Some w1 => Logger.run join_slash b w1
              | None => None
              end) as Happ.
    { induction a as [|c a IH]; intros b w0; [reflexivity|].
      simpl. destruct (Logger.run_call join_slash c w0); [apply IH|reflexivity]. }
    rewrite Happ, E1. simpl. rewrite Hinit. reflexivity.
Defined.

(** * Further properties: the parameter combinations *)

Lemma set_item_fresh k v d :
  ~ In k (map fst d) -> Generator.set_item k v d = d ++ [(k, v)].
Proof.
  induction d as [|[k' v'] d IH]; intros H; [reflexivity|]. simpl in *.
  destruct (String.eqb_spec k' k) as [->|Hne]; [tauto|].
  rewrite IH by tauto. reflexivity.
Qed.

Lemma fill_fresh pairs : forall acc,
  NoDup (map fst acc ++ map fst pairs) ->
  fold_left (fun d kv => Generator.set_item (fst kv) (snd kv) d) pairs acc
  = acc ++ pairs.
Proof.
  induction pairs as [|[k v] pairs IH]; intros acc H; simpl.
  - rewrite app_nil_r. reflexivity.
  - simpl in H. rewrite set_item_fresh.
    + rewrite IH; [rewrite <- app_assoc; reflexivity|].
      rewrite map_app. simpl. rewrite <- app_assoc. exact H.
    + apply NoDup_remove_2 in H. intros Hin. apply H.
      apply in_or_app. left. exact Hin.
Qed.

Lemma combine_keys (names : list string) :
  forall (combo : list Generator.json),
    List.length combo = List.length names ->
    map fst (combine names combo) = names.
Proof.
  induction names as [|n names IH]; intros [|c combo] H; try discriminate;
    [reflexivity|]. simpl. rewrite IH; [reflexivity|]. simpl in H. lia.
Qed.

Lemma param_set_nodup names combo :
  NoDup names -> List.length combo = List.length names ->
  Generator.param_set names combo = combine names combo.
Proof.
  intros Hn Hl. unfold Generator.param_set. rewrite fill_fresh; [reflexivity|].
  simpl. rewrite combine_keys by exact Hl. exact Hn.
Qed.

Lemma product_length lists :
  List.length (Generator.product lists) =
  fold_right Nat.mul 1%nat (map (@List.length Generator.json) lists).
Proof.
  induction lists as [|l lists IH]; [reflexivity|]. simpl. rewrite <- IH.
  induction l as [|x l IHl]; [reflexivity|].
  simpl. rewrite length_app, length_map, IHl. reflexivity.
Qed.

Lemma product_in lists : forall combo,
  In combo (Generator.product lists) <->
  Forall2 (fun v l => In v l) combo lists.
Proof.
  induction lists as [|l lists IH]; intros combo; simpl.
  - split.
    + intros [<-|[]]. constructor.
    + intros H. inversion H. left. reflexivity.
  - rewrite in_flat_map. split.
    + intros (x & Hx & Hin). apply in_map_iff in Hin.
      destruct Hin as (c & <- & Hc). constructor; [exact Hx|].
      apply IH. exact Hc.
    + intros H. inversion H as [|x l' c ls Hx Hc]; subst.
      exists x. split; [exact Hx|]. apply in_map. apply IH. exact Hc.
Qed.

Lemma parameters_with_values parameters lists :
  Forall2 Generator.has_values parameters lists ->
  Generator.all_some
    (map (fun p => Generator.values_of (snd p)) parameters)
  = Some (map Generator.JList lists).
Proof.
  induction 1 as [|p l ps ls (d & Hd & Hg) _ IH]; [reflexivity|].
  simpl. rewrite Hd. simpl. rewrite Hg, IH. reflexivity.
Qed.

Lemma iterate_lists lists :
  Generator.all_some (map Generator.iterate (map Generator.JList lists))
  = Some lists.
Proof.
  induction lists as [|l lists IH]; [reflexivity|]. simpl. rewrite IH.
  reflexivity.
Qed.

Lemma generate_with_values parameters lists :
  Forall2 Generator.has_values parameters lists ->
  Generator.generate_parameter_combinations parameters =
  Some (map (Generator.param_set (map fst parameters))
          (Generator.product lists)).
Proof.
  intros H. unfold Generator.generate_parameter_combinations.
  rewrite (parameters_with_values _ _ H), iterate_lists. reflexivity.
Qed.

(** X21. When every parameter is a dict with a list under ["values"] and
    the parameter names are distinct, the combinations are the Cartesian
    product of the value lists, the last parameter varying fastest: there
    are as many as the product of the numbers of values, and each assigns
    to the parameters, in their order, one value of each list. *)
Theorem combinations_are_the_product :
  forall parameters lists,
    Forall2 Generator.has_values parameters lists ->
    NoDup (map fst parameters) ->
    exists combinations,
      Generator.generate_parameter_combinations parameters =
        Some combinations /\
      combinations =
        map (combine (map fst parameters)) (Generator.product lists) /\
      List.length combinations =
        fold_right Nat.mul 1%nat (map (@List.length Generator.json) lists) /\
      forall c,
        In c combinations <->
        exists choice,
          Forall2 (fun v l => In v l) choice lists /\
          c = combine (map fst parameters) choice.
Proof.
  intros parameters lists Hv Hn.
  assert (map (Generator.param_set (map fst parameters))
            (Generator.product lists)
          = map (combine (map fst parameters)) (Generator.product lists)) as E.
  { apply map_ext_in. intros combo Hc. apply param_set_nodup; [exact Hn|].
    apply product_in in Hc. rewrite length_map.
    apply Forall2_length in Hc. apply Forall2_length in Hv. lia. }
  eexists. split; [apply generate_with_values; exact Hv|]. rewrite E.
  split; [reflexivity|]. split.
  - rewrite length_map. apply product_length.
  - intros c. rewrite in_map_iff. split.
    + intros (choice & <- & Hc). exists choice. split; [|reflexivity].
      apply product_in. exact Hc.
    + intros (choice & Hc & ->). exists choice. split; [reflexivity|].
      apply product_in. exact Hc.
Qed.

Lemma combinations_are_the_product_witness :
  Generator.generate_parameter_combinations
    [Generator.param "imp_speed" [Generator.JInt 1; Generator.JInt 2];
     Generator.param "material" [Generator.JStr "MatA"; Generator.JStr "MatB"]]
  = Some [[("imp_speed", Generator.JInt 1); ("material", Generator.JStr "MatA")];
          [("imp_speed", Generator.JInt 1); ("material", Generator.JStr "MatB")];
          [("imp_speed", Generator.JInt 2); ("material", Generator.JStr "MatA")];
          [("imp_speed", Generator.JInt 2); ("material", Generator.JStr "MatB")]].
Proof.
  destruct (combinations_are_the_product
              [Generator.param "imp_speed" [Generator.JInt 1; Generator.JInt 2];
               Generator.param "material"
                 [Generator.JStr "MatA"; Generator.JStr "MatB"]]
              [[Generator.JInt 1; Generator.JInt 2];
               [Generator.JStr "MatA"; Generator.JStr "MatB"]])
    as (combos & Hgen & -> & _).
  - repeat constructor; eexists; split; reflexivity.
  - repeat constructor; simpl; intuition discriminate.
  - exact Hgen.
Defined.


